(** * Podcast pipeline: episode ledger, stage runner and confidence gating

  A shallow embedding of the Python backend
  ([backend/utils], [backend/services], [backend/app.py]) together with
  the properties of its specification.

  Conventions of the embedding.
  - A [Path] is the string it prints as; the file system is a finite map
    from paths to contents.  JSON files are kept in parsed form.
  - Python exceptions are values of [exn]; code that can raise lives in the
    state-and-exception monad [M], where the effects performed before a
    raise stay in the world.
  - Third-party libraries ([re], [requests], AssemblyAI, sentence
    transformers with faiss, OpenAI, reportlab) are collaborators gathered
    in the record [Env]; every request sent to a remote service is appended
    to the world's [trace].
  - Python floats are idealised as exact rationals ([Q]).
  - Text is a byte string; [str.lower] lowers the ASCII letters. *)

From Stdlib Require Import ZArith QArith Qminmax Lia List String Ascii.
From stdpp Require Import base option gmap strings list fin_maps pretty.

Local Open Scope Z_scope.
Local Open Scope stdpp_scope.

(* ================================================================== *)
(** * Text helpers (Python [str] methods used by the code)            *)
(* ================================================================== *)

Module Str.

Definition newline : string := String (ascii_of_nat 10) EmptyString.

Definition lower_ascii (c : ascii) : ascii :=
  let n := nat_of_ascii c in
  if (65 <=? n)%nat && (n <=? 90)%nat then ascii_of_nat (n + 32) else c.

(** [s.lower()] *)
Fixpoint lower (s : string) : string :=
  match s with
  | EmptyString => EmptyString
  | String c r => String (lower_ascii c) (lower r)
  end.

(** [sub in s] *)
Fixpoint contains (sub s : string) : bool :=
  String.prefix sub s ||
  match s with
  | EmptyString => false
  | String _ r => contains sub r
  end.

(** [s.startswith(p)] *)
Definition startswith (p s : string) : bool := String.prefix p s.

(** [any(k in s for k in ks)] *)
Definition contains_any (ks : list string) (s : string) : bool :=
  existsb (fun k => contains k s) ks.

(** [s[:n]] *)
Definition take (n : nat) (s : string) : string := String.substring 0 n s.

Fixpoint drop (n : nat) (s : string) : string :=
  match n, s with
  | O, _ => s
  | S n', String _ r => drop n' r
  | S _, EmptyString => EmptyString
  end.

(** [s.replace(old, new)] for a non-empty [old]: the non-overlapping
    occurrences, leftmost first.  [fuel] bounds the scan by the length. *)
Fixpoint replace_go (fuel : nat) (old new s : string) : string :=
  match fuel with
  | O => s
  | S fuel' =>
      match s with
      | EmptyString => EmptyString
      | String c r =>
          if String.prefix old s
          then new +:+ replace_go fuel' old new (drop (String.length old) s)
          else String c (replace_go fuel' old new r)
      end
  end.

Definition replace (old new s : string) : string :=
  replace_go (String.length s) old new s.

(** [s.lstrip(c)] and [s.strip(c)] for a single character [c] *)
Fixpoint lstrip (c : ascii) (s : string) : string :=
  match s with
  | String d r => if Ascii.eqb c d then lstrip c r else s
  | EmptyString => EmptyString
  end.

Definition strip (c : ascii) (s : string) : string :=
  String.rev (lstrip c (String.rev (lstrip c s))).

(** Whitespace of [str.strip()] and [str.split()] within ASCII. *)
Definition is_space (c : ascii) : bool :=
  let n := nat_of_ascii c in
  ((9 <=? n) && (n <=? 13) || (28 <=? n) && (n <=? 32))%nat.

Fixpoint lstrip_ws (s : string) : string :=
  match s with
  | String d r => if is_space d then lstrip_ws r else s
  | EmptyString => EmptyString
  end.

(** [s.strip()] *)
Definition strip_ws (s : string) : string :=
  String.rev (lstrip_ws (String.rev (lstrip_ws s))).

(** [s.endswith(p)] *)
Definition endswith (p s : string) : bool :=
  String.prefix (String.rev p) (String.rev s).

End Str.

(* ================================================================== *)
(** * backend/utils/paths.py                                          *)
(* ================================================================== *)

Module Paths.

(** The complement of [SAFE_CHARS = [^A-Za-z0-9._-]+]. *)
Definition is_safe (c : ascii) : bool :=
  let n := nat_of_ascii c in
  ((65 <=? n) && (n <=? 90) || (97 <=? n) && (n <=? 122) ||
   (48 <=? n) && (n <=? 57) || (n =? 46) || (n =? 95) || (n =? 45))%nat.

(** [SAFE_CHARS.sub("_", name)]: each maximal run of unsafe characters
    becomes one underscore. *)
Fixpoint sub_unsafe (in_run : bool) (s : string) : string :=
  match s with
  | EmptyString => EmptyString
  | String c r =>
      if is_safe c then String c (sub_unsafe false r)
      else if in_run then sub_unsafe true r
      else String "_"%char (sub_unsafe true r)
  end.

Definition safe_name (name : string) : string :=
  Str.strip "_"%char (sub_unsafe false name).

(** [p / child] of pathlib; an empty or [.] child adds no component. *)
Definition join (p child : string) : string :=
  if decide (child = "" ∨ child = ".") then p else p +:+ "/" +:+ child.

(** [Path(s)]: the empty string denotes the current directory. *)
Definition Path (s : string) : string := if decide (s = "") then "." else s.

Section WithBase.
Variable BASE_DATA_DIR : string.

Definition podcast_dir (name : string) : string :=
    join BASE_DATA_DIR (safe_name name).

Record episode_paths_t := {
    audio : string; audio_part : string; raw : string; clean : string;
    meta : string }.

Definition episode_paths (podcast guid title : string) : episode_paths_t :=
    let base := join (podcast_dir podcast) "episodes" in
    let src := if decide (guid = "") then
                 (if decide (title = "") then "episode" else title)
               else guid in
    let stem := Str.take 120 (safe_name src) in
    {| audio := join base (stem +:+ ".mp3");
       audio_part := join base (stem +:+ ".mp3.part");
       raw := join base (stem +:+ "_raw.txt");
       clean := join base (stem +:+ "_clean.txt");
       meta := join base (stem +:+ ".meta.json") |}.

Record podcast_artifacts_t := {
    pdf : string; persona : string; faiss : string; faiss_meta : string;
    manifest : string; lock : string }.

Definition podcast_artifacts (podcast : string) : podcast_artifacts_t :=
    let base := podcast_dir podcast in
    {| pdf := join base (safe_name podcast +:+ ".pdf");
       persona := join base "persona.json";
       faiss := join base "embeddings.faiss";
       faiss_meta := join base "embeddings_meta.json";
       manifest := join base "manifest.json";
       lock := join base ".processing.lock" |}.
End WithBase.

End Paths.


(* ================================================================== *)
(** * Data model                                                      *)
(* ================================================================== *)

(** A field of an episode record: the code stores strings ([title],
    [audio_url], [publish_date], [status], [transcript_id]) and one nested
    dictionary ([files], stage name to artifact path). *)
Inductive value :=
| VStr (s : string)
| VDict (d : gmap string string).

Global Instance value_eq_dec : EqDecision value.
Proof. solve_decision. Defined.

(** The manifest: [{"podcast_name": ..., "episodes": {guid: record}}]. *)
Record Manifest := {
  podcast_name : string;
  episodes : gmap string (gmap string value) }.

(** [persona.json], read with [persona.get(key, default)]. *)
Record Persona := {
  persona_podcast_name : option string;
  host_style : option string;
  common_themes : option (list string);
  guest_archetypes : option (list string);
  signature_questions : option (list string) }.

Definition empty_persona : Persona :=
  {| persona_podcast_name := None; host_style := None; common_themes := None;
     guest_archetypes := None; signature_questions := None |}.

(** An entry of [embeddings_meta.json]. *)
Record meta_t := { meta_guid : string; meta_title : string }.

(** The prompts of debate.py, each an f-string template: a prompt is
    represented by its template and the values interpolated into it. *)
Inductive prompt :=
| CreativePrompt (persona : Persona) (query scenario_type : string)
| DatabasePrompt (persona : Persona) (query context_text scenario_type : string)
| SimpleCreativePrompt (podcast host_style query : string) (is_factual : bool)
| SynthesisPrompt (query synthesis_context episode_context scenario_type : string).

(** The regular expressions of the repository, by the place they occur. *)
Inductive regex :=
| AD_SPONSORED      (* this episode is sponsored by.*?$ *)
| AD_USE_CODE       (* use code [A-Z0-9]{4,}.*?$ *)
| AD_PROMO_CODE     (* promo code.*?$ *)
| HEAD_INTRO        (* ^\s*intro[:\-].*?$ *)
| TAIL_OUTRO        (* ^\s*outro[:\-].*?$ *)
| MULTIWS           (* \s+ *)
| MD_HEADING        (* #{1,6}\s* *)
| EMOJI_CLASS       (* the character class of decorative symbols *)
| SPACES            (* one or more spaces *)
| NEWLINES3         (* \n{3,} *)
| NEWLINE_CAPITAL.  (* \n([A-Z]), replaced by \n\n\1 *)

(** Requests sent to the outside world. *)
Inductive event :=
| EvHttpGet (url : string) (range : option nat)
| EvSttUpload (audio_path : string)
| EvSttSubmit (upload_url : string)
| EvSttPoll (tid : string)
| EvSearch (faiss_path query : string) (top_k : nat)
| EvChat (p : prompt) (temperature : Q) (max_tokens : nat).

(** Answer of the audio server to one GET: the transport fails, or a
    status code arrives with the bytes streamed before the body ends
    ([complete]) or the connection breaks. *)
Inductive http_response :=
| HttpFailure
| HttpReply (status_code : nat) (body : string) (complete : bool).

(** Answer of the speech-to-text service to one poll. *)
Inductive poll_reply :=
| PollFailure
| PollJson (status : string) (text : string).

(** The collaborators.  A remote service answers as a function of the
    requests made so far, which covers transient failures. *)
Record Env := {
  BASE_DATA_DIR : string;
  re_sub : regex -> string -> string -> string;
  http_get : list event -> string -> option nat -> http_response;
  stt_upload : list event -> string -> option string;
  stt_submit : list event -> string -> option string;
  stt_poll : list event -> string -> poll_reply;
  faiss_search : list string -> string -> nat -> list (Z * Q);
  chat : list event -> prompt -> Q -> nat -> option string;
  render_pdf : list (string * string) -> option string }.

(** The persistent state: files by path, and the trace of requests. *)
Record world := {
  files : gmap string string;
  manifests : gmap string Manifest;
  faiss_files : gmap string (list string);
  meta_files : gmap string (list meta_t);
  persona_files : gmap string Persona;
  trace : list event }.

Definition set_files (f : gmap string string -> gmap string string) (w : world) : world :=
  {| files := f (files w); manifests := manifests w; faiss_files := faiss_files w;
     meta_files := meta_files w; persona_files := persona_files w; trace := trace w |}.

Definition set_manifests (f : gmap string Manifest -> gmap string Manifest) (w : world) : world :=
  {| files := files w; manifests := f (manifests w); faiss_files := faiss_files w;
     meta_files := meta_files w; persona_files := persona_files w; trace := trace w |}.

Definition set_index (fp mp : string) (texts : list string) (ms : list meta_t) (w : world) : world :=
  {| files := files w; manifests := manifests w;
     faiss_files := <[fp := texts]> (faiss_files w);
     meta_files := <[mp := ms]> (meta_files w);
     persona_files := persona_files w; trace := trace w |}.

Definition log_event (e : event) (w : world) : world :=
  {| files := files w; manifests := manifests w; faiss_files := faiss_files w;
     meta_files := meta_files w; persona_files := persona_files w;
     trace := trace w ++ [e] |}.

(* ================================================================== *)
(** * Exceptions and the monad of the pipeline                        *)
(* ================================================================== *)

Inductive exn :=
| ValueError | RuntimeError | FileNotFoundError | IsADirectoryError
| RequestException | AttributeError | IndexError | KeyError | APIError.

Global Instance exn_eq_dec : EqDecision exn.
Proof. solve_decision. Defined.

Definition M (A : Type) : Type := world -> (exn + A) * world.

Global Instance M_ret : MRet M := fun A x w => (inr x, w).

Global Instance M_bind : MBind M := fun A B f m w =>
  match m w with
  | (inr x, w') => f x w'
  | (inl e, w') => (inl e, w')
  end.

Definition raise {A} (e : exn) : M A := fun w => (inl e, w).

(** [try: body except: handler]. *)
Definition try_except {A} (body : M A) (handler : exn -> M A) : M A := fun w =>
  match body w with
  | (inr x, w') => (inr x, w')
  | (inl e, w') => handler e w'
  end.

Definition get_world : M world := fun w => (inr w, w).
Definition modify (f : world -> world) : M unit := fun w => (inr tt, f w).

(** File operations of [pathlib.Path]. *)
Definition is_dir (p : string) : bool := bool_decide (p = ".").

Definition exists_ (p : string) : M bool :=
  w ← get_world; mret (is_dir p || bool_decide (is_Some (files w !! p))).

Definition read_text (p : string) : M string :=
  w ← get_world;
  if is_dir p then raise IsADirectoryError
  else match files w !! p with
       | Some s => mret s
       | None => raise FileNotFoundError
       end.

Definition write_text (p s : string) : M unit :=
  if is_dir p then raise IsADirectoryError
  else modify (set_files (insert p s)).

(** [p.stat().st_size] *)
Definition st_size (p : string) : M nat :=
  s ← read_text p; mret (String.length s).

(** [p.unlink()] *)
Definition unlink (p : string) : M unit :=
  w ← get_world;
  match files w !! p with
  | Some _ => modify (set_files (delete p))
  | None => raise FileNotFoundError
  end.

(* ================================================================== *)
(** * backend/utils/state.py                                          *)
(* ================================================================== *)

Section Backend.
Context (env : Env).

Local Abbreviation episode_paths := (Paths.episode_paths (BASE_DATA_DIR env)).
Local Abbreviation podcast_artifacts := (Paths.podcast_artifacts (BASE_DATA_DIR env)).

Definition load_manifest (podcast : string) : M Manifest :=
  w ← get_world;
  let mf := Paths.manifest (podcast_artifacts podcast) in
  match manifests w !! mf with
  | Some m => mret m
  | None => mret {| podcast_name := podcast; episodes := ∅ |}
  end.

Definition save_manifest (podcast : string) (data : Manifest) : M unit :=
  let mf := Paths.manifest (podcast_artifacts podcast) in
  modify (set_manifests (insert mf data)).

(** [epi.update(kwargs)]: the keys of [kwargs] win. *)
Definition update_episode_state (podcast guid : string) (kwargs : gmap string value) : M unit :=
  mf ← load_manifest podcast;
  let epi := default ∅ (episodes mf !! guid) in
  let epi := kwargs ∪ epi in
  save_manifest podcast
    {| podcast_name := podcast_name mf; episodes := <[guid := epi]> (episodes mf) |}.

Definition order : list string :=
  ["downloaded"; "transcribed"; "cleaned"; "embedded"; "pdf"].

(** [l.index(x)], which raises [ValueError] when [x] is absent. *)
Definition py_index (x : value) (l : list string) : M nat :=
  match list_find (fun s => VStr s = x) l with
  | Some (i, _) => mret i
  | None => raise ValueError
  end.

Definition episode_done_at_least (podcast guid stage : string) : M bool :=
  mf ← load_manifest podcast;
  match episodes mf !! guid with
  | None => mret false
  | Some epi =>
      if decide (epi = ∅) then mret false
      else
        try_except
          (i ← py_index (default (VStr "") (epi !! "status")) order;
           j ← py_index (VStr stage) order;
           mret (bool_decide (j ≤ i)%nat))
          (fun e => match e with ValueError => mret false | _ => raise e end)
  end.


(** [for x in xs: body(x)] *)
Fixpoint for_each {A} (xs : list A) (body : A -> M unit) : M unit :=
  match xs with
  | [] => mret tt
  | x :: r => body x;; for_each r body
  end.

(** [[f(x) for x in xs]] *)
Fixpoint for_list {A B} (xs : list A) (f : A -> M B) : M (list B) :=
  match xs with
  | [] => mret []
  | x :: r => y ← f x; ys ← for_list r f; mret (y :: ys)
  end.

(** The text of a field that the code stores as a string. *)
Definition value_text (v : value) : string :=
  match v with
  | VStr s => s
  | VDict _ => ""
  end.

(** Truth value of a field read with [epi.get(key)]. *)
Definition truthy (v : option value) : bool :=
  match v with
  | None => false
  | Some (VStr s) => negb (bool_decide (s = ""))
  | Some (VDict d) => negb (bool_decide (d = ∅))
  end.

(** [epi.get("files", {}).get("clean", "")] *)
Definition files_get (epi : gmap string value) (key : string) : M string :=
  match epi !! "files" with
  | None => mret ""
  | Some (VDict d) => mret (default "" (d !! key))
  | Some (VStr _) => raise AttributeError
  end.

(* ------------------------------------------------------------------ *)
(** ** backend/services/clean.py                                      *)
(* ------------------------------------------------------------------ *)

Definition AD_PATTERNS : list regex := [AD_SPONSORED; AD_USE_CODE; AD_PROMO_CODE].
Definition HEAD_TAIL : list regex := [HEAD_INTRO; TAIL_OUTRO].

Definition clean_transcript (podcast guid title : string) : M string :=
  done ← episode_done_at_least podcast guid "cleaned";
  if done : bool then mret (Paths.clean (episode_paths podcast guid title))
  else
    let paths := episode_paths podcast guid title in
    let raw := Paths.raw paths in
    let clean := Paths.clean paths in
    ex ← exists_ raw;
    txt ← (if ex : bool then read_text raw else mret "");
    let txt := fold_left (fun txt pat => re_sub env pat " " txt) (AD_PATTERNS ++ HEAD_TAIL) txt in
    let txt := Str.strip_ws (re_sub env MULTIWS " " txt) in
    write_text clean txt;;
    update_episode_state podcast guid
      {[ "status" := VStr "cleaned"; "files" := VDict {[ "clean" := clean ]} ]};;
    mret clean.

(* ------------------------------------------------------------------ *)
(** ** backend/services/download.py                                   *)
(* ------------------------------------------------------------------ *)

Definition MAX_RETRIES : nat := 3.
Definition MIN_FILE_SIZE : nat := 1024.

(** [_cleanup_failed_download]: whatever goes wrong is swallowed. *)
Definition cleanup_failed_download (part_file audio_file : string) : M unit :=
  try_except
    (ex ← exists_ part_file;
     (if ex : bool then unlink part_file else mret tt);;
     ex2 ← exists_ audio_file;
     if ex2 : bool then
       sz ← st_size audio_file;
       if (sz <? MIN_FILE_SIZE)%nat then unlink audio_file else mret tt
     else mret tt)
    (fun _ => mret tt).

(** [source.replace(destination)] *)
Definition replace_file (source destination : string) : M unit :=
  w ← get_world;
  match files w !! source with
  | Some s => modify (set_files (fun fs => <[destination := s]> (delete source fs)))
  | None => raise FileNotFoundError
  end.

(** [_safe_file_rename].  The retries answer [PermissionError], which the
    file system of the model never raises: the first round decides. *)
Definition safe_file_rename (source destination : string) : M unit :=
  ex ← exists_ destination;
  (if ex : bool then unlink destination else mret tt);;
  replace_file source destination.

(** How one round of the retry loop ends.  The loop keeps [resume_from] and
    the [Range] header in local variables that the [except] clause and the
    next round read, so a round hands them on: [Broke] is [break],
    [Continued] is [continue], and [Failed] is an exception caught by
    [except (requests.RequestException, OSError, ValueError)]. *)
Inductive round :=
| Broke
| Continued (resume_from : nat) (range : option nat)
| Failed (resume_from : nat).

(** [open(part, mode)] followed by the writes of the streamed chunks. *)
Definition write_chunks (part : string) (append : bool) (body : string) : M unit :=
  w ← get_world;
  let old := if append then default "" (files w !! part) else "" in
  modify (set_files (insert part (old +:+ body))).

(** The body of [try:] in one round. *)
Definition download_round (audio_url part : string) (resume_from : nat)
    (range : option nat) : M round :=
  w ← get_world;
  modify (log_event (EvHttpGet audio_url range));;
  match http_get env (trace w) audio_url range with
  | HttpFailure => mret (Failed resume_from)
  | HttpReply status_code body complete =>
      if (400 <=? status_code)%nat && (status_code <? 600)%nat
      then mret (Failed resume_from)
      else if (0 <? resume_from)%nat &&
              negb (bool_decide (status_code = 206%nat ∨ status_code = 200%nat))
      then mret (Continued 0 None)
      else
        let append := (0 <? resume_from)%nat && bool_decide (status_code = 206%nat) in
        ex ← exists_ part;
        let fresh := negb append && ex in
        (if fresh then unlink part else mret tt);;
        let resume_from := if fresh then 0%nat else resume_from in
        write_chunks part append body;;
        if negb complete then mret (Failed resume_from)
        else
          final_size ← st_size part;
          if (final_size <? MIN_FILE_SIZE)%nat then mret (Failed resume_from)
          else mret Broke
  end.

(** [for attempt in range(MAX_RETRIES)], from round [attempt] on;
    [left] is the number of rounds that remain. *)
Fixpoint download_rounds (left attempt : nat) (audio_url part : string)
    (resume_from : nat) (range : option nat) : M unit :=
  match left with
  | O => mret tt
  | S left' =>
      r ← download_round audio_url part resume_from range;
      match r with
      | Broke => mret tt
      | Continued resume_from' range' =>
          download_rounds left' (S attempt) audio_url part resume_from' range'
      | Failed resume_from' =>
          if bool_decide (attempt = (MAX_RETRIES - 1)%nat) then raise RuntimeError
          else
            ex ← exists_ part;
            if bool_decide (is_Some range) && ex then
              sz ← st_size part;
              download_rounds left' (S attempt) audio_url part sz (Some sz)
            else
              download_rounds left' (S attempt) audio_url part resume_from' range
      end
  end.

Definition valid_url (audio_url : string) : bool :=
  negb (bool_decide (audio_url = "")) &&
  (Str.startswith "http://" audio_url || Str.startswith "https://" audio_url).

Definition download_episode (podcast guid title audio_url : string) : M string :=
  done ← episode_done_at_least podcast guid "downloaded";
  let existing_path := Paths.audio (episode_paths podcast guid title) in
  intact ← (if done : bool then
              ex ← exists_ existing_path;
              if ex : bool then
                sz ← st_size existing_path; mret (MIN_FILE_SIZE <? sz)%nat
              else mret false
            else mret false);
  if intact : bool then mret existing_path
  else if negb (valid_url audio_url) then raise ValueError
  else
    let paths := episode_paths podcast guid title in
    let audio := Paths.audio paths in
    let part := Paths.audio_part paths in
    try_except
      (ex ← exists_ part;
       resume_from ← (if ex : bool then st_size part else mret 0%nat);
       let range := if (0 <? resume_from)%nat then Some resume_from else None in
       download_rounds MAX_RETRIES 0 audio_url part resume_from range;;
       safe_file_rename part audio;;
       ex ← exists_ audio;
       small ← (if ex : bool then sz ← st_size audio; mret (sz <? MIN_FILE_SIZE)%nat
                else mret true);
       if small : bool then raise RuntimeError
       else
         update_episode_state podcast guid
           {[ "title" := VStr title; "audio_url" := VStr audio_url;
              "status" := VStr "downloaded";
              "files" := VDict {[ "audio" := audio ]} ]};;
         mret audio)
      (fun e => cleanup_failed_download part audio;; raise e).

(* ------------------------------------------------------------------ *)
(** ** backend/services/transcribe.py                                 *)
(* ------------------------------------------------------------------ *)

(** [_upload_file]: the transports tried in turn are one collaborator,
    which hands back the upload URL or fails for good. *)
Definition upload_file (path : string) : M string :=
  w ← get_world;
  modify (log_event (EvSttUpload path));;
  match stt_upload env (trace w) path with
  | Some upload_url => mret upload_url
  | None => raise RuntimeError
  end.

(** [session.post(f"{A_BASE}/transcript", ...)], [raise_for_status] and
    [job.json()["id"]]. *)
Definition submit_job (upload_url : string) : M string :=
  w ← get_world;
  modify (log_event (EvSttSubmit upload_url));;
  match stt_submit env (trace w) upload_url with
  | Some tid => mret tid
  | None => raise RequestException
  end.

(** [while True:] of the polling, entered with [poll_count].  Every round
    that goes on raises [poll_count], and no round goes on beyond 360, so
    [left] rounds are enough when [left + poll_count > 361]; [stuck] is
    what the loop would answer with no round left. *)
Fixpoint poll_loop (stuck : M string) (left poll_count : nat)
    (podcast guid tid raw : string) : M string :=
  match left with
  | O => stuck
  | S left' =>
      w ← get_world;
      modify (log_event (EvSttPoll tid));;
      match stt_poll env (trace w) tid with
      | PollJson status text =>
          if bool_decide (status = "completed") then
            if bool_decide (text = "") then raise RuntimeError
            else
              write_text raw text;;
              update_episode_state podcast guid
                {[ "status" := VStr "transcribed";
                   "files" := VDict {[ "raw" := raw ]} ]};;
              mret raw
          else if bool_decide (status = "error") then raise RuntimeError
          else
            let poll_count := S poll_count in
            if (360 <? poll_count)%nat then raise RuntimeError
            else poll_loop stuck left' poll_count podcast guid tid raw
      | PollFailure =>
          if (10 <? poll_count)%nat then raise RuntimeError
          else poll_loop stuck left' (S poll_count) podcast guid tid raw
      end
  end.

Definition POLL_ROUNDS : nat := 362.

Definition transcribe_episode (podcast guid title : string) : M string :=
  done ← episode_done_at_least podcast guid "transcribed";
  let paths := episode_paths podcast guid title in
  let raw := Paths.raw paths in
  if done : bool then mret raw
  else
    ex ← exists_ raw;
    written ← (if ex : bool then sz ← st_size raw; mret (0 <? sz)%nat else mret false);
    if written : bool then
      update_episode_state podcast guid
        {[ "status" := VStr "transcribed"; "files" := VDict {[ "raw" := raw ]} ]};;
      mret raw
    else
      mf ← load_manifest podcast;
      let epi := default ∅ (episodes mf !! guid) in
      let tid := epi !! "transcript_id" in
      tid ← (if negb (truthy tid) then
               ex ← exists_ (Paths.audio paths);
               if negb ex then raise FileNotFoundError
               else
                 upload_url ← upload_file (Paths.audio paths);
                 tid ← submit_job upload_url;
                 update_episode_state podcast guid {[ "transcript_id" := VStr tid ]};;
                 mret tid
             else mret (value_text (default (VStr "") tid)));
      poll_loop (raise RuntimeError) POLL_ROUNDS 0 podcast guid tid raw.

(* ------------------------------------------------------------------ *)
(** ** backend/services/embeddings.py                                 *)
(* ------------------------------------------------------------------ *)

(** The loop that collects [texts] and [metas] from the cleaned files. *)
Fixpoint collect_clean (eps : list (string * gmap string value))
    (texts : list string) (metas : list meta_t) : M (list string * list meta_t) :=
  match eps with
  | [] => mret (texts, metas)
  | (guid, epi) :: r =>
      recorded ← files_get epi "clean";
      let clean := Paths.Path recorded in
      ex ← exists_ clean;
      if ex : bool then
        txt ← read_text clean;
        collect_clean r (texts ++ [txt])
          (metas ++ [{| meta_guid := guid;
                        meta_title := value_text (default (VStr guid) (epi !! "title")) |}])
      else collect_clean r texts metas
  end.

Definition build_embeddings (podcast : string) : M (option string) :=
  mf0 ← load_manifest podcast;
  flags ← for_list (map fst (map_to_list (episodes mf0)))
             (fun guid => episode_done_at_least podcast guid "embedded");
  if forallb id flags then mret (Some (Paths.faiss (podcast_artifacts podcast)))
  else
    mf ← load_manifest podcast;
    '(texts, metas) ← collect_clean (map_to_list (episodes mf)) [] [];
    if bool_decide (texts = []) then mret None
    else
      let art := podcast_artifacts podcast in
      modify (set_index (Paths.faiss art) (Paths.faiss_meta art) texts metas);;
      for_each (map fst (map_to_list (episodes mf)))
        (fun guid => update_episode_state podcast guid {[ "status" := VStr "embedded" ]});;
      mret (Some (Paths.faiss art)).

(** A search result [{title, guid, score}]. *)
Record hit := { hit_title : string; hit_guid : string; hit_score : Q }.

(** [metas[idx]] with Python's indexing: a negative index counts from the
    end, an index out of range raises. *)
Definition py_getitem {A} (l : list A) (idx : Z) : M A :=
  let n := Z.of_nat (length l) in
  let i := if idx <? 0 then idx + n else idx in
  if (i <? 0) || (n <=? i) then raise IndexError
  else match l !! Z.to_nat i with
       | Some x => mret x
       | None => raise IndexError
       end.

Fixpoint search_results (metas : list meta_t) (found : list (Z * Q))
    (results : list hit) : M (list hit) :=
  match found with
  | [] => mret results
  | (idx, dist) :: r =>
      if idx <? Z.of_nat (length metas) then
        m ← py_getitem metas idx;
        search_results metas r
          (results ++ [{| hit_title := meta_title m; hit_guid := meta_guid m;
                          hit_score := dist |}])
      else search_results metas r results
  end.

Definition search (podcast query : string) (top_k : nat) : M (list hit) :=
  let art := podcast_artifacts podcast in
  w ← get_world;
  match faiss_files w !! Paths.faiss art with
  | None => mret []
  | Some indexed =>
      modify (log_event (EvSearch (Paths.faiss art) query top_k));;
      let found := faiss_search env indexed query top_k in
      match meta_files w !! Paths.faiss_meta art with
      | None => raise FileNotFoundError
      | Some metas => search_results metas found []
      end
  end.

(* ------------------------------------------------------------------ *)
(** ** backend/services/pdfgen.py                                     *)
(* ------------------------------------------------------------------ *)

(** [_p(story, text, style)]; the spacer after a paragraph is left out. *)
Definition _p (story : list (string * string)) (text style : string) :
    list (string * string) :=
  story ++ [(text, style)].

Fixpoint pdf_story (eps : list (string * gmap string value))
    (story : list (string * string)) : M (list (string * string)) :=
  match eps with
  | [] => mret story
  | (guid, epi) :: r =>
      let title := value_text (default (VStr guid) (epi !! "title")) in
      let pub := value_text (default (VStr "") (epi !! "publish_date")) in
      let host := value_text (default (VStr "") (epi !! "host")) in
      let guest := value_text (default (VStr "") (epi !! "guest")) in
      recorded ← files_get epi "clean";
      let clean_path := Paths.Path recorded in
      ex ← exists_ clean_path;
      text ← (if ex : bool then read_text clean_path else mret "");
      let story := _p story ("<b>Episode:</b> " +:+ title) "Heading2" in
      let story := if bool_decide (pub = "") then story
                   else _p story ("<b>Published:</b> " +:+ pub) "BodyText" in
      let story := if bool_decide (host = "") && bool_decide (guest = "") then story
                   else _p story ("<b>Host:</b> " +:+ host +:+ "  <b>Guest:</b> " +:+ guest)
                          "BodyText" in
      let story := _p story "<b>Transcript:</b>" "BodyText" in
      let story := _p story text "BodyText" in
      pdf_story r story
  end.

Definition generate_podcast_pdf (podcast : string) : M string :=
  let pdf := Paths.pdf (podcast_artifacts podcast) in
  mf ← load_manifest podcast;
  story ← pdf_story (map_to_list (episodes mf))
             (_p [] ("<b>Podcast:</b> " +:+ podcast) "Title");
  match render_pdf env story with
  | Some bytes => write_text pdf bytes;; mret pdf
  | None => raise RuntimeError
  end.

(* ------------------------------------------------------------------ *)
(** ** backend/app.py                                                 *)
(* ------------------------------------------------------------------ *)

(** The reply of an endpoint: [{"success": True, "pdf": ...}] or
    [{"success": False, "error": ...}]. *)
Inductive reply :=
| Success (pdf : string)
| Failure (e : exn).

(** [ep["title"]], which raises [KeyError] on a record without the key. *)
Definition getitem (epi : gmap string value) (key : string) : M string :=
  match epi !! key with
  | Some v => mret (value_text v)
  | None => raise KeyError
  end.

(** The loop at the end of [process_podcast]. *)
Definition mark_pdf (podcast : string) : M unit :=
  mf ← load_manifest podcast;
  for_each (map fst (map_to_list (episodes mf)))
    (fun guid => update_episode_state podcast guid {[ "status" := VStr "pdf" ]}).

Definition process_podcast (podcast : string) : M reply :=
  try_except
    (mf ← load_manifest podcast;
     for_each (map_to_list (episodes mf))
       (fun '(guid, ep) =>
          title ← getitem ep "title";
          url ← getitem ep "audio_url";
          try_except
            (download_episode podcast guid title url;;
             transcribe_episode podcast guid title;;
             clean_transcript podcast guid title;;
             mret tt)
            (fun _ => mret tt));;
     build_embeddings podcast;;
     pdf_path ← generate_podcast_pdf podcast;
     mark_pdf podcast;;
     mret (Success pdf_path))
    (fun e => mret (Failure e)).

(* ------------------------------------------------------------------ *)
(** ** backend/services/debate.py                                     *)
(* ------------------------------------------------------------------ *)

Definition NL : string := Str.newline.
Definition DQUOTE : string := String (ascii_of_nat 34) EmptyString.

Definition clean_text_output (text : string) : string :=
  if bool_decide (text = "") then text
  else
    let text := Str.replace "\n\n\n" (NL +:+ NL) text in
    let text := Str.replace "\n\n" (NL +:+ NL) text in
    let text := Str.replace "\n" NL text in
    let text := Str.replace "\\n\\n" (NL +:+ NL) text in
    let text := Str.replace "\\n" NL text in
    let text := Str.replace ("\" +:+ DQUOTE) DQUOTE text in
    let text := Str.replace "\t" " " text in
    let text := Str.replace "\\" "\" text in
    let text := re_sub env MD_HEADING "" text in
    let text := Str.replace "**" "" text in
    let text := Str.replace "*" "" text in
    let text := Str.replace "]" "" (Str.replace "[" "" text) in
    let text := Str.replace "}" "" (Str.replace "{" "" text) in
    let text := Str.strip_ws text in
    let text := if Str.startswith DQUOTE text && Str.endswith DQUOTE text
                then Str.take (String.length text - 2) (Str.drop 1 text)
                else text in
    let text := re_sub env EMOJI_CLASS "" text in
    let text := re_sub env SPACES " " text in
    let text := re_sub env NEWLINES3 (NL +:+ NL) text in
    let text := re_sub env NEWLINE_CAPITAL "\n\n\1" text in
    Str.strip_ws text.

(** What [apply_final_cleaning] does to a string value. *)
Definition final_clean (value : string) : string :=
  let cleaned := Str.replace "\n\n\n" (NL +:+ NL) value in
  let cleaned := Str.replace "\n\n" (NL +:+ NL) cleaned in
  let cleaned := Str.replace "\n" NL cleaned in
  let cleaned := Str.replace "\\n" NL cleaned in
  clean_text_output cleaned.

(** A retrieved passage, as [get_relevant_episodes] builds it. *)
Record episode := {
  ep_podcast : string; ep_title : string; ep_guid : string;
  ep_text : string; ep_score : Q }.

Definition Qltb (x y : Q) : bool := negb (Qle_bool y x).

(** [min(a, b)] and [max(xs)] of Python: the first of equal arguments. *)
Definition py_min (a b : Q) : Q := if Qltb b a then b else a.

Definition py_max (x : Q) (xs : list Q) : Q :=
  fold_left (fun m y => if Qltb m y then y else m) xs x.

Definition hospitality_keywords : list string :=
  ["hotel"; "guest"; "service"; "hospitality"; "restaurant";
   "booking"; "check-in"; "amenities"; "concierge"; "staff"].

Definition calculate_confidence (episodes : list episode) (query : string) : Q :=
  match map ep_score episodes with
  | [] => 0
  | s :: ss =>
      let highest_score := py_max s ss in
      let base_confidence := py_min highest_score 1 in
      let base_confidence :=
        if (2 <=? length (filter (fun ep => Qltb (5 # 10) (ep_score ep) = true) episodes))%nat
        then base_confidence + (1 # 10) else base_confidence in
      let base_confidence :=
        if Str.contains_any hospitality_keywords (Str.lower query)
        then base_confidence + (5 # 100) else base_confidence in
      py_min base_confidence 1
  end%Q.

Definition get_confidence_explanation (episodes : list episode) (confidence : Q) : string :=
  if Qle_bool (8 # 10) confidence then
    "High confidence based on " +:+ pretty (length episodes) +:+ " highly relevant episodes"
  else if Qle_bool (5 # 10) confidence then
    "Medium confidence based on " +:+ pretty (length episodes) +:+
    " moderately relevant episodes"
  else if Qle_bool (3 # 10) confidence then
    "Low confidence based on " +:+ pretty (length episodes) +:+
    " episodes with limited relevance"
  else "Very low confidence - drawing from general hospitality knowledge".

(** One entry of [individual_responses]. *)
Record indiv := {
  ir_podcast : string; ir_response : string; ir_confidence : Q; ir_source : string }.

Definition creative_indicators : list string :=
  ["while this hasn't"; "this topic hasn't been";
   "hasn't come up in our recent episodes"; "drawing from my broader";
   "from my hospitality experience"; "this hasn't been a focus"].

(** The counting loop of [should_skip_synthesis]:
    [(creative_responses, total_valid_responses)]. *)
Definition count_responses (individual_responses : list indiv) : nat * nat :=
  fold_left
    (fun '(creative_responses, total_valid_responses) resp =>
       let response_text := Str.lower (ir_response resp) in
       if Str.contains "trouble accessing" response_text
       then (creative_responses, total_valid_responses)
       else
         (if Str.contains_any creative_indicators response_text
          then S creative_responses else creative_responses,
          S total_valid_responses))
    individual_responses (0%nat, 0%nat).

Definition should_skip_synthesis (individual_responses : list indiv) : bool :=
  if bool_decide (individual_responses = []) then true
  else
    let '(creative_responses, total_valid_responses) :=
      count_responses individual_responses in
    if (total_valid_responses =? 0)%nat then true
    else
      let creative_ratio :=
        (inject_Z (Z.of_nat creative_responses) /
         inject_Z (Z.of_nat total_valid_responses))%Q in
      Qle_bool (8 # 10) creative_ratio.

Definition detect_scenario_type (query : string) : string :=
  let query_lower := Str.lower query in
  let any words := Str.contains_any words query_lower in
  if any ["trends"; "identify"; "research"; "top 3"; "shaping"] then "research"
  else if any ["questions"; "interview"; "craft"; "preparing"] then "question_crafting"
  else if any ["advice"; "advising"; "recommend"; "strategic"] then "advisory"
  else if any ["episode outline"; "outline"; "content creation"] then "episode_outline"
  else if any ["promo"; "promotional"; "script"; "season launch"] then "promotional_script"
  else if any ["social media"; "instagram"; "twitter"; "linkedin"] then "social_media"
  else if any ["newsletter"; "weekly"; "digest"; "email"] then "newsletter"
  else if any ["general advice"; "launching"; "brand"; "pillars"] then "general_advice"
  else "conversational".

(** [xs.sort(key=lambda x: x['score'], reverse=True)]: a stable sort, the
    higher score first. *)
Fixpoint insert_desc (x : episode) (l : list episode) : list episode :=
  match l with
  | [] => [x]
  | y :: r => if Qltb (ep_score x) (ep_score y) then y :: insert_desc x r else x :: l
  end.

Definition sort_desc (l : list episode) : list episode :=
  fold_right insert_desc [] l.

Fixpoint gather_episodes (podcasts : list string) (query : string) (limit : nat)
    (all_episodes : list episode) : M (list episode) :=
  match podcasts with
  | [] => mret all_episodes
  | podcast :: r =>
      hits ← search podcast query limit;
      gather_episodes r query limit
        (all_episodes ++
         map (fun h => {| ep_podcast := podcast; ep_title := hit_title h;
                          ep_guid := hit_guid h; ep_text := "";
                          ep_score := hit_score h |}) hits)
  end.

Definition get_relevant_episodes (podcasts : list string) (query : string)
    (limit : nat) : M (list episode) :=
  all_episodes ← gather_episodes podcasts query limit [];
  mret (firstn limit (sort_desc all_episodes)).

(** [client.chat.completions.create(...)] and the content of its first
    choice; a failure of the service is an exception. *)
Definition chat_completion (p : prompt) (temperature : Q) (max_tokens : nat) : M string :=
  w ← get_world;
  modify (log_event (EvChat p temperature max_tokens));;
  match chat env (trace w) p temperature max_tokens with
  | Some content => mret content
  | None => raise APIError
  end.

(** [json.loads(Path(persona_path).read_text())] when the file exists. *)
Definition load_persona (podcast : string) : M Persona :=
  w ← get_world;
  mret (default empty_persona
          (persona_files w !! Paths.persona (podcast_artifacts podcast))).

Definition factual_indicators : list string :=
  ["who is"; "what is"; "when is"; "where is"; "how many";
   "president"; "capital"; "population"; "weather"; "temperature"].

Definition simple_creative_apology : string :=
  "That's an interesting question! While this hasn't been a topic we've explored in our recent podcast episodes, I appreciate your curiosity. If you have any hospitality-related questions, I'd be happy to help with those.".

Definition generate_simple_creative_response (query : string) (podcasts : list string) :
    M string :=
  persona ← match podcasts with
            | first_podcast :: _ => load_persona first_podcast
            | [] => mret empty_persona
            end;
  let podcast_name := default "The Curious Concierge" (persona_podcast_name persona) in
  let style := default "Warm, conversational" (host_style persona) in
  let is_factual := Str.contains_any factual_indicators (Str.lower query) in
  try_except
    (content ← chat_completion (SimpleCreativePrompt podcast_name style query is_factual)
                 (8 # 10) 400;
     let answer := clean_text_output content in
     mret (Str.replace "\n" NL (Str.replace "\n\n" (NL +:+ NL) answer)))
    (fun _ => mret simple_creative_apology).

(** The dictionary returned by [single_persona_answer_with_confidence];
    [metadata] holds [episodes_used] and [processing_mode] and is absent
    from the error reply.  Timestamps are left out. *)
Record answer_t := {
  answer : string; confidence : Q; source : string; explanation : string;
  episodes_count : nat; highest_score : Q; scenario_type : string;
  metadata : option (list (string * Q) * string);
  error : option exn }.

(** [context_text] of the database mode. *)
Definition context_of (episodes : list episode) : string :=
  fold_left
    (fun context_text ep =>
       let context_text := context_text +:+ "Episode: " +:+ ep_title ep +:+ NL in
       if bool_decide (ep_text ep = "") then context_text
       else
         let snippet := if (600 <? String.length (ep_text ep))%nat
                        then Str.take 600 (ep_text ep) +:+ "..." else ep_text ep in
         context_text +:+ "Content: " +:+ snippet +:+ NL +:+ NL)
    (firstn 3 episodes) "".

Definition technical_trouble (persona : Persona) : string :=
  "Oh, what a wonderful question! As your host here at " +:+
  default "The Hospitality Expert" (persona_podcast_name persona) +:+
  ", I'd love to dive deep into that topic with you. Pull up a chair by the fire - though I'm having a bit of technical trouble accessing my podcast treasure chest right now. How about we try that question again in just a moment?".

Definition single_persona_answer_with_confidence (podcast query : string) : M answer_t :=
  let scenario_type := detect_scenario_type query in
  episodes ← get_relevant_episodes [podcast] query 3;
  let confidence := calculate_confidence episodes query in
  persona ← load_persona podcast;
  let use_creative_mode := Qltb confidence (7 # 10) in
  let '(p, temperature, max_tokens, source_type) :=
    if use_creative_mode
    then (CreativePrompt persona query scenario_type, 9 # 10, 700%nat, "creative")
    else (DatabasePrompt persona query (context_of episodes) scenario_type,
          8 # 10, 800%nat, "database") in
  try_except
    (content ← chat_completion p temperature max_tokens;
     let answer := clean_text_output content in
     let answer := Str.replace "\n" NL (Str.replace "\n\n" (NL +:+ NL) answer) in
     mret {| answer := answer; confidence := confidence; source := source_type;
             explanation := get_confidence_explanation episodes confidence;
             episodes_count := length episodes;
             highest_score := match map ep_score episodes with
                              | [] => 0
                              | s :: ss => py_max s ss
                              end;
             scenario_type := scenario_type;
             metadata := Some (map (fun ep => (ep_title ep, ep_score ep)) episodes,
                               if use_creative_mode then "creative" else "content_based");
             error := None |})
    (fun e =>
       mret {| answer := technical_trouble persona; confidence := 0;
               source := "error"; explanation := "Technical error occurred";
               episodes_count := length episodes; highest_score := 0;
               scenario_type := scenario_type; metadata := None;
               error := Some e |}).


(** The [metadata] entry of a debate reply. *)
Inductive debate_metadata :=
| SynthesisSkipped (reason : string)
| Synthesised (total_episodes_found : nat) (average_individual_confidence : Q)
    (processing_mode : string).

(** The dictionary returned by [multi_persona_debate_with_confidence]. *)
Record debate_t := {
  synthesis : string;
  individual_responses : list indiv;
  insights_count : nat;
  debate_scenario_type : string;
  episodes_referenced : option nat;
  debate_confidence : Q;
  debate_source : string;
  debate_explanation : string;
  debate_metadata_of : option debate_metadata }.

Definition historical_terms : list string :=
  ["2023"; "2022"; "2021"; "before 2024"; "pre-2024"].

Definition boundary_response : debate_t :=
  {| synthesis := "Oh, I'd love to spill tea from those earlier years, but my podcast treasure chest starts in May 2024! How about we explore what's been buzzing in hospitality since then?";
     individual_responses := [];
     insights_count := 0;
     debate_scenario_type := "edge_case";
     episodes_referenced := None;
     debate_confidence := 1;
     debate_source := "system_boundary";
     debate_explanation := "Query outside available data range";
     debate_metadata_of := None |}.

Definition synthesis_apology : string :=
  "What a fascinating question! I'm having a bit of trouble accessing all my podcast notes right now, but I can tell there are some rich perspectives across these shows.".

(** The loop that asks every podcast on its own. *)
Fixpoint ask_each (podcasts : list string) (query : string)
    (individual_responses : list indiv) : M (list indiv) :=
  match podcasts with
  | [] => mret individual_responses
  | podcast :: r =>
      entry ← try_except
                (podcast_result ← single_persona_answer_with_confidence podcast query;
                 mret {| ir_podcast := podcast; ir_response := answer podcast_result;
                         ir_confidence := confidence podcast_result;
                         ir_source := source podcast_result |})
                (fun _ =>
                   mret {| ir_podcast := podcast;
                           ir_response := "Having trouble accessing " +:+ podcast +:+
                                          " insights right now.";
                           ir_confidence := 0; ir_source := "error" |});
      ask_each r query (individual_responses ++ [entry])
  end.

Definition count_insights (individual_responses : list indiv) : nat :=
  length (filter (fun r => Qltb 0 (ir_confidence r) = true) individual_responses).

Definition final_clean_indiv (r : indiv) : indiv :=
  {| ir_podcast := final_clean (ir_podcast r); ir_response := final_clean (ir_response r);
     ir_confidence := ir_confidence r; ir_source := final_clean (ir_source r) |}.

Definition multi_persona_debate_with_confidence (podcasts : list string) (query : string) :
    M debate_t :=
  let scenario_type := detect_scenario_type query in
  if Str.contains_any historical_terms (Str.lower query) then mret boundary_response
  else
    all_episodes ← get_relevant_episodes podcasts query 10;
    let overall_confidence := calculate_confidence all_episodes query in
    individual_responses ← ask_each podcasts query [];
    if should_skip_synthesis individual_responses then
      simple_response ← generate_simple_creative_response query podcasts;
      mret {| synthesis := simple_response;
              individual_responses := individual_responses;
              insights_count := count_insights individual_responses;
              debate_scenario_type := scenario_type;
              episodes_referenced := Some (length all_episodes);
              debate_confidence := 0;
              debate_source := "simple_creative";
              debate_explanation :=
                "Topic not covered in podcast episodes - providing general response";
              debate_metadata_of := Some (SynthesisSkipped
                "All responses were creative mode - preventing fabrication of non-existent discussions") |}
    else
      let synthesis_context :=
        fold_left
          (fun acc resp =>
             if Str.contains "trouble accessing" (ir_response resp) then acc
             else acc +:+ ir_podcast resp +:+ ": " +:+ ir_response resp +:+ NL +:+ NL)
          individual_responses "" in
      let episode_context :=
        fold_left
          (fun acc ep =>
             acc +:+ "From " +:+ ep_podcast ep +:+ " - " +:+ ep_title ep +:+ ": " +:+
             Str.take 500 (ep_text ep) +:+ "..." +:+ NL +:+ NL)
          (firstn 5 all_episodes) "" in
      synthesis ← try_except
                    (content ← chat_completion
                                 (SynthesisPrompt query synthesis_context episode_context
                                    scenario_type) (8 # 10) 800;
                     mret (clean_text_output content))
                    (fun _ => mret synthesis_apology);
      let average :=
        if bool_decide (individual_responses = []) then 0%Q
        else (fold_left Qplus (map ir_confidence individual_responses) 0 /
              inject_Z (Z.of_nat (length individual_responses)))%Q in
      mret {| synthesis := final_clean synthesis;
              individual_responses := map final_clean_indiv individual_responses;
              insights_count := count_insights individual_responses;
              debate_scenario_type := final_clean scenario_type;
              episodes_referenced := Some (length all_episodes);
              debate_confidence := overall_confidence;
              debate_source := final_clean "database";
              debate_explanation :=
                final_clean (get_confidence_explanation all_episodes overall_confidence);
              debate_metadata_of := Some (Synthesised (length all_episodes) average
                                            (final_clean "content_based")) |}.

(** The dictionary returned by [multi_persona_debate], the wrapper kept
    for older callers. *)
Record debate_compat := {
  compat_synthesis : string;
  compat_individual_responses : list (string * string);
  compat_insights_count : nat;
  compat_scenario_type : string;
  compat_episodes_referenced : nat }.

(** [multi_persona_debate]: the entries are read off the enhanced reply in
    the order of the dictionary display; [result["episodes_referenced"]]
    raises [KeyError] on a reply without that key. *)
Definition multi_persona_debate (podcasts : list string) (query : string) :
    M debate_compat :=
  result ← multi_persona_debate_with_confidence podcasts query;
  match episodes_referenced result with
  | None => raise KeyError
  | Some referenced =>
      mret {| compat_synthesis := synthesis result;
              compat_individual_responses :=
                map (fun r => (ir_podcast r, ir_response r)) (individual_responses result);
              compat_insights_count := insights_count result;
              compat_scenario_type := debate_scenario_type result;
              compat_episodes_referenced := referenced |}
  end.

(** The reply of a query endpoint of app.py: the result itself, or
    [{"error": str(e)}]. *)
Inductive query_reply (A : Type) :=
| Answered (result : A)
| QueryError (e : exn).
Global Arguments Answered {A} result.
Global Arguments QueryError {A} e.


(** [query_multi] of app.py. *)
Definition query_multi (podcast_names : list string) (query : string) :
    M (query_reply debate_compat) :=
  try_except
    (result ← multi_persona_debate podcast_names query; mret (Answered result))
    (fun e => mret (QueryError e)).

(** [search_endpoint] of app.py. *)
Definition search_endpoint (podcast q : string) : M (query_reply (list hit)) :=
  try_except
    (results ← search podcast q 5; mret (Answered results))
    (fun e => mret (QueryError e)).

End Backend.

(* ------------------------------------------------------------------ *)
(** ** backend/app.py: add_podcasts                                   *)
(* ------------------------------------------------------------------ *)

(** An episode as [parse_feed] hands it over; the entries that
    [add_podcasts] does not read are left out. *)
Record feed_episode := {
  fe_guid : string; fe_title : string; fe_audio_url : string; fe_publish_date : string }.

Record feed_info := { podcast_title : string; feed_episodes : list feed_episode }.

(** What [add_podcasts] reports for a feed: the number of episodes parsed
    or the error. *)
Inductive feed_outcome :=
| Parsed (n : nat)
| FeedError (e : exn).

Section Feeds.
Context (env : Env).
(** [parse_feed] of rss.py, which reads the feed off the network. *)
Context (parse_feed : string -> nat -> exn + feed_info).

(** [mf["episodes"].setdefault(guid, {...})] for every episode of the feed;
    the status of a record that is entered is the empty string. *)
Definition enter_episodes (eps : list feed_episode)
    (episodes : gmap string (gmap string value)) : gmap string (gmap string value) :=
  fold_left
    (fun episodes ep =>
       match episodes !! fe_guid ep with
       | Some _ => episodes
       | None =>
           <[fe_guid ep :=
               {[ "title" := VStr (fe_title ep);
                  "audio_url" := VStr (fe_audio_url ep);
                  "publish_date" := VStr (fe_publish_date ep);
                  "status" := VStr "" ]}]> episodes
       end)
    eps episodes.

(** The body of the loop over [req.feeds]. *)
Definition add_feed (feed : string) (latest_n : nat)
    (result : gmap string feed_outcome) : M (gmap string feed_outcome) :=
  try_except
    (match parse_feed feed latest_n with
     | inl e => raise e
     | inr info =>
         let podcast := podcast_title info in
         mf ← load_manifest env podcast;
         save_manifest env podcast
           {| podcast_name := podcast_name mf;
              episodes := enter_episodes (feed_episodes info) (episodes mf) |};;
         mret (<[podcast := Parsed (length (feed_episodes info))]> result)
     end)
    (fun e => mret (<[feed := FeedError e]> result)).

Fixpoint add_feeds (feeds : list string) (latest_n : nat)
    (result : gmap string feed_outcome) : M (gmap string feed_outcome) :=
  match feeds with
  | [] => mret result
  | feed :: r => result ← add_feed feed latest_n result; add_feeds r latest_n result
  end.

(** [add_podcasts]: [{"parsed": result}]. *)
Definition add_podcasts (feeds : list string) (latest_n : nat) :
    M (gmap string feed_outcome) :=
  add_feeds feeds latest_n ∅.

End Feeds.

(* ================================================================== *)
(** * The vocabulary of the specification                             *)
(* ================================================================== *)

(** The stages of the ledger, in their fixed order. *)
Inductive stage := Downloaded | Transcribed | Cleaned | Embedded | Pdf.

Definition stage_name (s : stage) : string :=
  match s with
  | Downloaded => "downloaded"
  | Transcribed => "transcribed"
  | Cleaned => "cleaned"
  | Embedded => "embedded"
  | Pdf => "pdf"
  end.

Definition stage_rank (s : stage) : nat :=
  match s with
  | Downloaded => 0
  | Transcribed => 1
  | Cleaned => 2
  | Embedded => 3
  | Pdf => 4
  end.

(** The record of an episode as it is persisted, and its status. *)
Definition persisted_record (env : Env) (w : world) (podcast guid : string) :
    option (gmap string value) :=
  m ← manifests w !! Paths.manifest (Paths.podcast_artifacts (BASE_DATA_DIR env) podcast);
  episodes m !! guid.

Definition persisted_status (env : Env) (w : world) (podcast guid : string) : option value :=
  r ← persisted_record env w podcast guid; r !! "status".


(** What [load_manifest] reads in a world. *)
Definition the_manifest (env : Env) (w : world) (podcast : string) : Manifest :=
  default {| podcast_name := podcast; episodes := ∅ |}
    (manifests w !! Paths.manifest (Paths.podcast_artifacts (BASE_DATA_DIR env) podcast)).

Definition rank_of (x : value) : option nat :=
  fst <$> list_find (fun s => VStr s = x) order.

(** What [episode_done_at_least] answers in a world. *)
Definition reached (env : Env) (w : world) (podcast guid stage : string) : bool :=
  match episodes (the_manifest env w podcast) !! guid with
  | None => false
  | Some epi =>
      if decide (epi = ∅) then false
      else match rank_of (default (VStr "") (epi !! "status")), rank_of (VStr stage) with
           | Some i, Some j => bool_decide (j <= i)%nat
           | _, _ => false
           end
  end.

(** The world after [update_episode_state]. *)
Definition updated (env : Env) (w : world) (podcast guid : string)
    (kwargs : gmap string value) : world :=
  let mf := the_manifest env w podcast in
  set_manifests
    (insert (Paths.manifest (Paths.podcast_artifacts (BASE_DATA_DIR env) podcast))
       {| podcast_name := podcast_name mf;
          episodes := <[guid := kwargs ∪ default ∅ (episodes mf !! guid)]> (episodes mf) |})
    w.

(** [p.exists()] in a world. *)
Definition path_exists (w : world) (p : string) : bool :=
  is_dir p || bool_decide (is_Some (files w !! p)).

(** The text that [clean_transcript] writes. *)
Definition cleaned_text (env : Env) (w : world) (raw : string) : string :=
  let txt := default "" (files w !! raw) in
  let txt := fold_left (fun txt pat => re_sub env pat " " txt) (AD_PATTERNS ++ HEAD_TAIL) txt in
  Str.strip_ws (re_sub env MULTIWS " " txt).

Definition cleaned_kwargs (clean : string) : gmap string value :=
  {[ "status" := VStr "cleaned"; "files" := VDict {[ "clean" := clean ]} ]}.

(* ================================================================== *)
(** * Worlds and collaborators of the examples                        *)
(* ================================================================== *)

(** Collaborators that are all out of reach; [re.sub] finds no match. *)
Definition quiet_env : Env :=
  {| BASE_DATA_DIR := "data";
     re_sub := fun _ _ text => text;
     http_get := fun _ _ _ => HttpFailure;
     stt_upload := fun _ _ => None;
     stt_submit := fun _ _ => None;
     stt_poll := fun _ _ => PollFailure;
     faiss_search := fun _ _ _ => [];
     chat := fun _ _ _ _ => None;
     render_pdf := fun _ => None |}.

Definition empty_world : world :=
  {| files := ∅; manifests := ∅; faiss_files := ∅; meta_files := ∅;
     persona_files := ∅; trace := [] |}.

(** A world whose only content is the manifest of one podcast. *)
Definition ledger_world (podcast : string) (eps : list (string * gmap string value)) : world :=
  set_manifests
    (insert (Paths.manifest (Paths.podcast_artifacts "data" podcast))
       {| podcast_name := podcast; episodes := list_to_map eps |})
    empty_world.

(** An episode that was downloaded: the ledger records its audio path. *)
Definition downloaded_record : gmap string value :=
  {[ "title" := VStr "Pilot"; "audio_url" := VStr "https://x/a.mp3";
     "status" := VStr "downloaded";
     "files" := VDict {[ "audio" := "data/Pod/episodes/e1.mp3" ]} ]}.

(** An episode whose cleaned transcript is on disk, at a given status. *)
Definition cleaned_record (guid status : string) : gmap string value :=
  {[ "title" := VStr ("Episode " +:+ guid);
     "audio_url" := VStr ("https://x/" +:+ guid +:+ ".mp3");
     "status" := VStr status;
     "files" := VDict {[ "clean" := "data/Pod/episodes/" +:+ guid +:+ "_clean.txt" ]} ]}.

(** A podcast run to the end for episode [e1], to which [e2] was added
    and cleaned since: [e1] is at pdf, [e2] at cleaned. *)
Definition grown_world : world :=
  set_files
    (fun _ => {[ "data/Pod/episodes/e1_clean.txt" := "first transcript";
                 "data/Pod/episodes/e2_clean.txt" := "second transcript" ]})
    (ledger_world "Pod" [("e1", cleaned_record "e1" "pdf");
                         ("e2", cleaned_record "e2" "cleaned")]).

(** Two indexed podcasts.  For any query the index of [Pod] answers with
    entry 0 at distance 0.2, then entry 1 at distance 1.5; the index of
    [Talk] holds one transcript and answers with it at distance 0.9. *)
Definition two_hit_env : Env :=
  {| BASE_DATA_DIR := "data";
     re_sub := fun _ _ text => text;
     http_get := fun _ _ _ => HttpFailure;
     stt_upload := fun _ _ => None;
     stt_submit := fun _ _ => None;
     stt_poll := fun _ _ => PollFailure;
     faiss_search := fun indexed _ top_k =>
       firstn top_k (if bool_decide (length indexed = 1%nat)
                     then [(0%Z, (9 # 10)%Q)]
                     else [(0%Z, (2 # 10)%Q); (1%Z, (15 # 10)%Q)]);
     chat := fun _ _ _ _ => None;
     render_pdf := fun _ => None |}.

Definition indexed_world : world :=
  set_index "data/Talk/embeddings.faiss" "data/Talk/embeddings_meta.json"
    ["other transcript"]
    [{| meta_guid := "t1"; meta_title := "Other" |}]
    (set_index "data/Pod/embeddings.faiss" "data/Pod/embeddings_meta.json"
       ["first transcript"; "second transcript"]
       [{| meta_guid := "e1"; meta_title := "Near" |};
        {| meta_guid := "e2"; meta_title := "Far" |}]
       empty_world).

(** The gate of [download_episode]: the ledger says downloaded and the
    audio file is there with more than [MIN_FILE_SIZE] bytes. *)
Definition audio_intact (env : Env) (w : world) (podcast guid title : string) : bool :=
  reached env w podcast guid "downloaded" &&
  match files w !! Paths.audio (Paths.episode_paths (BASE_DATA_DIR env) podcast guid title) with
  | Some s => (MIN_FILE_SIZE <? String.length s)%nat
  | None => false
  end.

(** A raw transcript with at least one byte is on disk. *)
Definition raw_written (env : Env) (w : world) (podcast guid title : string) : bool :=
  match files w !! Paths.raw (Paths.episode_paths (BASE_DATA_DIR env) podcast guid title) with
  | Some s => (0 <? String.length s)%nat
  | None => false
  end.

(** The transcription job recorded for an episode, if any. *)
Definition recorded_job (env : Env) (w : world) (podcast guid : string) : option value :=
  default ∅ (episodes (the_manifest env w podcast) !! guid) !! "transcript_id".

Definition downloaded_world : world := ledger_world "Pod" [("e1", downloaded_record)].

(** An episode as [add_podcasts] enters it from the feed. *)
Definition feed_record : gmap string value :=
  {[ "title" := VStr "Pilot"; "audio_url" := VStr "https://x/a.mp3";
     "publish_date" := VStr ""; "status" := VStr "" ]}.

Definition feed_world : world := ledger_world "Pod" [("e1", feed_record)].

Fixpoint bytes (n : nat) : string :=
  match n with
  | O => EmptyString
  | S n' => String "a"%char (bytes n')
  end.

(** An audio server that answers every GET with 200 and a complete body
    of [size] bytes. *)
Definition audio_env (size : nat) : Env :=
  {| BASE_DATA_DIR := "data";
     re_sub := fun _ _ text => text;
     http_get := fun _ _ _ => HttpReply 200 (bytes size) true;
     stt_upload := fun _ _ => None;
     stt_submit := fun _ _ => None;
     stt_poll := fun _ _ => PollFailure;
     faiss_search := fun _ _ _ => [];
     chat := fun _ _ _ _ => None;
     render_pdf := fun _ => None |}.

(** The size of a file, [None] when there is none. *)
Definition file_size (w : world) (p : string) : option nat :=
  String.length <$> files w !! p.

(* ================================================================== *)
(** * The vocabulary of the confidence gate                           *)
(* ================================================================== *)

(** [m] is the highest of [scores]. *)
Definition is_highest (m : Q) (scores : list Q) : Prop :=
  In m scores /\ forall s, In s scores -> (s <= m)%Q.

(** The number of passages whose score exceeds [threshold]. *)
Definition count_above (threshold : Q) (episodes : list episode) : nat :=
  length (filter (fun ep => Qltb threshold (ep_score ep) = true) episodes).

(** +0.1 when at least two passages exceed 0.5. *)
Definition relevance_boost (episodes : list episode) : Q :=
  if (2 <=? count_above (5 # 10) episodes)%nat then 1 # 10 else 0.

(** +0.05 when the query holds a domain keyword. *)
Definition keyword_boost (query : string) : Q :=
  if Str.contains_any hospitality_keywords (Str.lower query) then 5 # 100 else 0.

(** The confidence as the specification words it, from the highest score. *)
Definition confidence_formula (highest : Q) (episodes : list episode) (query : string) : Q :=
  Qmin (Qmin highest 1 + relevance_boost episodes + keyword_boost query) 1.

(** The two answer modes, and the mode a prompt belongs to. *)
Inductive mode := ContentMode | FallbackMode.

Definition prompt_mode (p : prompt) : option mode :=
  match p with
  | DatabasePrompt _ _ _ _ => Some ContentMode
  | CreativePrompt _ _ _ => Some FallbackMode
  | SimpleCreativePrompt _ _ _ _ => None
  | SynthesisPrompt _ _ _ _ => None
  end.


(** How the gate reads a reply: an error reply speaks of trouble
    accessing; a fallback-mode reply is a valid one that admits the topic
    is not in the episodes; a content-mode reply is any other valid one. *)
Definition is_error_reply (r : indiv) : bool :=
  Str.contains "trouble accessing" (Str.lower (ir_response r)).







(** A text generator that always answers with the same words. *)
Definition talking_env (words : string) (found : list (Z * Q)) : Env :=
  {| BASE_DATA_DIR := "data";
     re_sub := fun _ _ text => text;
     http_get := fun _ _ _ => HttpFailure;
     stt_upload := fun _ _ => None;
     stt_submit := fun _ _ => None;
     stt_poll := fun _ _ => PollFailure;
     faiss_search := fun _ _ top_k => firstn top_k found;
     chat := fun _ _ _ _ => Some words;
     render_pdf := fun _ => None |}.

(** A podcast with one indexed transcript. *)
Definition one_passage_world : world :=
  set_index "data/Pod/embeddings.faiss" "data/Pod/embeddings_meta.json"
    ["first transcript"] [{| meta_guid := "e1"; meta_title := "Pilot" |}] empty_world.



Definition uncovered_words : string :=
  "While this hasn't come up in our recent episodes, here is my view.".

(** An audio server that answers the first GET with 200 and a complete
    body of [size] bytes, and is out of reach from then on. *)
Definition flaky_audio_env (size : nat) : Env :=
  {| BASE_DATA_DIR := "data";
     re_sub := fun _ _ text => text;
     http_get := fun requests _ _ =>
       match requests with
       | [] => HttpReply 200 (bytes size) true
       | _ :: _ => HttpFailure
       end;
     stt_upload := fun _ _ => None;
     stt_submit := fun _ _ => None;
     stt_poll := fun _ _ => PollFailure;
     faiss_search := fun _ _ _ => [];
     chat := fun _ _ _ _ => None;
     render_pdf := fun _ => None |}.




(* ================================================================== *)
(** * Worlds and collaborators of further examples                    *)
(* ================================================================== *)

(** A feed reader that knows one feed, with two episodes. *)
Definition one_feed (feed : string) (latest_n : nat) : exn + feed_info :=
  if bool_decide (feed = "https://pod.example/rss") then
    inr {| podcast_title := "Pod";
           feed_episodes :=
             firstn latest_n
               [{| fe_guid := "e1"; fe_title := "Pilot";
                   fe_audio_url := "https://x/a.mp3"; fe_publish_date := "" |};
                {| fe_guid := "e2"; fe_title := "Second";
                   fe_audio_url := "https://x/b.mp3"; fe_publish_date := "" |}] |}
  else inl RequestException.

(** An audio server that honours a range request with 206 and the 600
    bytes that were missing, and answers a plain request with 200 and
    2000 bytes. *)
Definition resuming_env : Env :=
  {| BASE_DATA_DIR := "data";
     re_sub := fun _ _ text => text;
     http_get := fun _ _ range =>
       match range with
       | Some _ => HttpReply 206 (bytes 600) true
       | None => HttpReply 200 (bytes 2000) true
       end;
     stt_upload := fun _ _ => None;
     stt_submit := fun _ _ => None;
     stt_poll := fun _ _ => PollFailure;
     faiss_search := fun _ _ _ => [];
     chat := fun _ _ _ _ => None;
     render_pdf := fun _ => None |}.

(** The ledger of [feed_world], with 500 bytes of an earlier download of
    its episode left in the partial file. *)
Definition interrupted_world : world :=
  set_files
    (fun _ => {[ Paths.audio_part (Paths.episode_paths "data" "Pod" "e1" "Pilot") := bytes 500 ]})
    feed_world.

(** A speech-to-text service that takes every upload, starts the job
    [job1] for it and has the transcript ready at the third poll. *)
Definition stt_env : Env :=
  {| BASE_DATA_DIR := "data";
     re_sub := fun _ _ text => text;
     http_get := fun _ _ _ => HttpFailure;
     stt_upload := fun _ _ => Some "https://stt.example/upload/1";
     stt_submit := fun _ _ => Some "job1";
     stt_poll := fun requests _ =>
       if (length requests <? 2)%nat then PollJson "processing" ""
       else PollJson "completed" "hello world";
     faiss_search := fun _ _ _ => [];
     chat := fun _ _ _ _ => None;
     render_pdf := fun _ => None |}.

(** An episode whose transcription job was started and not awaited: the
    ledger records the job, and the audio file is no longer on disk. *)
Definition job_record : gmap string value :=
  {[ "title" := VStr "Pilot"; "audio_url" := VStr "https://x/a.mp3";
     "status" := VStr "downloaded"; "transcript_id" := VStr "job1" ]}.

Definition job_world : world := ledger_world "Pod" [("e1", job_record)].

(** The ledger of [feed_world], with a transcript of its episode on disk
    that the ledger does not know of. *)
Definition transcript_world : world :=
  set_files
    (fun _ => {[ Paths.raw (Paths.episode_paths "data" "Pod" "e1" "Pilot") := "hello world" ]})
    feed_world.

(** The ledger of [downloaded_world] with the audio file on disk. *)
Definition audio_world : world :=
  set_files
    (fun _ => {[ Paths.audio (Paths.episode_paths "data" "Pod" "e1" "Pilot") := bytes 2000 ]})
    downloaded_world.

(** Collaborators that all answer: the audio server sends 2000 bytes,
    the transcript is ready at the first poll and the PDF is rendered. *)
Definition full_env : Env :=
  {| BASE_DATA_DIR := "data";
     re_sub := fun _ _ text => text;
     http_get := fun _ _ _ => HttpReply 200 (bytes 2000) true;
     stt_upload := fun _ _ => Some "https://stt.example/upload/1";
     stt_submit := fun _ _ => Some "job1";
     stt_poll := fun _ _ => PollJson "completed" "hello world";
     faiss_search := fun _ _ _ => [];
     chat := fun _ _ _ _ => None;
     render_pdf := fun _ => Some "%PDF-1.4" |}.


(* ================================================================== *)
(** * Records of the ledger                                           *)
(* ================================================================== *)

(** The path of the cleaned transcript that a record names: what
    [epi.get("files", {}).get("clean", "")] reads in a record whose
    [files] field, if it is there, is a dictionary. *)
Definition recorded_clean (r : gmap string value) : string :=
  match r !! "files" with
  | Some (VDict d) => default "" (d !! "clean")
  | _ => ""
  end.

(** The [files] field of a record is a dictionary when it is there, as
    every stage writes it. *)
Definition files_is_dict (r : gmap string value) : Prop :=
  forall s, r !! "files" <> Some (VStr s).

(* ================================================================== *)
(** * Retrieval                                                       *)
(* ================================================================== *)

(** The hit that [search] builds from an entry of the metadata. *)
Definition hit_of (m : meta_t) (dist : Q) : hit :=
  {| hit_title := meta_title m; hit_guid := meta_guid m; hit_score := dist |}.


(** The context of the database prompt when no passage carries text. *)
Definition titles_only (episodes : list episode) : string :=
  fold_left (fun context_text ep => context_text +:+ "Episode: " +:+ ep_title ep +:+ NL)
    (firstn 3 episodes) "".

(** An index that answers every query with its first entry and marks
    the neighbours it cannot find with the label -1. *)
Definition padding_env : Env :=
  {| BASE_DATA_DIR := "data";
     re_sub := fun _ _ text => text;
     http_get := fun _ _ _ => HttpFailure;
     stt_upload := fun _ _ => None;
     stt_submit := fun _ _ => None;
     stt_poll := fun _ _ => PollFailure;
     faiss_search := fun _ _ top_k =>
       firstn top_k [(0%Z, (3 # 10)%Q); ((-1)%Z, (1000000 # 1)%Q); ((-1)%Z, (1000000 # 1)%Q)];
     chat := fun _ _ _ _ => None;
     render_pdf := fun _ => None |}.


(* ================================================================== *)
(** * Footprints                                                      *)
(* ================================================================== *)

(** Every run of [m] takes a world to one that is [R]-related to it,
    whether it returns or raises. *)
Definition respects {A} (R : world -> world -> Prop) (m : M A) : Prop :=
  forall w r w', m w = (r, w') -> R w w'.

(** The part [proj] of the world is as before. *)
Definition kept {B} (proj : world -> B) (w w' : world) : Prop := proj w' = proj w.

(** Everything but the files and the trace: the ledgers, the indexes and
    the personas. *)
Definition stores (w : world) :
    gmap string Manifest * gmap string (list string) * gmap string (list meta_t) *
    gmap string Persona :=
  (manifests w, faiss_files w, meta_files w, persona_files w).

(** Everything but the ledgers and the trace. *)
Definition artifacts (w : world) :
    gmap string string * gmap string (list string) * gmap string (list meta_t) *
    gmap string Persona :=
  (files w, faiss_files w, meta_files w, persona_files w).

(** The requests of [l] are all GETs of [url]. *)
Definition gets_only (url : string) (l : list event) : Prop :=
  Forall (fun e => exists range, e = EvHttpGet url range) l.

(** The trace grows by at most [n] requests, all of them GETs of [url]. *)
Definition fetched (url : string) (n : nat) (w w' : world) : Prop :=
  exists l, trace w' = trace w ++ l /\ (length l <= n)%nat /\ gets_only url l.

(** The trace grows by at most [n] requests, all of them polls of the
    transcription job [tid]. *)
Definition polled (tid : string) (n : nat) (w w' : world) : Prop :=
  exists l, trace w' = trace w ++ l /\ (length l <= n)%nat /\
            Forall (fun e => e = EvSttPoll tid) l.

(** Once [part] is gone it stays gone. *)
Definition gone (part : string) (w w' : world) : Prop :=
  files w !! part = None -> files w' !! part = None.

(* ================================================================== *)
(** * Running the monad                                               *)
(* ================================================================== *)

Lemma run_bind {A B} (m : M A) (f : A -> M B) w :
  (m ≫= f) w = match m w with
               | (inr x, w') => f x w'
               | (inl e, w') => (inl e, w')
               end.
Proof. reflexivity. Qed.

Lemma run_ret {A} (x : A) w : (mret x : M A) w = (inr x, w).
Proof. reflexivity. Qed.

Lemma run_bind_ok {A B} (m : M A) (f : A -> M B) w x w' :
  m w = (inr x, w') -> (m ≫= f) w = f x w'.
Proof. intros H. by rewrite run_bind, H. Qed.

Lemma run_bind_inv {A B} (m : M A) (f : A -> M B) w y w2 :
  (m ≫= f) w = (inr y, w2) ->
  exists x w1, m w = (inr x, w1) /\ f x w1 = (inr y, w2).
Proof.
  rewrite run_bind. destruct (m w) as [[e|x] w1]; [discriminate|]. eauto.
Qed.

Lemma run_try_inv {A} (body : M A) (h : exn -> M A) w y w2 :
  try_except body h w = (inr y, w2) ->
  body w = (inr y, w2) \/ exists e w1, body w = (inl e, w1) /\ h e w1 = (inr y, w2).
Proof.
  unfold try_except. destruct (body w) as [[e|x] w1]; [right; eauto|left; done].
Qed.

Ltac run_m := cbv [mbind M_bind mret M_ret get_world modify raise try_except].

(* ================================================================== *)
(** * The ledger                                                      *)
(* ================================================================== *)

Section LedgerFacts.
Context (env : Env).

Lemma load_manifest_run podcast w :
  load_manifest env podcast w = (inr (the_manifest env w podcast), w).
Proof.
  cbv [load_manifest the_manifest]. run_m.
  by destruct (manifests w !! _).
Qed.

Lemma episode_done_at_least_run podcast guid stage w :
  episode_done_at_least env podcast guid stage w =
  (inr (reached env w podcast guid stage), w).
Proof.
  unfold episode_done_at_least, reached.
  rewrite run_bind, load_manifest_run.
  destruct (episodes _ !! guid) as [epi|]; [|done].
  destruct (decide (epi = ∅)); [done|].
  unfold py_index, rank_of. run_m.
  destruct (list_find _ order) as [[i ?]|]; [|done].
  destruct (list_find _ order) as [[j ?]|]; done.
Qed.

Lemma update_episode_state_run podcast guid kwargs w :
  update_episode_state env podcast guid kwargs w =
  (inr tt, updated env w podcast guid kwargs).
Proof.
  unfold update_episode_state. by rewrite run_bind, load_manifest_run.
Qed.

Lemma persisted_record_manifest podcast guid w :
  persisted_record env w podcast guid = episodes (the_manifest env w podcast) !! guid.
Proof.
  unfold persisted_record, the_manifest.
  destruct (manifests w !! _); [done|]. cbn. by rewrite lookup_empty.
Qed.

Lemma the_manifest_updated podcast guid kwargs w :
  the_manifest env (updated env w podcast guid kwargs) podcast =
  {| podcast_name := podcast_name (the_manifest env w podcast);
     episodes := <[guid := kwargs ∪ default ∅ (episodes (the_manifest env w podcast) !! guid)]>
                   (episodes (the_manifest env w podcast)) |}.
Proof.
  unfold the_manifest at 1. unfold updated, set_manifests. cbn [manifests].
  by rewrite lookup_insert_eq.
Qed.

Lemma find_stage (t : stage) :
  list_find (fun s => VStr s = VStr (stage_name t)) order = Some (stage_rank t, stage_name t).
Proof. destruct t; reflexivity. Qed.

Lemma find_other (x : value) :
  (forall t, x <> VStr (stage_name t)) ->
  list_find (fun s => VStr s = x) order = None.
Proof.
  intros H. apply list_find_None. unfold order.
  repeat constructor; intros E.
  - by apply (H Downloaded).
  - by apply (H Transcribed).
  - by apply (H Cleaned).
  - by apply (H Embedded).
  - by apply (H Pdf).
Qed.

Lemma value_stage_dec (x : value) :
  {t | x = VStr (stage_name t)} + {forall t, x <> VStr (stage_name t)}.
Proof.
  destruct x as [s|d]; [|right; intros t; discriminate].
  destruct (decide (s = "downloaded")) as [->|]; [left; by exists Downloaded|].
  destruct (decide (s = "transcribed")) as [->|]; [left; by exists Transcribed|].
  destruct (decide (s = "cleaned")) as [->|]; [left; by exists Cleaned|].
  destruct (decide (s = "embedded")) as [->|]; [left; by exists Embedded|].
  destruct (decide (s = "pdf")) as [->|]; [left; by exists Pdf|].
  right. intros [] [=]; congruence.
Qed.

Lemma stage_name_inj s t : stage_name s = stage_name t -> s = t.
Proof. destruct s, t; simpl; intros [=]; reflexivity. Qed.

Lemma rank_of_stage t : rank_of (VStr (stage_name t)) = Some (stage_rank t).
Proof. unfold rank_of. by rewrite find_stage. Qed.

Lemma rank_of_other x : (forall t, x <> VStr (stage_name t)) -> rank_of x = None.
Proof. intros H. unfold rank_of. by rewrite find_other. Qed.

(** Once a stage has written its status, the gate of every stage up to it
    is closed. *)
Lemma reached_updated podcast guid kwargs w (t s : stage) :
  kwargs !! "status" = Some (VStr (stage_name t)) ->
  reached env (updated env w podcast guid kwargs) podcast guid (stage_name s) =
  bool_decide (stage_rank s <= stage_rank t)%nat.
Proof.
  intros Hk. unfold reached. rewrite the_manifest_updated. cbn [episodes].
  rewrite lookup_insert_eq.
  assert (Hl : (kwargs ∪ default ∅ (episodes (the_manifest env w podcast) !! guid))
                 !! "status" = Some (VStr (stage_name t))).
  { apply lookup_union_Some_l, Hk. }
  destruct (decide _) as [E|_].
  { rewrite E, lookup_empty in Hl. discriminate. }
  rewrite Hl. cbn [default from_option id]. by rewrite !rank_of_stage.
Qed.

(** C1.  For every podcast, guid and stage [s], [episode_done_at_least]
    returns without raising and leaves the world as it is; it answers
    [true] exactly when the persisted status of the episode is the name of
    a stage [t] at least [s] in the order downloaded < transcribed <
    cleaned < embedded < pdf, hence [false] when the record is missing or
    its status is not in that list.  It does not raise on a stage name
    outside the list either. *)
Theorem stage_reached_iff w podcast guid (s : stage) :
  (exists b, episode_done_at_least env podcast guid (stage_name s) w = (inr b, w) /\
    (b = true <->
     exists t, persisted_status env w podcast guid = Some (VStr (stage_name t))
               /\ (stage_rank s <= stage_rank t)%nat)) /\
  (forall name, exists b, episode_done_at_least env podcast guid name w = (inr b, w)).
Proof.
  split; [|intros name; rewrite episode_done_at_least_run; eauto].
  rewrite episode_done_at_least_run. eexists; split; [reflexivity|].
  unfold persisted_status. rewrite persisted_record_manifest. unfold reached.
  destruct (episodes _ !! guid) as [epi|]; cbn [mbind option_bind].
  2:{ split; [done|]. intros (t & [=] & _). }
  destruct (decide (epi = ∅)) as [->|Hne].
  { split; [done|]. rewrite lookup_empty. intros (t & [=] & _). }
  destruct (epi !! "status") as [x|]; cbn [default from_option id].
  - destruct (value_stage_dec x) as [[t ->]|Hn].
    + rewrite !rank_of_stage, bool_decide_eq_true. split.
      * intros; exists t; auto.
      * intros (t' & [= E] & Hle). apply stage_name_inj in E. by subst.
    + rewrite (rank_of_other x Hn). split; [done|].
      intros (t' & [= E] & Hle). exfalso. by apply (Hn t').
  - split; [vm_compute; done|]. intros (t' & [=] & _).
Qed.

End LedgerFacts.

(* ================================================================== *)
(** * Files                                                           *)
(* ================================================================== *)

Lemma length_app (a b : string) :
  String.length (a +:+ b) = (String.length a + String.length b)%nat.
Proof.
  induction a as [|c a IH]; [done|].
  change (String c a +:+ b) with (String c (a +:+ b)).
  cbn [String.length]. by rewrite IH.
Qed.

Lemma join_not_dir (base stem suffix : string) :
  (2 <= String.length suffix)%nat ->
  is_dir (Paths.join base (stem +:+ suffix)) = false.
Proof.
  intros Hs. unfold Paths.join, is_dir.
  assert (Hl : (2 <= String.length (stem +:+ suffix))%nat) by (rewrite length_app; lia).
  destruct (decide _) as [[E|E]|_].
  - rewrite E in Hl. cbn in Hl. lia.
  - rewrite E in Hl. cbn in Hl. lia.
  - apply bool_decide_eq_false. intros E.
    apply (f_equal String.length) in E. rewrite !length_app in E. cbn in E. lia.
Qed.

Lemma exists_run p w : exists_ p w = (inr (path_exists w p), w).
Proof. reflexivity. Qed.

Lemma read_text_run p w s :
  is_dir p = false -> files w !! p = Some s -> read_text p w = (inr s, w).
Proof. intros Hd Hf. unfold read_text. run_m. by rewrite Hd, Hf. Qed.

Lemma write_text_run p s w :
  is_dir p = false -> write_text p s w = (inr tt, set_files (insert p s) w).
Proof. intros Hd. unfold write_text. by rewrite Hd. Qed.

Section StageFacts.
Context (env : Env).

Local Abbreviation episode_paths := (Paths.episode_paths (BASE_DATA_DIR env)).

Lemma raw_not_dir podcast guid title :
  is_dir (Paths.raw (episode_paths podcast guid title)) = false.
Proof. cbn [Paths.raw Paths.episode_paths]. apply join_not_dir; cbn; lia. Qed.

Lemma clean_not_dir podcast guid title :
  is_dir (Paths.clean (episode_paths podcast guid title)) = false.
Proof. cbn [Paths.clean Paths.episode_paths]. apply join_not_dir; cbn; lia. Qed.

Lemma audio_not_dir podcast guid title :
  is_dir (Paths.audio (episode_paths podcast guid title)) = false.
Proof. cbn [Paths.audio Paths.episode_paths]. apply join_not_dir; cbn; lia. Qed.

Lemma part_not_dir podcast guid title :
  is_dir (Paths.audio_part (episode_paths podcast guid title)) = false.
Proof. cbn [Paths.audio_part Paths.episode_paths]. apply join_not_dir; cbn; lia. Qed.

Lemma clean_transcript_run podcast guid title w :
  let paths := episode_paths podcast guid title in
  clean_transcript env podcast guid title w =
  if reached env w podcast guid "cleaned" then (inr (Paths.clean paths), w)
  else (inr (Paths.clean paths),
        updated env
          (set_files (insert (Paths.clean paths) (cleaned_text env w (Paths.raw paths))) w)
          podcast guid (cleaned_kwargs (Paths.clean paths))).
Proof.
  intros paths. unfold clean_transcript.
  rewrite run_bind, episode_done_at_least_run.
  destruct (reached env w podcast guid "cleaned"); [done|].
  rewrite run_bind, exists_run. unfold path_exists.
  rewrite raw_not_dir. cbn [orb].
  fold paths. unfold cleaned_text.
  destruct (files w !! Paths.raw paths) as [s|] eqn:Hraw.
  - rewrite bool_decide_eq_true_2 by eauto.
    rewrite run_bind, (read_text_run _ _ s); [|apply raw_not_dir|exact Hraw].
    rewrite run_bind, write_text_run by apply clean_not_dir.
    by rewrite run_bind, update_episode_state_run.
  - rewrite bool_decide_eq_false_2 by (intros [? ?]; discriminate).
    rewrite run_bind, run_ret.
    rewrite run_bind, write_text_run by apply clean_not_dir.
    by rewrite run_bind, update_episode_state_run.
Qed.

(** C10.  [update_episode_state] returns; the records of the other guids
    are as before; in the record of [guid] every field that [kwargs] does
    not name is as before and every field it names holds the new value
    whole.  So the [files] entry is replaced, not merged: after
    [clean_transcript] has run its stage, [files] is exactly
    [{"clean": path}] and the audio path recorded before is gone. *)
Theorem update_episode_state_frame w podcast guid kwargs :
  let w' := snd (update_episode_state env podcast guid kwargs w) in
  fst (update_episode_state env podcast guid kwargs w) = inr tt /\
  (forall g, g <> guid ->
     persisted_record env w' podcast g = persisted_record env w podcast g) /\
  (exists r', persisted_record env w' podcast guid = Some r' /\
     (forall k, kwargs !! k = None ->
        r' !! k = default ∅ (persisted_record env w podcast guid) !! k) /\
     (forall k v, kwargs !! k = Some v -> r' !! k = Some v)) /\
  (forall title,
     reached env w podcast guid "cleaned" = false ->
     let w1 := snd (clean_transcript env podcast guid title w) in
     exists r1, persisted_record env w1 podcast guid = Some r1 /\
       r1 !! "files" =
         Some (VDict {[ "clean" := Paths.clean (episode_paths podcast guid title) ]}) /\
       forall d, r1 !! "files" = Some (VDict d) -> d !! "audio" = None).
Proof.
  rewrite update_episode_state_run. cbn [fst snd].
  split; [done|]. split; [|split].
  - intros g Hg. rewrite !persisted_record_manifest, the_manifest_updated.
    cbn [episodes]. by rewrite lookup_insert_ne.
  - eexists. split.
    { rewrite persisted_record_manifest, the_manifest_updated. cbn [episodes].
      apply lookup_insert_eq. }
    rewrite persisted_record_manifest. split.
    + intros k Hk. rewrite lookup_union_r; done.
    + intros k v Hk. by apply lookup_union_Some_l.
  - intros title Hr. rewrite clean_transcript_run, Hr. cbn [snd].
    eexists. split.
    { rewrite persisted_record_manifest, the_manifest_updated. cbn [episodes].
      apply lookup_insert_eq. }
    assert (Hf : forall r : gmap string value,
      (cleaned_kwargs (Paths.clean (episode_paths podcast guid title)) ∪ r) !! "files" =
      Some (VDict {[ "clean" := Paths.clean (episode_paths podcast guid title) ]})).
    { intros r. apply lookup_union_Some_l. unfold cleaned_kwargs.
      rewrite lookup_insert_ne by done. apply lookup_insert_eq. }
    split; [apply Hf|].
    intros d Hd. rewrite Hf in Hd. injection Hd as <-.
    by rewrite lookup_singleton_ne.
Qed.

End StageFacts.

(** The frame property at work on a downloaded episode: the clean stage
    returns, and the audio path that the download stage recorded is no
    longer in the ledger. *)
Lemma update_episode_state_frame_witness :
  reached quiet_env downloaded_world "Pod" "e1" "cleaned"
    = false /\
  (persisted_record quiet_env downloaded_world "Pod" "e1"
     ≫= (.!! "files")) = Some (VDict {[ "audio" := "data/Pod/episodes/e1.mp3" ]}) /\
  exists r1,
    persisted_record quiet_env
      (snd (clean_transcript quiet_env "Pod" "e1" "Pilot"
              downloaded_world)) "Pod" "e1" = Some r1 /\
    r1 !! "files" = Some (VDict {[ "clean" := "data/Pod/episodes/e1_clean.txt" ]}) /\
    forall d, r1 !! "files" = Some (VDict d) -> d !! "audio" = None.
Proof.
  split; [vm_compute; reflexivity|]. split; [vm_compute; reflexivity|].
  destruct (update_episode_state_frame quiet_env
              downloaded_world "Pod" "e1" ∅)
    as (_ & _ & _ & H).
  apply (H "Pilot"). vm_compute; reflexivity.
Defined.

(* ================================================================== *)
(** * The status order under the podcast-wide stages                  *)
(* ================================================================== *)


(* ================================================================== *)
(** * Retrieval                                                       *)
(* ================================================================== *)

Lemma Qltb_lt (x y : Q) : Qltb x y = true <-> (x < y)%Q.
Proof.
  unfold Qltb. rewrite negb_true_iff. split.
  - intros H. apply Qnot_le_lt. intros Hle. apply Qle_bool_iff in Hle. congruence.
  - intros H. destruct (Qle_bool y x) eqn:E; [|done].
    apply Qle_bool_iff in E. exfalso. by apply (Qlt_not_le x y).
Qed.

Lemma Qltb_ge (x y : Q) : Qltb x y = false <-> (y <= x)%Q.
Proof.
  unfold Qltb. rewrite negb_false_iff. apply Qle_bool_iff.
Qed.

(** The passage that [sort_desc] puts first has the largest score. *)
Lemma sort_desc_head (l : list episode) :
  match sort_desc l with
  | [] => l = []
  | h :: _ => forall y, In y l -> (ep_score y <= ep_score h)%Q
  end.
Proof.
  induction l as [|a l IH]; [done|].
  cbn [sort_desc fold_right]. fold (sort_desc l).
  destruct (sort_desc l) as [|h r].
  - subst l. cbn. intros y [<-|[]]. apply Qle_refl.
  - cbn [insert_desc]. destruct (Qltb (ep_score a) (ep_score h)) eqn:E.
    + intros y [<-|Hy]; [|by apply IH].
      apply Qlt_le_weak. by apply Qltb_lt.
    + apply Qltb_ge in E. intros y [<-|Hy]; [apply Qle_refl|].
      eapply Qle_trans; [by apply IH|done].
Qed.

(** C8.  [search] hands over raw distances, the nearest first: here
    [Near] at 0.2 before [Far] at 1.5.  [get_relevant_episodes] sorts them
    by score, the higher first, and converts nothing: its first passage is
    [Far], the match at the largest distance; asked for one passage of
    each of two podcasts it keeps the farther and drops the nearer. *)
Theorem get_relevant_episodes_farthest_first :
  fst (search two_hit_env "Pod" "menu design" 5 indexed_world) =
    inr [{| hit_title := "Near"; hit_guid := "e1"; hit_score := 2 # 10 |};
         {| hit_title := "Far"; hit_guid := "e2"; hit_score := 15 # 10 |}] /\
  fst (get_relevant_episodes two_hit_env ["Pod"] "menu design" 5 indexed_world) =
    inr [{| ep_podcast := "Pod"; ep_title := "Far"; ep_guid := "e2"; ep_text := "";
            ep_score := 15 # 10 |};
         {| ep_podcast := "Pod"; ep_title := "Near"; ep_guid := "e1"; ep_text := "";
            ep_score := 2 # 10 |}] /\
  fst (get_relevant_episodes two_hit_env ["Pod"; "Talk"] "menu design" 1 indexed_world) =
    inr [{| ep_podcast := "Talk"; ep_title := "Other"; ep_guid := "t1"; ep_text := "";
            ep_score := 9 # 10 |}].
Proof. vm_compute. repeat split; reflexivity. Qed.

(** Whatever the index answers, the first passage that
    [get_relevant_episodes] returns carries the largest score, that is
    the largest distance, of all the pooled hits. *)
Lemma get_relevant_episodes_head_largest env podcasts query limit w h r w' :
  get_relevant_episodes env podcasts query limit w = (inr (h :: r), w') ->
  exists pooled,
    gather_episodes env podcasts query limit [] w = (inr pooled, w') /\
    forall y, In y pooled -> (ep_score y <= ep_score h)%Q.
Proof.
  unfold get_relevant_episodes. intros H.
  apply run_bind_inv in H as (pooled & w1 & Hg & H).
  rewrite run_ret in H. injection H as H <-.
  exists pooled. split; [done|].
  pose proof (sort_desc_head pooled) as Hs.
  destruct (sort_desc pooled) as [|h' r'].
  { by destruct limit. }
  destruct limit as [|limit]; [done|].
  cbn [firstn] in H. injection H as <- _. exact Hs.
Qed.

(* ================================================================== *)
(** * Marking every episode                                           *)
(* ================================================================== *)

Section MarkFacts.
Context (env : Env).

Lemma persisted_status_updated w podcast guid (v : value) g :
  persisted_status env (updated env w podcast guid {[ "status" := v ]}) podcast g =
  if decide (g = guid) then Some v else persisted_status env w podcast g.
Proof.
  unfold persisted_status. rewrite !persisted_record_manifest, the_manifest_updated.
  cbn [episodes]. destruct (decide (g = guid)) as [->|Hne].
  - rewrite lookup_insert_eq. cbn [mbind option_bind].
    apply lookup_union_Some_l, lookup_singleton_eq.
  - by rewrite lookup_insert_ne.
Qed.

(** The loop that writes one status into the records of [guids]. *)
Lemma for_each_mark podcast (v : value) (guids : list string) w :
  exists w',
    for_each guids
      (fun guid => update_episode_state env podcast guid {[ "status" := v ]}) w
    = (inr tt, w') /\
    forall g, persisted_status env w' podcast g =
              if decide (g ∈ guids) then Some v else persisted_status env w podcast g.
Proof.
  revert w. induction guids as [|g0 guids IH]; intros w.
  - exists w. split; [done|]. intros g. by rewrite decide_False by apply not_elem_of_nil.
  - cbn [for_each]. rewrite run_bind, update_episode_state_run.
    destruct (IH (updated env w podcast g0 {[ "status" := v ]})) as (w' & Hrun & Hst).
    exists w'. split; [exact Hrun|]. intros g. rewrite Hst, persisted_status_updated.
    destruct (decide (g ∈ guids)) as [Hin|Hnin].
    + rewrite decide_True by (by right). done.
    + destruct (decide (g = g0)) as [->|Hne].
      * rewrite decide_True by (by left). done.
      * rewrite decide_False; [done|]. intros [?|?]%elem_of_cons; done.
Qed.

Lemma guid_listed (m : gmap string (gmap string value)) (g : string) :
  g ∈ map fst (map_to_list m) <-> is_Some (m !! g).
Proof.
  rewrite list_elem_of_In, in_map_iff. split.
  - intros ([g' r] & <- & Hin). apply list_elem_of_In, elem_of_map_to_list in Hin. eauto.
  - intros [r Hr]. exists (g, r). split; [done|].
    by apply list_elem_of_In, elem_of_map_to_list.
Qed.

(** Publishing moves no status backwards: after the marking at the end of
    [process_podcast] every episode of the ledger is at pdf, the top of
    the order, and no other record appears. *)
Lemma mark_pdf_marks podcast w :
  exists w',
    mark_pdf env podcast w = (inr tt, w') /\
    forall g, persisted_status env w' podcast g =
              if decide (is_Some (persisted_record env w podcast g))
              then Some (VStr "pdf") else None.
Proof.
  unfold mark_pdf. rewrite run_bind, load_manifest_run.
  destruct (for_each_mark podcast (VStr "pdf")
              (map fst (map_to_list (episodes (the_manifest env w podcast)))) w)
    as (w' & Hrun & Hst).
  exists w'. split; [exact Hrun|]. intros g. rewrite Hst.
  rewrite persisted_record_manifest.
  destruct (decide (is_Some _)) as [Hs|Hn].
  - rewrite decide_True; [done|]. by apply guid_listed.
  - rewrite decide_False by (by rewrite guid_listed).
    unfold persisted_status. rewrite persisted_record_manifest.
    destruct (episodes _ !! g) eqn:E; [|done]. exfalso. apply Hn. eauto.
Qed.

End MarkFacts.

(* ================================================================== *)
(** * Invalid and missing input                                       *)
(* ================================================================== *)

Lemma st_size_run p w s :
  is_dir p = false -> files w !! p = Some s -> st_size p w = (inr (String.length s), w).
Proof.
  intros Hd Hf. unfold st_size. by rewrite run_bind, (read_text_run p w s).
Qed.

Lemma path_exists_file w p :
  is_dir p = false -> path_exists w p = bool_decide (is_Some (files w !! p)).
Proof. intros Hd. unfold path_exists. by rewrite Hd. Qed.

Section FailFast.
Context (env : Env).

Local Abbreviation episode_paths := (Paths.episode_paths (BASE_DATA_DIR env)).

(** The first lines of [download_episode]: the gate. *)
Lemma download_gate_run podcast guid title w (k : bool -> M string) :
  ((if reached env w podcast guid "downloaded" then
      ex ← exists_ (Paths.audio (episode_paths podcast guid title));
      if ex : bool then
        sz ← st_size (Paths.audio (episode_paths podcast guid title));
        mret (MIN_FILE_SIZE <? sz)%nat
      else mret false
    else mret false) ≫= k) w
  = k (audio_intact env w podcast guid title) w.
Proof.
  unfold audio_intact.
  destruct (reached env w podcast guid "downloaded"); [|done].
  rewrite run_bind, run_bind, exists_run, path_exists_file by apply audio_not_dir.
  destruct (files w !! _) as [s|] eqn:Hf.
  - rewrite bool_decide_eq_true_2 by eauto.
    by rewrite run_bind, (st_size_run _ _ s) by (done || apply audio_not_dir).
  - by rewrite bool_decide_eq_false_2 by (intros [? ?]; discriminate).
Qed.

Lemma download_episode_gate podcast guid title audio_url w :
  download_episode env podcast guid title audio_url w =
  if audio_intact env w podcast guid title
  then (inr (Paths.audio (episode_paths podcast guid title)), w)
  else if negb (valid_url audio_url) then (inl ValueError, w)
  else download_episode env podcast guid title audio_url w.
Proof.
  destruct (audio_intact env w podcast guid title) eqn:Hi.
  - unfold download_episode. rewrite run_bind, episode_done_at_least_run.
    by rewrite download_gate_run, Hi.
  - destruct (valid_url audio_url) eqn:Hv; [done|].
    unfold download_episode. rewrite run_bind, episode_done_at_least_run.
    by rewrite download_gate_run, Hi, Hv.
Qed.

(** The lines of [transcribe_episode] that look for a transcript on disk. *)
Lemma raw_gate_run podcast guid title w (k : bool -> M string) :
  (ex ← exists_ (Paths.raw (episode_paths podcast guid title));
   written ← (if ex : bool then
                sz ← st_size (Paths.raw (episode_paths podcast guid title));
                mret (0 <? sz)%nat
              else mret false);
   k written) w
  = k (raw_written env w podcast guid title) w.
Proof.
  unfold raw_written.
  rewrite run_bind, exists_run, path_exists_file by apply raw_not_dir.
  destruct (files w !! _) as [s|] eqn:Hf.
  - rewrite bool_decide_eq_true_2 by eauto.
    by rewrite run_bind, run_bind, (st_size_run _ _ s) by (done || apply raw_not_dir).
  - by rewrite bool_decide_eq_false_2 by (intros [? ?]; discriminate).
Qed.

(** C9, as the code has it.  [download_episode] raises [ValueError] for
    a URL that is empty or not HTTP(S), before any request and with the
    world untouched, unless the gate finds the episode downloaded and
    intact.  [transcribe_episode] raises [FileNotFoundError] with the
    world untouched when the audio file is missing, the episode is not
    yet transcribed, no transcript is on disk and no job is recorded.
    [clean_transcript] does not fail on a missing raw transcript: it
    takes the text to be empty, writes the cleaned artifact and records
    the status cleaned. *)
Theorem fail_fast_on_invalid_input w podcast guid title audio_url :
  (valid_url audio_url = false ->
   audio_intact env w podcast guid title = false ->
   download_episode env podcast guid title audio_url w = (inl ValueError, w)) /\
  (path_exists w (Paths.audio (episode_paths podcast guid title)) = false ->
   reached env w podcast guid "transcribed" = false ->
   raw_written env w podcast guid title = false ->
   truthy (recorded_job env w podcast guid) = false ->
   transcribe_episode env podcast guid title w = (inl FileNotFoundError, w)) /\
  (path_exists w (Paths.raw (episode_paths podcast guid title)) = false ->
   reached env w podcast guid "cleaned" = false ->
   exists w',
     clean_transcript env podcast guid title w =
       (inr (Paths.clean (episode_paths podcast guid title)), w') /\
     files w' !! Paths.clean (episode_paths podcast guid title) =
       Some (Str.strip_ws (re_sub env MULTIWS " "
               (fold_left (fun txt pat => re_sub env pat " " txt)
                  (AD_PATTERNS ++ HEAD_TAIL) ""))) /\
     persisted_status env w' podcast guid = Some (VStr "cleaned")).
Proof.
  split; [|split].
  - intros Hv Hi. by rewrite download_episode_gate, Hi, Hv.
  - intros Ha Hr Hraw Hj. unfold transcribe_episode.
    rewrite run_bind, episode_done_at_least_run, Hr.
    rewrite raw_gate_run, Hraw.
    rewrite run_bind, load_manifest_run.
    unfold recorded_job in Hj. rewrite Hj. cbn [negb].
    by rewrite run_bind, run_bind, exists_run, Ha.
  - intros He Hr. rewrite clean_transcript_run, Hr. eexists. split; [done|].
    rewrite path_exists_file in He by apply raw_not_dir.
    apply bool_decide_eq_false in He.
    assert (Hn : files w !! Paths.raw (episode_paths podcast guid title) = None).
    { destruct (files w !! _) eqn:E; [|done]. exfalso. apply He. eauto. }
    split.
    + unfold updated, set_manifests, set_files. cbn [files].
      rewrite lookup_insert_eq. unfold cleaned_text. by rewrite Hn.
    + unfold persisted_status. rewrite persisted_record_manifest, the_manifest_updated.
      cbn [episodes]. rewrite lookup_insert_eq. cbn [mbind option_bind].
      apply lookup_union_Some_l. unfold cleaned_kwargs. apply lookup_insert_eq.
Qed.

End FailFast.

(** C9 as stated fails for the clean stage.  The episode [e1] is
    downloaded and has no raw transcript on disk; [clean_transcript]
    returns the path of the cleaned artifact, has written it with no
    content, and the ledger says cleaned. *)
Lemma clean_transcript_missing_raw_returns :
  path_exists downloaded_world "data/Pod/episodes/e1_raw.txt" = false /\
  fst (clean_transcript quiet_env "Pod" "e1" "Pilot" downloaded_world)
    = inr "data/Pod/episodes/e1_clean.txt" /\
  files (snd (clean_transcript quiet_env "Pod" "e1" "Pilot" downloaded_world))
    !! "data/Pod/episodes/e1_clean.txt" = Some "" /\
  persisted_status quiet_env downloaded_world "Pod" "e1" = Some (VStr "downloaded") /\
  persisted_status quiet_env
    (snd (clean_transcript quiet_env "Pod" "e1" "Pilot" downloaded_world)) "Pod" "e1"
    = Some (VStr "cleaned").
Proof. vm_compute. repeat split; reflexivity. Qed.

(** The three cases of the amended C9, each at a concrete episode: a
    feed entry with an FTP address, a downloaded entry whose audio file
    is gone, and the same entry without a raw transcript. *)
Lemma fail_fast_on_invalid_input_witness :
  download_episode quiet_env "Pod" "e1" "Pilot" "ftp://x/a.mp3" downloaded_world
    = (inl ValueError, downloaded_world) /\
  transcribe_episode quiet_env "Pod" "e1" "Pilot" downloaded_world
    = (inl FileNotFoundError, downloaded_world) /\
  exists w',
    clean_transcript quiet_env "Pod" "e1" "Pilot" downloaded_world =
      (inr (Paths.clean (Paths.episode_paths "data" "Pod" "e1" "Pilot")), w') /\
    files w' !! Paths.clean (Paths.episode_paths "data" "Pod" "e1" "Pilot") = Some "" /\
    persisted_status quiet_env w' "Pod" "e1" = Some (VStr "cleaned").
Proof.
  destruct (fail_fast_on_invalid_input quiet_env downloaded_world "Pod" "e1" "Pilot"
              "ftp://x/a.mp3")
    as (Hd & Ht & Hc).
  split; [|split].
  - apply Hd; vm_compute; reflexivity.
  - apply Ht; vm_compute; reflexivity.
  - apply Hc; vm_compute; reflexivity.
Defined.

(* ================================================================== *)
(** * Running a stage twice                                           *)
(* ================================================================== *)

Section Idempotence.
Context (env : Env).

Local Abbreviation episode_paths := (Paths.episode_paths (BASE_DATA_DIR env)).

(** The clean stage always returns, and a second run is a no-op. *)
Lemma clean_transcript_twice podcast guid title w :
  exists w1,
    clean_transcript env podcast guid title w =
      (inr (Paths.clean (episode_paths podcast guid title)), w1) /\
    clean_transcript env podcast guid title w1 =
      (inr (Paths.clean (episode_paths podcast guid title)), w1).
Proof.
  rewrite clean_transcript_run.
  destruct (reached env w podcast guid "cleaned") eqn:Hr.
  - exists w. split; [done|]. by rewrite clean_transcript_run, Hr.
  - eexists. split; [done|]. rewrite clean_transcript_run.
    by rewrite (reached_updated env _ _ _ _ Cleaned Cleaned).
Qed.

(** When the polling returns, the transcript is recorded. *)
Lemma poll_loop_returns left poll_count podcast guid title tid w r w1 :
  poll_loop env (raise RuntimeError) left poll_count podcast guid tid
    (Paths.raw (episode_paths podcast guid title)) w = (inr r, w1) ->
  r = Paths.raw (episode_paths podcast guid title) /\
  reached env w1 podcast guid "transcribed" = true.
Proof.
  revert poll_count w. induction left as [|left IH]; intros poll_count w; [discriminate|].
  cbn [poll_loop]. rewrite run_bind. unfold get_world at 1.
  rewrite run_bind. unfold modify at 1.
  destruct (stt_poll env (trace w) tid) as [|status text].
  - destruct (10 <? poll_count)%nat; [discriminate|]. apply IH.
  - destruct (bool_decide (status = "completed")).
    + destruct (bool_decide (text = "")); [discriminate|].
      rewrite run_bind, write_text_run by apply raw_not_dir.
      rewrite run_bind, update_episode_state_run. intros [= <- <-].
      split; [done|]. by rewrite (reached_updated env _ _ _ _ Transcribed Transcribed).
    + destruct (bool_decide (status = "error")); [discriminate|].
      destruct (360 <? S poll_count)%nat; [discriminate|]. apply IH.
Qed.

(** The polling needs no more rounds than it is given: with a count of
    at most 360 and more than 360 rounds and counts together, the answer
    does not depend on what would happen with no round left. *)
Lemma poll_loop_enough_rounds (stuck stuck' : M string) left poll_count
    podcast guid tid raw w :
  (poll_count <= 360)%nat -> (361 <= left + poll_count)%nat ->
  poll_loop env stuck left poll_count podcast guid tid raw w =
  poll_loop env stuck' left poll_count podcast guid tid raw w.
Proof.
  revert poll_count w. induction left as [|left IH]; intros poll_count w Hc Hl; [lia|].
  cbn [poll_loop]. rewrite !run_bind. unfold get_world at 1 2.
  rewrite !run_bind. unfold modify at 1 2.
  destruct (stt_poll env (trace w) tid) as [|status text].
  - destruct (10 <? poll_count)%nat eqn:E; [done|].
    apply Nat.ltb_ge in E. apply IH; lia.
  - destruct (bool_decide (status = "completed")); [done|].
    destruct (bool_decide (status = "error")); [done|].
    destruct (360 <? S poll_count)%nat eqn:E; [done|].
    apply Nat.ltb_ge in E. apply IH; lia.
Qed.

(** A transcription that returned is not run again. *)
Lemma transcribe_episode_twice podcast guid title w r w1 :
  transcribe_episode env podcast guid title w = (inr r, w1) ->
  r = Paths.raw (episode_paths podcast guid title) /\
  transcribe_episode env podcast guid title w1 = (inr r, w1).
Proof.
  intros H.
  assert (Hgoal : r = Paths.raw (episode_paths podcast guid title) /\
                  reached env w1 podcast guid "transcribed" = true).
  { revert H. unfold transcribe_episode.
    rewrite run_bind, episode_done_at_least_run.
    destruct (reached env w podcast guid "transcribed") eqn:Hr.
    { by intros [= <- <-]. }
    rewrite raw_gate_run.
    destruct (raw_written env w podcast guid title).
    { rewrite run_bind, update_episode_state_run. intros [= <- <-].
      split; [done|]. by rewrite (reached_updated env _ _ _ _ Transcribed Transcribed). }
    rewrite run_bind, load_manifest_run.
    intros H. apply run_bind_inv in H as (tid & w2 & _ & H).
    by apply poll_loop_returns in H. }
  destruct Hgoal as [-> Hr]. split; [done|].
  unfold transcribe_episode. by rewrite run_bind, episode_done_at_least_run, Hr.
Qed.

Lemma cleanup_failed_download_returns part audio w :
  exists w', cleanup_failed_download part audio w = (inr tt, w').
Proof.
  unfold cleanup_failed_download, try_except.
  match goal with
  | |- context [match ?m w with _ => _ end] => destruct (m w) as [[e|[]] w']
  end; eauto.
Qed.

(** A download that returned left the episode at downloaded with the
    audio file in place, and returned its path. *)
Lemma download_episode_returns podcast guid title audio_url w r w1 :
  download_episode env podcast guid title audio_url w = (inr r, w1) ->
  r = Paths.audio (episode_paths podcast guid title) /\
  reached env w1 podcast guid "downloaded" = true /\
  exists s, files w1 !! Paths.audio (episode_paths podcast guid title) = Some s /\
            (MIN_FILE_SIZE <= String.length s)%nat.
Proof.
  unfold download_episode. rewrite run_bind, episode_done_at_least_run.
  rewrite download_gate_run.
  destruct (audio_intact env w podcast guid title) eqn:Hi.
  { intros [= <- <-]. split; [done|]. unfold audio_intact in Hi.
    apply andb_true_iff in Hi as [Hr Hs]. split; [done|].
    destruct (files w !! _) as [s|]; [|done].
    exists s. split; [done|]. apply Nat.ltb_lt in Hs. lia. }
  destruct (valid_url audio_url); [|discriminate]. cbn [negb].
  intros H. apply run_try_inv in H as [H|(e & w2 & _ & H)].
  2:{ rewrite run_bind in H.
      destruct (cleanup_failed_download_returns
                  (Paths.audio_part (episode_paths podcast guid title))
                  (Paths.audio (episode_paths podcast guid title)) w2) as [w3 Hc].
      rewrite Hc in H. discriminate. }
  apply run_bind_inv in H as (ex & wa & _ & H).
  apply run_bind_inv in H as (rf & wb & _ & H).
  apply run_bind_inv in H as ([] & wc & _ & H).
  apply run_bind_inv in H as ([] & wd & _ & H).
  rewrite run_bind, exists_run, path_exists_file in H by apply audio_not_dir.
  destruct (files wd !! Paths.audio (episode_paths podcast guid title)) as [s|] eqn:Hf.
  2:{ rewrite bool_decide_eq_false_2 in H by (intros [? ?]; discriminate). discriminate. }
  rewrite bool_decide_eq_true_2 in H by eauto.
  rewrite run_bind, run_bind, (st_size_run _ _ s) in H by (done || apply audio_not_dir).
  rewrite run_ret in H.
  destruct (String.length s <? MIN_FILE_SIZE)%nat eqn:Hs; [discriminate|].
  rewrite run_bind, update_episode_state_run in H. injection H as <- <-.
  split; [done|]. split.
  - by rewrite (reached_updated env _ _ _ _ Downloaded Downloaded).
  - exists s. split; [done|]. apply Nat.ltb_ge in Hs. lia.
Qed.

(** A download that returned with an audio file of more than
    [MIN_FILE_SIZE] bytes is not run again. *)
Lemma download_episode_twice podcast guid title audio_url w r w1 :
  download_episode env podcast guid title audio_url w = (inr r, w1) ->
  file_size w1 (Paths.audio (episode_paths podcast guid title)) <> Some MIN_FILE_SIZE ->
  download_episode env podcast guid title audio_url w1 = (inr r, w1).
Proof.
  intros H Hne. apply download_episode_returns in H as (-> & Hr & s & Hf & Hs).
  rewrite download_episode_gate. unfold audio_intact. rewrite Hr, Hf. cbn [andb].
  unfold file_size in Hne. rewrite Hf in Hne. cbn in Hne.
  assert (Hlt : (MIN_FILE_SIZE <? String.length s)%nat = true).
  { apply Nat.ltb_lt. destruct (decide (String.length s = MIN_FILE_SIZE)) as [E|E].
    - exfalso. apply Hne. by rewrite E.
    - lia. }
  by rewrite Hlt.
Qed.

End Idempotence.

(** C2 fails for the download stage when the audio file has exactly
    [MIN_FILE_SIZE] bytes.  The first call fetches the 1024 bytes, accepts
    them (the check after the transfer rejects less than 1024) and
    records downloaded.  The second call finds the episode downloaded but
    the file not larger than 1024 bytes, takes it for corrupted, and
    fetches it again: a second GET goes out and the artifact is written
    anew, where C2 promises a no-op.  One byte more and the second call
    is the no-op.  With a server that is out of reach after the first
    transfer, the second call on the 1024-byte file does not return the
    path of the artifact: it raises after three attempts. *)
Theorem download_twice_at_min_size :
  fst (download_episode (audio_env 1024) "Pod" "e1" "Pilot" "https://x/a.mp3" feed_world)
    = inr "data/Pod/episodes/e1.mp3" /\
  file_size
    (snd (download_episode (audio_env 1024) "Pod" "e1" "Pilot" "https://x/a.mp3" feed_world))
    "data/Pod/episodes/e1.mp3" = Some 1024%nat /\
  persisted_status (audio_env 1024)
    (snd (download_episode (audio_env 1024) "Pod" "e1" "Pilot" "https://x/a.mp3" feed_world))
    "Pod" "e1" = Some (VStr "downloaded") /\
  trace
    (snd (download_episode (audio_env 1024) "Pod" "e1" "Pilot" "https://x/a.mp3" feed_world))
    = [EvHttpGet "https://x/a.mp3" None] /\
  audio_intact (audio_env 1024)
    (snd (download_episode (audio_env 1024) "Pod" "e1" "Pilot" "https://x/a.mp3" feed_world))
    "Pod" "e1" "Pilot" = false /\
  trace
    (snd (download_episode (audio_env 1024) "Pod" "e1" "Pilot" "https://x/a.mp3"
       (snd (download_episode (audio_env 1024) "Pod" "e1" "Pilot" "https://x/a.mp3"
               feed_world))))
    = [EvHttpGet "https://x/a.mp3" None; EvHttpGet "https://x/a.mp3" None] /\
  download_episode (audio_env 1025) "Pod" "e1" "Pilot" "https://x/a.mp3"
    (snd (download_episode (audio_env 1025) "Pod" "e1" "Pilot" "https://x/a.mp3" feed_world))
    = (inr "data/Pod/episodes/e1.mp3",
       snd (download_episode (audio_env 1025) "Pod" "e1" "Pilot" "https://x/a.mp3"
              feed_world)) /\
  fst (download_episode (flaky_audio_env 1024) "Pod" "e1" "Pilot" "https://x/a.mp3"
         feed_world) = inr "data/Pod/episodes/e1.mp3" /\
  fst (download_episode (flaky_audio_env 1024) "Pod" "e1" "Pilot" "https://x/a.mp3"
         (snd (download_episode (flaky_audio_env 1024) "Pod" "e1" "Pilot" "https://x/a.mp3"
                 feed_world))) = inl RuntimeError.
Proof. vm_compute. repeat split; reflexivity. Qed.

(* ================================================================== *)
(** * The confidence score                                            *)
(* ================================================================== *)

Lemma py_min_Qmin (a b : Q) : (py_min a b == Qmin a b)%Q.
Proof.
  unfold py_min. destruct (Qltb b a) eqn:E.
  - apply Qltb_lt in E. symmetry. apply Q.min_r. by apply Qlt_le_weak.
  - apply Qltb_ge in E. symmetry. by apply Q.min_l.
Qed.

Lemma py_max_highest (s : Q) (ss : list Q) : is_highest (py_max s ss) (s :: ss).
Proof.
  revert s. induction ss as [|y ss IH]; intros s.
  - split; [by left|]. intros x [<-|[]]. apply Qle_refl.
  - unfold py_max. cbn [fold_left]. fold (py_max (if Qltb s y then y else s) ss).
    destruct (IH (if Qltb s y then y else s)) as [Hin Hmax].
    assert (Hs : (s <= (if Qltb s y then y else s))%Q).
    { destruct (Qltb s y) eqn:E; [|apply Qle_refl].
      apply Qlt_le_weak. by apply Qltb_lt. }
    assert (Hy : (y <= (if Qltb s y then y else s))%Q).
    { destruct (Qltb s y) eqn:E; [apply Qle_refl|]. by apply Qltb_ge. }
    split.
    + destruct Hin as [Hin|Hin]; [|by right; right].
      rewrite <- Hin. destruct (Qltb s y); [right; by left|by left].
    + intros x [<-|[<-|Hx]].
      * eapply Qle_trans; [exact Hs|]. apply Hmax. by left.
      * eapply Qle_trans; [exact Hy|]. apply Hmax. by left.
      * apply Hmax. by right.
Qed.

Lemma is_highest_unique (m m' : Q) (scores : list Q) :
  is_highest m scores -> is_highest m' scores -> (m == m')%Q.
Proof.
  intros [Hin Hmax] [Hin' Hmax']. apply Qle_antisym; auto.
Qed.

Lemma relevance_boost_range episodes :
  (0 <= relevance_boost episodes)%Q.
Proof. unfold relevance_boost. by destruct (_ <=? _)%nat. Qed.

Lemma keyword_boost_range query : (0 <= keyword_boost query)%Q.
Proof. unfold keyword_boost. by destruct (Str.contains_any _ _). Qed.

(** What [calculate_confidence] computes on a list that is not empty. *)
Lemma calculate_confidence_eq (episodes : list episode) (query : string) (m : Q) :
  is_highest m (map ep_score episodes) ->
  (calculate_confidence episodes query == confidence_formula m episodes query)%Q.
Proof.
  intros Hm. unfold calculate_confidence, confidence_formula.
  destruct (map ep_score episodes) as [|s ss] eqn:Hs.
  { destruct Hm as [[] _]. }
  assert (E : (py_max s ss == m)%Q).
  { eapply is_highest_unique; [apply py_max_highest|exact Hm]. }
  rewrite py_min_Qmin. apply Q.min_compat; [|reflexivity].
  unfold relevance_boost, keyword_boost, count_above.
  destruct (2 <=? _)%nat; destruct (Str.contains_any _ _);
    rewrite py_min_Qmin, E; ring.
Qed.

(** C4.  On no passages the confidence is 0.  Otherwise it is the highest
    score capped at 1, plus 0.1 when at least two passages exceed 0.5,
    plus 0.05 when the query holds a domain keyword, the sum capped at 1.
    It never exceeds 1, and it is not negative when no score is: the
    scores of retrieved passages are distances. *)
Theorem calculate_confidence_spec (episodes : list episode) (query : string) :
  (episodes = [] -> calculate_confidence episodes query = 0%Q) /\
  (episodes <> [] ->
   exists highest,
     is_highest highest (map ep_score episodes) /\
     (calculate_confidence episodes query ==
      Qmin (Qmin highest 1
            + (if (2 <=? count_above (5 # 10) episodes)%nat then 1 # 10 else 0)
            + (if Str.contains_any hospitality_keywords (Str.lower query)
               then 5 # 100 else 0)) 1)%Q) /\
  (calculate_confidence episodes query <= 1)%Q /\
  (Forall (fun ep => (0 <= ep_score ep)%Q) episodes ->
   (0 <= calculate_confidence episodes query)%Q).
Proof.
  destruct episodes as [|e es].
  { split; [done|]. split; [done|]. split; [done|]. intros _. apply Qle_refl. }
  set (episodes := e :: es).
  pose proof (py_max_highest (ep_score e) (map ep_score es)) as Hh.
  change (ep_score e :: map ep_score es) with (map ep_score episodes) in Hh.
  pose proof (calculate_confidence_eq episodes query _ Hh) as E.
  split; [done|]. split; [|split].
  - intros _. eexists. split; [exact Hh|]. exact E.
  - rewrite E. apply Q.le_min_r.
  - intros Hnn. rewrite E. apply Q.min_glb; [|done].
    assert (H0 : (0 <= py_max (ep_score e) (map ep_score es))%Q).
    { destruct Hh as [_ Hmax]. eapply Qle_trans; [|apply Hmax; by left].
      by inversion Hnn. }
    assert (H1 : (0 <= Qmin (py_max (ep_score e) (map ep_score es)) 1)%Q).
    { by apply Q.min_glb. }
    pose proof (relevance_boost_range episodes) as H2.
    pose proof (keyword_boost_range query) as H3.
    change 0%Q with (0 + 0 + 0)%Q.
    apply Qplus_le_compat; [apply Qplus_le_compat|]; assumption.
Qed.

(** C4 on two passages at 0.6 and 0.55 and a query about hotels:
    0.6 + 0.1 + 0.05. *)
Lemma calculate_confidence_spec_witness :
  (calculate_confidence
     [{| ep_podcast := "Pod"; ep_title := "A"; ep_guid := "e1"; ep_text := "";
         ep_score := 6 # 10 |};
      {| ep_podcast := "Pod"; ep_title := "B"; ep_guid := "e2"; ep_text := "";
         ep_score := 55 # 100 |}] "Which hotel wins?" == 75 # 100)%Q /\
  (0 <= calculate_confidence
     [{| ep_podcast := "Pod"; ep_title := "A"; ep_guid := "e1"; ep_text := "";
         ep_score := 6 # 10 |};
      {| ep_podcast := "Pod"; ep_title := "B"; ep_guid := "e2"; ep_text := "";
         ep_score := 55 # 100 |}] "Which hotel wins?" <= 1)%Q.
Proof.
  split; [vm_compute; reflexivity|].
  destruct (calculate_confidence_spec
     [{| ep_podcast := "Pod"; ep_title := "A"; ep_guid := "e1"; ep_text := "";
         ep_score := 6 # 10 |};
      {| ep_podcast := "Pod"; ep_title := "B"; ep_guid := "e2"; ep_text := "";
         ep_score := 55 # 100 |}] "Which hotel wins?") as (_ & _ & Hle & Hnn).
  split; [|exact Hle].
  apply Hnn. repeat constructor; vm_compute; discriminate.
Defined.

(* ================================================================== *)
(** * The synthesis gate                                              *)
(* ================================================================== *)








Section GateFacts.
Context (env : Env).

Lemma chat_completion_run p temperature max_tokens w :
  chat_completion env p temperature max_tokens w =
  (match chat env (trace w) p temperature max_tokens with
   | Some content => inr content
   | None => inl APIError
   end, log_event (EvChat p temperature max_tokens) w).
Proof.
  unfold chat_completion. rewrite run_bind. unfold get_world at 1.
  rewrite run_bind. unfold modify at 1.
  by destruct (chat env (trace w) p temperature max_tokens).
Qed.

Lemma load_persona_run podcast w :
  exists persona, load_persona env podcast w = (inr persona, w).
Proof. unfold load_persona. rewrite run_bind. unfold get_world at 1. eauto. Qed.



End GateFacts.


(* ================================================================== *)
(** * The answer mode and the boundary guard                          *)
(* ================================================================== *)

Lemma prefix_lower (p s : string) :
  String.prefix p s = true -> String.prefix (Str.lower p) (Str.lower s) = true.
Proof.
  revert s. induction p as [|a p IH]; intros s; [by destruct s|].
  destruct s as [|b s]; [done|]. cbn [String.prefix Str.lower].
  destruct (ascii_dec a b) as [->|]; [|done].
  intros H. destruct (ascii_dec _ _); [auto|done].
Qed.

Lemma contains_lower (p s : string) :
  Str.contains p s = true -> Str.contains (Str.lower p) (Str.lower s) = true.
Proof.
  induction s as [|b s IH].
  - cbn [Str.contains Str.lower]. rewrite !orb_false_r. apply (prefix_lower p "").
  - cbn [Str.contains]. intros [H|H]%orb_true_iff.
    + change (Str.lower (String b s)) with (String (Str.lower_ascii b) (Str.lower s)).
      cbn [Str.contains]. apply orb_true_iff. left.
      apply (prefix_lower p (String b s) H).
    + change (Str.lower (String b s)) with (String (Str.lower_ascii b) (Str.lower s)).
      cbn [Str.contains]. apply orb_true_iff. right. auto.
Qed.

Lemma formula_at_07 (m : Q) (episodes : list episode) (query : string) :
  (m == 7 # 10)%Q -> (7 # 10 <= confidence_formula m episodes query)%Q.
Proof.
  intros Em. unfold confidence_formula. apply Q.min_glb; [|done].
  rewrite Q.min_l by (rewrite Em; done). rewrite Em.
  pose proof (relevance_boost_range episodes).
  pose proof (keyword_boost_range query).
  apply Qle_trans with ((7 # 10) + 0 + 0)%Q; [done|].
  apply Qplus_le_compat; [apply Qplus_le_compat|]; (done || apply Qle_refl).
Qed.

Lemma formula_below_07 (m : Q) (episodes : list episode) (query : string) :
  (m == 6999 # 10000)%Q ->
  (count_above (5 # 10) episodes < 2)%nat ->
  Str.contains_any hospitality_keywords (Str.lower query) = false ->
  (confidence_formula m episodes query < 7 # 10)%Q.
Proof.
  intros Em Hcount Hkw. unfold confidence_formula, relevance_boost, keyword_boost.
  rewrite Hkw. apply Nat.leb_gt in Hcount. rewrite Hcount.
  rewrite Q.min_l by (rewrite Em; done). rewrite Em. done.
Qed.

Section ModeFacts.
Context (env : Env).

(** C5, as the code has it.  When retrieval returns, one request goes to
    the text generator, and its prompt is decided by the confidence
    alone: at 0.7 or more the database prompt (content mode), below 0.7
    the creative prompt (fallback mode), and the reply names that source
    unless the generator failed.  A highest score of exactly 0.7 gives
    content mode for every query.  A highest score of 0.6999 gives
    fallback mode when neither boost applies, that is when fewer than two
    passages exceed 0.5 and the query holds no domain keyword. *)
Theorem answer_mode_by_confidence podcast query w episodes w1 :
  get_relevant_episodes env [podcast] query 3 w = (inr episodes, w1) ->
  exists r p temperature max_tokens,
    single_persona_answer_with_confidence env podcast query w =
      (inr r, log_event (EvChat p temperature max_tokens) w1) /\
    ((7 # 10 <= calculate_confidence episodes query)%Q ->
       prompt_mode p = Some ContentMode /\ (error r = None -> source r = "database")) /\
    ((calculate_confidence episodes query < 7 # 10)%Q ->
       prompt_mode p = Some FallbackMode /\ (error r = None -> source r = "creative")) /\
    (forall m, is_highest m (map ep_score episodes) -> (m == 7 # 10)%Q ->
       prompt_mode p = Some ContentMode) /\
    (forall m, is_highest m (map ep_score episodes) -> (m == 6999 # 10000)%Q ->
       (count_above (5 # 10) episodes < 2)%nat ->
       Str.contains_any hospitality_keywords (Str.lower query) = false ->
       prompt_mode p = Some FallbackMode).
Proof.
  intros Hget.
  destruct (load_persona_run env podcast w1) as [persona Hp].
  unfold single_persona_answer_with_confidence.
  rewrite run_bind, Hget, run_bind, Hp.
  set (c := calculate_confidence episodes query).
  assert (Hhigh : forall m, is_highest m (map ep_score episodes) ->
            (c == confidence_formula m episodes query)%Q).
  { intros m Hm. apply (calculate_confidence_eq episodes query m Hm). }
  destruct (Qltb c (7 # 10)) eqn:Hc.
  - apply Qltb_lt in Hc. unfold try_except. rewrite run_bind, chat_completion_run.
    destruct (chat env _ _ _ _); eexists; eexists; eexists; eexists;
      (split; [reflexivity|]); cbn [prompt_mode error source].
    all: split; [intros Hge; exfalso; by apply (Qlt_not_le _ _ Hc)|].
    all: split; [done|].
    all: split; [|done].
    all: intros m Hm Em; exfalso; apply (Qlt_not_le _ _ Hc);
      rewrite (Hhigh m Hm); by apply formula_at_07.
  - apply Qltb_ge in Hc. unfold try_except. rewrite run_bind, chat_completion_run.
    destruct (chat env _ _ _ _); eexists; eexists; eexists; eexists;
      (split; [reflexivity|]); cbn [prompt_mode error source].
    all: split; [done|].
    all: split; [intros Hlt; exfalso; by apply (Qlt_not_le _ _ Hlt)|].
    all: split; [done|].
    all: intros m Hm Em Hcount Hkw; exfalso;
      apply (Qlt_not_le c (7 # 10)); [|done];
      rewrite (Hhigh m Hm); by apply formula_below_07.
Qed.

(** C6, as the code has it.  A query whose lower-cased text holds one of
    the terms 2023, 2022, 2021, before 2024, pre-2024, and so every query
    that holds 2022, gets the fixed boundary reply with confidence 1: for
    any podcasts and any world, nothing is retrieved, nobody is asked and
    nothing is synthesised, the world is as before. *)
Theorem historical_query_boundary podcasts query w :
  Str.contains_any historical_terms (Str.lower query) = true \/
  Str.contains "2022" query = true ->
  multi_persona_debate_with_confidence env podcasts query w = (inr boundary_response, w) /\
  debate_confidence boundary_response = 1%Q /\
  debate_source boundary_response = "system_boundary".
Proof.
  intros H.
  assert (Hg : Str.contains_any historical_terms (Str.lower query) = true).
  { destruct H as [H|H]; [exact H|].
    apply contains_lower in H. change (Str.lower "2022") with "2022" in H.
    unfold Str.contains_any, historical_terms. cbn [existsb]. rewrite H.
    by rewrite orb_true_r. }
  unfold multi_persona_debate_with_confidence. by rewrite Hg.
Qed.

End ModeFacts.

(** C5 as stated fails: the best passage is at 0.6999 and the query names
    hotels, so the keyword boost lifts the confidence to 0.7499 and the
    answer is given in content mode. *)
Lemma near_miss_answers_from_content :
  exists r w',
    single_persona_answer_with_confidence
      (talking_env "Hotels are changing." [(0%Z, (6999 # 10000)%Q)]) "Pod"
      "Which hotel trends matter?" one_passage_world = (inr r, w') /\
    (highest_score r == 6999 # 10000)%Q /\
    (confidence r == 7499 # 10000)%Q /\
    source r = "database" /\
    metadata r = Some ([("Pilot", (6999 # 10000)%Q)], "content_based") /\
    exists query context scenario temperature max_tokens,
      trace w' = [EvSearch "data/Pod/embeddings.faiss" "Which hotel trends matter?" 3;
                  EvChat (DatabasePrompt empty_persona query context scenario)
                    temperature max_tokens].
Proof.
  eexists. eexists. split; [vm_compute; reflexivity|]. cbn.
  split; [vm_compute; reflexivity|]. split; [vm_compute; reflexivity|].
  split; [reflexivity|]. split; [reflexivity|]. eauto 10.
Qed.

(** The boundary cases of C5 at concrete passages: 0.7 with a plain
    query is answered in content mode, 0.6999 with a plain query in
    fallback mode. *)
Lemma answer_mode_by_confidence_witness :
  (exists r w',
     single_persona_answer_with_confidence
       (talking_env "Rooms matter." [(0%Z, (7 # 10)%Q)]) "Pod" "Why do rooms matter?"
       one_passage_world = (inr r, w') /\
     source r = "database") /\
  (exists r w',
     single_persona_answer_with_confidence
       (talking_env uncovered_words [(0%Z, (6999 # 10000)%Q)]) "Pod" "Why do rooms matter?"
       one_passage_world = (inr r, w') /\
     source r = "creative").
Proof.
  split.
  - edestruct (answer_mode_by_confidence (talking_env "Rooms matter." [(0%Z, (7 # 10)%Q)])
                 "Pod" "Why do rooms matter?" one_passage_world)
      as (r & p & t & n & Hrun & Hge & _).
    { vm_compute; reflexivity. }
    exists r. eexists. split; [exact Hrun|].
    apply Hge; [vm_compute; discriminate|].
    revert Hrun. vm_compute. by intros [= <- _].
  - edestruct (answer_mode_by_confidence (talking_env uncovered_words [(0%Z, (6999 # 10000)%Q)])
                 "Pod" "Why do rooms matter?" one_passage_world)
      as (r & p & t & n & Hrun & _ & Hlt & _).
    { vm_compute; reflexivity. }
    exists r. eexists. split; [exact Hrun|].
    apply Hlt; [vm_compute; reflexivity|].
    revert Hrun. vm_compute. by intros [= <- _].
Defined.

(** C6 as stated fails for a time before the data horizon that is not
    among the five terms: a query about 2020 runs the whole pipeline (the
    persona is asked, then the single-voice reply) and comes back at
    confidence 0 from the source simple_creative. *)
Lemma year_2020_is_not_guarded :
  exists d w',
    multi_persona_debate_with_confidence quiet_env ["Pod"]
      "What changed in hospitality in 2020?" empty_world = (inr d, w') /\
    d <> boundary_response /\
    debate_source d = "simple_creative" /\
    debate_confidence d = 0%Q /\
    length (trace w') = 2%nat.
Proof.
  eexists. eexists. split; [vm_compute; reflexivity|].
  split; [discriminate|]. repeat split; reflexivity.
Qed.

(** The guard on a query about 2022, over an indexed podcast. *)
Lemma historical_query_boundary_witness :
  multi_persona_debate_with_confidence (talking_env "Rooms matter." [(0%Z, (7 # 10)%Q)])
    ["Pod"] "What did hoteliers say in 2022?" one_passage_world
  = (inr boundary_response, one_passage_world).
Proof.
  apply (historical_query_boundary (talking_env "Rooms matter." [(0%Z, (7 # 10)%Q)])).
  right. vm_compute; reflexivity.
Defined.

(* ================================================================== *)
(** * Further facts on the ledger                                     *)
(* ================================================================== *)

Section LedgerMore.
Context (env : Env).

(** X1.  Writing a status and asking for a stage compose: after
    [update_episode_state] has written the name of stage [t], whatever the
    record held before and whatever else is written along,
    [episode_done_at_least] answers for stage [s] whether [s] is at most
    [t]. *)
Theorem status_write_then_read w podcast guid kwargs (t s : stage) :
  kwargs !! "status" = Some (VStr (stage_name t)) ->
  (update_episode_state env podcast guid kwargs;;
   episode_done_at_least env podcast guid (stage_name s)) w
  = (inr (bool_decide (stage_rank s <= stage_rank t)%nat),
     snd (update_episode_state env podcast guid kwargs w)).
Proof.
  intros Hk. rewrite run_bind, update_episode_state_run. cbn [snd].
  by rewrite episode_done_at_least_run, (reached_updated env _ _ _ _ t s Hk).
Qed.

End LedgerMore.

(** X1 on a fresh ledger: an episode written at cleaned has reached
    transcribed and has not reached embedded. *)
Lemma status_write_then_read_witness :
  (update_episode_state quiet_env "Pod" "e9" {[ "status" := VStr "cleaned" ]};;
   episode_done_at_least quiet_env "Pod" "e9" "transcribed") empty_world
  = (inr true,
     snd (update_episode_state quiet_env "Pod" "e9" {[ "status" := VStr "cleaned" ]}
            empty_world)) /\
  (update_episode_state quiet_env "Pod" "e9" {[ "status" := VStr "cleaned" ]};;
   episode_done_at_least quiet_env "Pod" "e9" "embedded") empty_world
  = (inr false,
     snd (update_episode_state quiet_env "Pod" "e9" {[ "status" := VStr "cleaned" ]}
            empty_world)).
Proof.
  split.
  - apply (status_write_then_read quiet_env empty_world "Pod" "e9" _ Cleaned Transcribed).
    reflexivity.
  - apply (status_write_then_read quiet_env empty_world "Pod" "e9" _ Cleaned Embedded).
    reflexivity.
Defined.

(* ================================================================== *)
(** * Entering a feed                                                 *)
(* ================================================================== *)

Lemma enter_episodes_keeps eps (m : gmap string (gmap string value)) g r :
  m !! g = Some r -> enter_episodes eps m !! g = Some r.
Proof.
  revert m. induction eps as [|ep eps IH]; intros m Hm; [done|].
  cbn [enter_episodes fold_left]. apply IH.
  destruct (m !! fe_guid ep) eqn:E; [done|].
  rewrite lookup_insert_ne; [done|]. intros Heq. rewrite Heq in E. congruence.
Qed.

Lemma enter_episodes_enters eps (m : gmap string (gmap string value)) ep :
  In ep eps -> is_Some (enter_episodes eps m !! fe_guid ep).
Proof.
  revert m. induction eps as [|ep0 eps IH]; intros m Hin; [done|].
  cbn [enter_episodes fold_left]. destruct Hin as [->|Hin]; [|by apply IH].
  destruct (m !! fe_guid ep) as [r|] eqn:E.
  - exists r. by apply enter_episodes_keeps.
  - eexists. apply enter_episodes_keeps, lookup_insert_eq.
Qed.

Lemma enter_episodes_new eps (m : gmap string (gmap string value)) g r :
  m !! g = None -> enter_episodes eps m !! g = Some r ->
  r !! "status" = Some (VStr "") /\
  exists ep, In ep eps /\ fe_guid ep = g /\ r !! "title" = Some (VStr (fe_title ep)) /\
             r !! "audio_url" = Some (VStr (fe_audio_url ep)).
Proof.
  revert m. induction eps as [|ep0 eps IH]; intros m Hm Hr.
  { cbn in Hr. congruence. }
  cbn [enter_episodes fold_left] in Hr.
  destruct (m !! fe_guid ep0) eqn:E.
  - destruct (IH m Hm Hr) as (Hs & ep & Hin & Hg & Ht). split; [done|].
    exists ep. split; [by right|done].
  - destruct (decide (fe_guid ep0 = g)) as [Heq|Hne].
    + subst g. rewrite (enter_episodes_keeps eps _ (fe_guid ep0) _ (lookup_insert_eq _ _ _)) in Hr.
      injection Hr as <-. split; [done|]. exists ep0. split; [by left|done].
    + assert (Hm' : <[fe_guid ep0 :=
               {[ "title" := VStr (fe_title ep0);
                  "audio_url" := VStr (fe_audio_url ep0);
                  "publish_date" := VStr (fe_publish_date ep0);
                  "status" := VStr "" ]}]> m !! g = None)
        by (by rewrite lookup_insert_ne).
      destruct (IH _ Hm' Hr) as (Hs & ep & Hin & Hg & Ht). split; [done|].
      exists ep. split; [by right|done].
Qed.

Lemma enter_episodes_present eps (m : gmap string (gmap string value)) :
  (forall ep, In ep eps -> is_Some (m !! fe_guid ep)) -> enter_episodes eps m = m.
Proof.
  revert m. induction eps as [|ep eps IH]; intros m H; [done|].
  cbn [enter_episodes fold_left].
  destruct (H ep (or_introl eq_refl)) as [r Hr]. rewrite Hr.
  apply IH. intros ep' Hin. apply H. by right.
Qed.

Section FeedFacts.
Context (env : Env) (parse_feed : string -> nat -> exn + feed_info).

Local Abbreviation manifest_path podcast :=
  (Paths.manifest (Paths.podcast_artifacts (BASE_DATA_DIR env) podcast)).

Lemma add_feed_run feed latest_n result w :
  add_feed env parse_feed feed latest_n result w =
  match parse_feed feed latest_n with
  | inl e => (inr (<[feed := FeedError e]> result), w)
  | inr info =>
      (inr (<[podcast_title info := Parsed (length (feed_episodes info))]> result),
       set_manifests
         (insert (manifest_path (podcast_title info))
            {| podcast_name := podcast_name (the_manifest env w (podcast_title info));
               episodes := enter_episodes (feed_episodes info)
                             (episodes (the_manifest env w (podcast_title info))) |}) w)
  end.
Proof.
  unfold add_feed, try_except. destruct (parse_feed feed latest_n) as [e|info]; [done|].
  by rewrite run_bind, load_manifest_run.
Qed.

(** What one feed does to the record of any episode of any podcast. *)
Lemma add_feed_record feed latest_n result w podcast guid :
  persisted_record env (snd (add_feed env parse_feed feed latest_n result w)) podcast guid =
  match parse_feed feed latest_n with
  | inl _ => persisted_record env w podcast guid
  | inr info =>
      if decide (manifest_path (podcast_title info) = manifest_path podcast)
      then enter_episodes (feed_episodes info)
             (episodes (the_manifest env w podcast)) !! guid
      else persisted_record env w podcast guid
  end.
Proof.
  rewrite add_feed_run. destruct (parse_feed feed latest_n) as [e|info]; [done|].
  cbn [snd]. unfold persisted_record, set_manifests. cbn [manifests].
  destruct (decide _) as [E|E].
  - rewrite E, lookup_insert_eq. cbn [mbind option_bind episodes].
    unfold the_manifest. rewrite E. by destruct (manifests w !! _).
  - by rewrite lookup_insert_ne.
Qed.

Lemma add_feed_keeps feed latest_n result w podcast guid r :
  persisted_record env w podcast guid = Some r ->
  persisted_record env (snd (add_feed env parse_feed feed latest_n result w)) podcast guid
    = Some r.
Proof.
  intros Hr. rewrite add_feed_record.
  destruct (parse_feed feed latest_n) as [e|info]; [done|].
  destruct (decide _); [|done].
  apply enter_episodes_keeps. by rewrite <- persisted_record_manifest.
Qed.



(** X3.  A feed that parses enters its episodes under the podcast title:
    afterwards every episode of the feed has a record, and a record that
    was not there before carries the title and the audio URL of a feed
    episode with that guid and the empty status, so that no stage counts
    as reached for it. *)
Theorem add_feed_enters feed latest_n result w info :
  parse_feed feed latest_n = inr info ->
  let w' := snd (add_feed env parse_feed feed latest_n result w) in
  (forall ep, In ep (feed_episodes info) ->
     is_Some (persisted_record env w' (podcast_title info) (fe_guid ep))) /\
  (forall guid r,
     persisted_record env w (podcast_title info) guid = None ->
     persisted_record env w' (podcast_title info) guid = Some r ->
     r !! "status" = Some (VStr "") /\
     (exists ep, In ep (feed_episodes info) /\ fe_guid ep = guid /\
                 r !! "title" = Some (VStr (fe_title ep)) /\
                 r !! "audio_url" = Some (VStr (fe_audio_url ep))) /\
     forall name, reached env w' (podcast_title info) guid name = false).
Proof.
  intros Hp w'. subst w'. split.
  - intros ep Hin. rewrite add_feed_record, Hp, decide_True by done.
    by apply enter_episodes_enters.
  - intros guid r Hnone Hr. rewrite add_feed_record, Hp, decide_True in Hr by done.
    rewrite persisted_record_manifest in Hnone.
    destruct (enter_episodes_new _ _ _ _ Hnone Hr) as [Hs Hep].
    split; [done|]. split; [done|]. intros name.
    assert (Hrec : persisted_record env (snd (add_feed env parse_feed feed latest_n result w))
                     (podcast_title info) guid = Some r).
    { by rewrite add_feed_record, Hp, decide_True by done. }
    rewrite persisted_record_manifest in Hrec.
    unfold reached. rewrite Hrec. destruct (decide (r = ∅)); [done|].
    rewrite Hs. cbn [default from_option id].
    rewrite (rank_of_other (VStr "")); [done|]. by intros [].
Qed.

(** X4.  Adding the same feeds again changes nothing: the second call
    leaves the world of the first as it is and reports the same. *)
Theorem add_podcasts_twice feeds latest_n w result w' :
  add_podcasts env parse_feed feeds latest_n w = (inr result, w') ->
  add_podcasts env parse_feed feeds latest_n w' = (inr result, w').
Proof.
  unfold add_podcasts. generalize (∅ : gmap string feed_outcome).
  (* the entries made so far are present in every later world *)
  assert (Hstable : forall feeds result0 w0 result1 w1,
    add_feeds env parse_feed feeds latest_n result0 w0 = (inr result1, w1) ->
    forall podcast guid, is_Some (persisted_record env w0 podcast guid) ->
                         is_Some (persisted_record env w1 podcast guid)).
  { clear. intros feeds. induction feeds as [|feed feeds IH];
      intros result0 w0 result1 w1 Hrun podcast guid [r Hr].
    { cbn [add_feeds] in Hrun. rewrite run_ret in Hrun. injection Hrun as _ <-. eauto. }
    cbn [add_feeds] in Hrun. apply run_bind_inv in Hrun as (res & wa & Ha & Hrun).
    eapply IH; [exact Hrun|]. exists r.
    replace wa with (snd (add_feed env parse_feed feed latest_n result0 w0))
      by (by rewrite Ha).
    by apply add_feed_keeps. }
  (* a feed whose entries are all present is a no-op on the world *)
  assert (Hnoop : forall feed result0 w0,
    (forall info, parse_feed feed latest_n = inr info ->
       is_Some (manifests w0 !! manifest_path (podcast_title info)) /\
       forall ep, In ep (feed_episodes info) ->
         is_Some (persisted_record env w0 (podcast_title info) (fe_guid ep))) ->
    snd (add_feed env parse_feed feed latest_n result0 w0) = w0).
  { clear. intros feed result0 w0 H. rewrite add_feed_run.
    destruct (parse_feed feed latest_n) as [e|info]; [done|]. cbn [snd].
    destruct (H info eq_refl) as [[m Hm] Hall].
    rewrite enter_episodes_present.
    2:{ intros ep Hin. rewrite <- persisted_record_manifest. by apply Hall. }
    unfold the_manifest. rewrite Hm. cbn [default from_option id].
    destruct w0 as [f ms fa me pe tr]. unfold set_manifests. cbn in *.
    f_equal. destruct m. cbn. by apply insert_id. }
  revert w w'.
  induction feeds as [|feed feeds IH]; intros w w' result0 Hrun.
  { cbn [add_feeds] in Hrun. rewrite run_ret in Hrun. by injection Hrun as <- <-. }
  cbn [add_feeds] in Hrun |- *.
  apply run_bind_inv in Hrun as (res & wa & Ha & Hrun).
  (* the outcome of a feed does not depend on the world *)
  assert (Hres : forall w2, fst (add_feed env parse_feed feed latest_n result0 w2) = inr res).
  { intros w2. rewrite add_feed_run. rewrite add_feed_run in Ha.
    destruct (parse_feed feed latest_n); by injection Ha as <- _. }
  assert (Hw : snd (add_feed env parse_feed feed latest_n result0 w') = w').
  { apply Hnoop. intros info Hp.
    assert (Hafter : forall ep, In ep (feed_episodes info) ->
              is_Some (persisted_record env wa (podcast_title info) (fe_guid ep))).
    { intros ep Hin.
      replace wa with (snd (add_feed env parse_feed feed latest_n result0 w))
        by (by rewrite Ha).
      by apply (add_feed_enters feed latest_n result0 w info Hp). }
    split.
    - (* the manifest written for this feed is still there *)
      assert (Hm : is_Some (manifests wa !! manifest_path (podcast_title info))).
      { replace wa with (snd (add_feed env parse_feed feed latest_n result0 w))
          by (by rewrite Ha).
        rewrite add_feed_run, Hp. cbn [snd]. unfold set_manifests. cbn [manifests].
        rewrite lookup_insert_eq. eauto. }
      clear -Hm Hrun. revert res wa Hm Hrun.
      induction feeds as [|f fs IHf]; intros res wa Hm Hrun.
      { cbn [add_feeds] in Hrun. rewrite run_ret in Hrun. by injection Hrun as _ <-. }
      cbn [add_feeds] in Hrun. apply run_bind_inv in Hrun as (res2 & wb & Hb & Hrun).
      eapply IHf; [|exact Hrun].
      replace wb with (snd (add_feed env parse_feed f latest_n res wa))
        by (by rewrite Hb).
      rewrite add_feed_run. destruct (parse_feed f latest_n) as [e|i]; [done|].
      cbn [snd]. unfold set_manifests. cbn [manifests].
      destruct (decide (manifest_path (podcast_title i) = manifest_path (podcast_title info)))
        as [E|E].
      + rewrite E, lookup_insert_eq. eauto.
      + by rewrite lookup_insert_ne.
    - intros ep Hin. eapply Hstable; [exact Hrun|]. by apply Hafter. }
  assert (Hrun2 : add_feed env parse_feed feed latest_n result0 w' = (inr res, w')).
  { pose proof (Hres w') as Hr2.
    destruct (add_feed env parse_feed feed latest_n result0 w') as [r2 w2].
    cbn in Hr2, Hw. by subst. }
  rewrite run_bind, Hrun2. by apply (IH wa).
Qed.

End FeedFacts.


(** X3 at work: the second episode of the feed is new to the ledger and
    is entered with the empty status. *)
Lemma add_feed_enters_witness :
  exists r,
    persisted_record quiet_env
      (snd (add_feed quiet_env one_feed "https://pod.example/rss" 20 ∅ downloaded_world))
      "Pod" "e2" = Some r /\
    r !! "status" = Some (VStr "") /\
    reached quiet_env
      (snd (add_feed quiet_env one_feed "https://pod.example/rss" 20 ∅ downloaded_world))
      "Pod" "e2" "downloaded" = false.
Proof.
  edestruct (add_feed_enters quiet_env one_feed "https://pod.example/rss" 20 ∅
               downloaded_world) as [_ Hnew].
  { vm_compute; reflexivity. }
  edestruct (Hnew "e2") as (Hs & _ & Hr).
  { vm_compute; reflexivity. }
  { vm_compute; reflexivity. }
  eexists. split; [vm_compute; reflexivity|]. split; [exact Hs|]. apply (Hr "downloaded").
Defined.

(** X4 at work on the same feeds. *)
Lemma add_podcasts_twice_witness :
  exists result w',
    add_podcasts quiet_env one_feed ["https://pod.example/rss"; "https://gone.example/rss"]
      20 downloaded_world = (inr result, w') /\
    add_podcasts quiet_env one_feed ["https://pod.example/rss"; "https://gone.example/rss"]
      20 w' = (inr result, w').
Proof.
  eexists. eexists. split; [vm_compute; reflexivity|].
  apply (add_podcasts_twice quiet_env one_feed _ 20 downloaded_world).
  vm_compute; reflexivity.
Defined.

(* ================================================================== *)
(** * Footprints of the operations                                    *)
(* ================================================================== *)

Section Respects.
Context (R : world -> world -> Prop) `{!Reflexive R, !Transitive R}.

Lemma respects_ret {A} (x : A) : respects R (mret x).
Proof. intros w r w' [= _ <-]. reflexivity. Qed.

Lemma respects_raise {A} (e : exn) : respects R (raise e : M A).
Proof. intros w r w' [= _ <-]. reflexivity. Qed.

Lemma respects_bind {A B} (m : M A) (f : A -> M B) :
  respects R m -> (forall x, respects R (f x)) -> respects R (m ≫= f).
Proof.
  intros Hm Hf w r w'. rewrite run_bind.
  destruct (m w) as [[e|x] w1] eqn:E.
  - intros [= _ <-]. by eapply Hm.
  - intros H. etrans; [by eapply Hm|by eapply Hf].
Qed.

Lemma respects_try {A} (body : M A) (h : exn -> M A) :
  respects R body -> (forall e, respects R (h e)) -> respects R (try_except body h).
Proof.
  intros Hm Hh w r w'. unfold try_except.
  destruct (body w) as [[e|x] w1] eqn:E.
  - intros H. etrans; [by eapply Hm|by eapply Hh].
  - intros [= _ <-]. by eapply Hm.
Qed.

Lemma respects_get_world : respects R get_world.
Proof. intros w r w' [= _ <-]. reflexivity. Qed.

Lemma respects_modify (f : world -> world) :
  (forall w, R w (f w)) -> respects R (modify f).
Proof. intros Hf w r w' [= _ <-]. apply Hf. Qed.

Lemma respects_for_each {A} (xs : list A) (body : A -> M unit) :
  (forall x, respects R (body x)) -> respects R (for_each xs body).
Proof.
  intros Hb. induction xs as [|x xs IH]; [apply respects_ret|].
  cbn [for_each]. apply respects_bind; [apply Hb|]. intros _. exact IH.
Qed.

End Respects.

Global Instance kept_refl {B} (proj : world -> B) : Reflexive (kept proj).
Proof. by intros w. Qed.

Global Instance kept_trans {B} (proj : world -> B) : Transitive (kept proj).
Proof. unfold kept. intros w1 w2 w3 H1 H2. congruence. Qed.

(** The steps of a proof that an operation respects a relation. *)
Ltac respects_step :=
  first
    [ apply respects_ret; try typeclasses eauto
    | apply respects_raise; try typeclasses eauto
    | apply respects_get_world; try typeclasses eauto
    | apply respects_bind; try typeclasses eauto; [ | intros ]
    | apply respects_try; try typeclasses eauto; [ | intros ]
    | apply respects_modify; intros; solve [reflexivity | unfold kept; auto]
    | match goal with
      | |- respects _ (if ?b then _ else _) => destruct b
      | |- respects _ (match ?x with _ => _ end) => destruct x
      | |- respects _ (let '(_, _) := ?x in _) => destruct x
      end ].

Ltac respects_auto := repeat respects_step.

(** Reading a file changes nothing. *)
Lemma exists_pure p : respects eq (exists_ p).
Proof. intros w r w' [= _ <-]. reflexivity. Qed.

Lemma read_text_pure p : respects eq (read_text p).
Proof.
  intros w r w'. unfold read_text. rewrite run_bind. unfold get_world at 1.
  destruct (is_dir p); [by intros [= _ <-]|].
  destruct (files w !! p); by intros [= _ <-].
Qed.

Lemma st_size_pure p : respects eq (st_size p).
Proof.
  unfold st_size. apply respects_bind; try typeclasses eauto; [apply read_text_pure|].
  intros s. apply respects_ret. typeclasses eauto.
Qed.

Lemma pure_respects {A} (R : world -> world -> Prop) `{!Reflexive R} (m : M A) :
  respects eq m -> respects R m.
Proof. intros H w r w' Hrun. by rewrite (H w r w' Hrun). Qed.

(** Writing files leaves the ledgers, the indexes and the trace alone. *)
Section FileOps.
Context {B} (proj : world -> B).
Context (Hfiles : forall f w, proj (set_files f w) = proj w).

Lemma unlink_kept p : respects (kept proj) (unlink p).
Proof.
  unfold unlink. respects_auto.
Qed.

Lemma write_text_kept p s : respects (kept proj) (write_text p s).
Proof.
  unfold write_text. respects_auto.
Qed.

Lemma write_chunks_kept p a s : respects (kept proj) (write_chunks p a s).
Proof.
  unfold write_chunks. respects_auto.
Qed.

Lemma replace_file_kept p q : respects (kept proj) (replace_file p q).
Proof.
  unfold replace_file. respects_auto.
Qed.

Lemma safe_file_rename_kept p q : respects (kept proj) (safe_file_rename p q).
Proof.
  unfold safe_file_rename.
  apply respects_bind; try typeclasses eauto; [apply pure_respects, exists_pure; typeclasses eauto|].
  intros ex. apply respects_bind; try typeclasses eauto.
  - destruct ex; [apply unlink_kept|apply respects_ret; typeclasses eauto].
  - intros _. apply replace_file_kept.
Qed.

Lemma cleanup_failed_download_kept p q :
  respects (kept proj) (cleanup_failed_download p q).
Proof.
  unfold cleanup_failed_download.
  apply respects_try; try typeclasses eauto; [|intros; apply respects_ret; typeclasses eauto].
  apply respects_bind; try typeclasses eauto; [apply pure_respects, exists_pure; typeclasses eauto|].
  intros ex. apply respects_bind; try typeclasses eauto.
  { destruct ex; [apply unlink_kept|apply respects_ret; typeclasses eauto]. }
  intros _. apply respects_bind; try typeclasses eauto;
    [apply pure_respects, exists_pure; typeclasses eauto|].
  intros ex2. destruct ex2; [|apply respects_ret; typeclasses eauto].
  apply respects_bind; try typeclasses eauto;
    [apply pure_respects, st_size_pure; typeclasses eauto|].
  intros sz. destruct (_ <? _)%nat; [apply unlink_kept|apply respects_ret; typeclasses eauto].
Qed.

End FileOps.

(* ================================================================== *)
(** * Further facts on the download stage                             *)
(* ================================================================== *)

Lemma run_bind_cases {A B} (m : M A) (f : A -> M B) w r w2 :
  (m ≫= f) w = (r, w2) ->
  (exists e, m w = (inl e, w2) /\ r = inl e) \/
  (exists x w1, m w = (inr x, w1) /\ f x w1 = (r, w2)).
Proof.
  rewrite run_bind. destruct (m w) as [[e|x] w1].
  - intros [= <- <-]. left. eauto.
  - intros H. right. eauto.
Qed.

Lemma run_try_cases {A} (body : M A) (h : exn -> M A) w r w2 :
  try_except body h w = (r, w2) ->
  (exists x, body w = (inr x, w2) /\ r = inr x) \/
  (exists e w1, body w = (inl e, w1) /\ h e w1 = (r, w2)).
Proof.
  unfold try_except. destruct (body w) as [[e|x] w1].
  - intros H. right. eauto.
  - intros [= <- <-]. left. eauto.
Qed.

(** Composition of footprints that differ. *)
Lemma respects_bind_gen {A B} (R1 R2 R3 : world -> world -> Prop)
    (m : M A) (f : A -> M B) :
  (forall a b, R1 a b -> R3 a b) ->
  (forall a b c, R1 a b -> R2 b c -> R3 a c) ->
  respects R1 m -> (forall x, respects R2 (f x)) -> respects R3 (m ≫= f).
Proof.
  intros H13 H123 Hm Hf w r w' Hrun.
  apply run_bind_cases in Hrun as [(e & He & _)|(x & w1 & Hx & Hrun)].
  - apply H13. by eapply Hm.
  - eapply H123; [by eapply Hm|by eapply Hf].
Qed.

Ltac respects_files_step :=
  first
    [ respects_step
    | apply pure_respects; try typeclasses eauto;
      first [apply exists_pure | apply st_size_pure | apply read_text_pure]
    | apply unlink_kept; intros; reflexivity
    | apply write_text_kept; intros; reflexivity
    | apply write_chunks_kept; intros; reflexivity
    | apply replace_file_kept; intros; reflexivity
    | apply safe_file_rename_kept; intros; reflexivity
    | apply cleanup_failed_download_kept; intros; reflexivity ].

Ltac respects_files := repeat respects_files_step.

Lemma fetched_refl url n w : fetched url n w w.
Proof. exists []. split; [by rewrite app_nil_r|]. split; [cbn; lia|constructor]. Qed.

Lemma fetched_kept_l url n a b c :
  kept trace a b -> fetched url n b c -> fetched url n a c.
Proof. unfold kept. intros H (l & Hl & Hn & Hg). exists l. by rewrite <- H. Qed.

Lemma fetched_kept_r url n a b c :
  fetched url n a b -> kept trace b c -> fetched url n a c.
Proof. unfold kept. intros (l & Hl & Hn & Hg) H. exists l. by rewrite H. Qed.

Section DownloadMore.
Context (env : Env).

Local Abbreviation episode_paths := (Paths.episode_paths (BASE_DATA_DIR env)).

Lemma update_episode_state_trace podcast guid kwargs :
  respects (kept trace) (update_episode_state env podcast guid kwargs).
Proof. intros w r w'. rewrite update_episode_state_run. by intros [= _ <-]. Qed.

Lemma update_episode_state_files podcast guid kwargs :
  respects (kept artifacts) (update_episode_state env podcast guid kwargs).
Proof. intros w r w'. rewrite update_episode_state_run. by intros [= _ <-]. Qed.

(** What is left of a round once its request is sent. *)
Lemma download_round_run audio_url part resume_from range w :
  exists rest : M round,
    download_round env audio_url part resume_from range w =
      rest (log_event (EvHttpGet audio_url range) w) /\
    respects (kept trace) rest /\ respects (kept stores) rest.
Proof.
  unfold download_round. rewrite run_bind. unfold get_world at 1.
  rewrite run_bind. unfold modify at 1.
  eexists. split; [reflexivity|]. split; respects_files.
Qed.

Lemma download_round_stores audio_url part resume_from range :
  respects (kept stores) (download_round env audio_url part resume_from range).
Proof.
  intros w r w' Hrun.
  destruct (download_round_run audio_url part resume_from range w) as (rest & E & _ & Hs).
  rewrite E in Hrun. apply Hs in Hrun. exact Hrun.
Qed.

Lemma download_round_trace audio_url part resume_from range w r w' :
  download_round env audio_url part resume_from range w = (r, w') ->
  trace w' = trace w ++ [EvHttpGet audio_url range].
Proof.
  intros Hrun.
  destruct (download_round_run audio_url part resume_from range w) as (rest & E & Ht & _).
  rewrite E in Hrun. apply Ht in Hrun. exact Hrun.
Qed.

Lemma download_rounds_stores left attempt audio_url part resume_from range :
  respects (kept stores)
    (download_rounds env left attempt audio_url part resume_from range).
Proof.
  revert attempt resume_from range.
  induction left as [|left IH]; intros attempt resume_from range; cbn [download_rounds].
  { respects_files. }
  apply respects_bind; try typeclasses eauto; [apply download_round_stores|].
  intros [| |]; respects_files; apply IH.
Qed.

Lemma download_rounds_trace left attempt audio_url part resume_from range :
  respects (fetched audio_url left)
    (download_rounds env left attempt audio_url part resume_from range).
Proof.
  revert attempt resume_from range.
  induction left as [|left IH]; intros attempt resume_from range w r w' Hrun;
    cbn [download_rounds] in Hrun.
  { injection Hrun as _ <-. apply fetched_refl. }
  apply run_bind_cases in Hrun as [(e & He & _)|(x & w1 & Hx & Hrun)].
  { apply download_round_trace in He. exists [EvHttpGet audio_url range].
    split; [done|]. split; [cbn; lia|]. repeat constructor. eauto. }
  apply download_round_trace in Hx.
  assert (Hgrow : fetched audio_url left w1 w' ->
                  fetched audio_url (S left) w w').
  { intros (l & Hl & Hn & Hg). exists (EvHttpGet audio_url range :: l).
    split; [by rewrite Hl, Hx, <- app_assoc|]. split; [cbn; lia|].
    constructor; [eauto|done]. }
  apply Hgrow.
  destruct x as [|rf rg|rf].
  - injection Hrun as _ <-. apply fetched_refl.
  - by eapply IH.
  - destruct (bool_decide _).
    { injection Hrun as _ <-. apply fetched_refl. }
    apply run_bind_cases in Hrun as [(e & He & _)|(ex & w2 & Hex & Hrun)].
    { apply exists_pure in He. subst. apply fetched_refl. }
    apply exists_pure in Hex. subst w2.
    destruct (_ && _).
    + apply run_bind_cases in Hrun as [(e & He & _)|(sz & w2 & Hsz & Hrun)].
      { apply st_size_pure in He. subst. apply fetched_refl. }
      apply st_size_pure in Hsz. subst w2. by eapply IH.
    + by eapply IH.
Qed.

Global Instance gone_refl part : Reflexive (gone part).
Proof. intros w H. exact H. Qed.

Global Instance gone_trans part : Transitive (gone part).
Proof. unfold gone. intros w1 w2 w3 H1 H2 H. auto. Qed.

Lemma unlink_run p w s :
  files w !! p = Some s -> unlink p w = (inr tt, set_files (delete p) w).
Proof. intros H. unfold unlink. rewrite run_bind. unfold get_world at 1. by rewrite H. Qed.

Lemma unlink_gone part p : respects (gone part) (unlink p).
Proof.
  intros w r w'. unfold unlink. rewrite run_bind. unfold get_world at 1.
  destruct (files w !! p); intros [= _ <-]; [|done].
  intros Hn. cbn [files set_files].
  destruct (decide (p = part)) as [->|Hne]; [apply lookup_delete_eq|].
  by rewrite lookup_delete_ne.
Qed.

(** The clean-up after a failed download always returns; the partial
    file is gone. *)
Lemma cleanup_failed_download_run part audio w :
  is_dir part = false ->
  exists w', cleanup_failed_download part audio w = (inr tt, w') /\
             files w' !! part = None /\ stores w' = stores w /\ trace w' = trace w.
Proof.
  intros Hd.
  destruct (cleanup_failed_download_returns part audio w) as [w' Hrun].
  exists w'. split; [done|].
  pose proof (cleanup_failed_download_kept stores (fun _ _ => eq_refl) part audio _ _ _ Hrun).
  pose proof (cleanup_failed_download_kept trace (fun _ _ => eq_refl) part audio _ _ _ Hrun).
  split; [|done].
  revert Hrun. unfold cleanup_failed_download.
  set (tail := fun _ : unit =>
     ex2 ← exists_ audio;
     if ex2 : bool then
       sz ← st_size audio;
       if (sz <? MIN_FILE_SIZE)%nat then unlink audio else mret tt
     else mret tt).
  assert (Htail : respects (gone part) (tail tt)).
  { unfold tail. apply respects_bind; try typeclasses eauto.
    { apply pure_respects; [typeclasses eauto|apply exists_pure]. }
    intros ex2. destruct ex2; [|apply respects_ret; typeclasses eauto].
    apply respects_bind; try typeclasses eauto.
    { apply pure_respects; [typeclasses eauto|apply st_size_pure]. }
    intros sz. destruct (_ <? _)%nat; [apply unlink_gone|apply respects_ret; typeclasses eauto]. }
  assert (Hfirst : exists w1,
            files w1 !! part = None /\
            forall (h : exn -> M unit),
              try_except (ex ← exists_ part;
                          (if ex : bool then unlink part else mret tt) ≫= tail) h w
              = try_except (tail tt) h w1).
  { destruct (files w !! part) as [s|] eqn:Hp.
    - exists (set_files (delete part) w). split; [apply lookup_delete_eq|].
      intros h. unfold try_except.
      rewrite run_bind, exists_run, path_exists_file by done.
      rewrite bool_decide_eq_true_2 by eauto.
      by rewrite run_bind, (unlink_run part w s Hp).
    - exists w. split; [done|]. intros h. unfold try_except.
      rewrite run_bind, exists_run, path_exists_file by done.
      rewrite bool_decide_eq_false_2 by (rewrite Hp; intros [? ?]; discriminate).
      by rewrite run_bind, run_ret. }
  destruct Hfirst as (w1 & Hn & Hfirst). rewrite Hfirst. unfold try_except.
  destruct (tail tt w1) as [[e|[]] w2] eqn:Ht; cbv [mret M_ret].
    all: intros [= <-]; by apply (Htail _ _ _ Ht).
Qed.

End DownloadMore.

Lemma join_child_inj (base stem s1 s2 : string) :
  (2 <= String.length s1)%nat -> (2 <= String.length s2)%nat ->
  Paths.join base (stem +:+ s1) = Paths.join base (stem +:+ s2) -> s1 = s2.
Proof.
  intros H1 H2. unfold Paths.join.
  assert (Hl : forall s, (2 <= String.length s)%nat ->
            ~ (stem +:+ s = "" \/ stem +:+ s = ".")).
  { intros s Hs [E|E]; apply (f_equal String.length) in E;
      rewrite length_app in E; cbn in E; lia. }
  rewrite !decide_False by auto.
  intros E. apply String.app_inj in E. apply String.app_inj in E.
  by apply String.app_inj in E.
Qed.

Section DownloadTheorems.
Context (env : Env).

Local Abbreviation episode_paths := (Paths.episode_paths (BASE_DATA_DIR env)).

Lemma audio_part_distinct podcast guid title :
  Paths.audio (episode_paths podcast guid title) <>
  Paths.audio_part (episode_paths podcast guid title).
Proof.
  cbn [Paths.audio Paths.audio_part Paths.episode_paths]. intros E.
  apply join_child_inj in E; [discriminate|cbn; lia|cbn; lia].
Qed.

(** The lines of [download_episode] from the rename to the end, run on a
    world whose partial file holds an acceptable body. *)
Lemma download_commit_run podcast guid title audio_url final w :
  let audio := Paths.audio (episode_paths podcast guid title) in
  let part := Paths.audio_part (episode_paths podcast guid title) in
  files w !! part = Some final ->
  (MIN_FILE_SIZE <= String.length final)%nat ->
  exists w',
    (safe_file_rename part audio;;
     ex ← exists_ audio;
     small ← (if ex : bool then sz ← st_size audio; mret (sz <? MIN_FILE_SIZE)%nat
              else mret true);
     if small : bool then raise RuntimeError
     else
       update_episode_state env podcast guid
         {[ "title" := VStr title; "audio_url" := VStr audio_url;
            "status" := VStr "downloaded";
            "files" := VDict {[ "audio" := audio ]} ]};;
       mret audio) w = (inr audio, w') /\
    files w' !! audio = Some final /\ files w' !! part = None /\
    trace w' = trace w /\
    persisted_status env w' podcast guid = Some (VStr "downloaded").
Proof.
  intros audio part Hpart Hsize.
  pose proof (audio_part_distinct podcast guid title) as Hne. fold audio part in Hne.
  assert (Hrename : exists w1,
            safe_file_rename part audio w = (inr tt, w1) /\
            files w1 !! audio = Some final /\ files w1 !! part = None /\
            trace w1 = trace w /\ manifests w1 = manifests w).
  { unfold safe_file_rename.
    rewrite run_bind, exists_run, path_exists_file by apply audio_not_dir.
    destruct (files w !! audio) as [s|] eqn:Ha.
    - rewrite bool_decide_eq_true_2 by eauto.
      rewrite run_bind, (unlink_run audio w s Ha).
      unfold replace_file. rewrite run_bind. unfold get_world at 1.
      cbn [files set_files]. rewrite lookup_delete_ne, Hpart by done.
      eexists. split; [reflexivity|]. cbn [files set_files trace manifests].
      rewrite lookup_insert_eq, lookup_insert_ne, lookup_delete_eq by done. done.
    - rewrite bool_decide_eq_false_2 by (intros [? ?]; discriminate).
      rewrite run_bind, run_ret.
      unfold replace_file. rewrite run_bind. unfold get_world at 1. rewrite Hpart.
      eexists. split; [reflexivity|]. cbn [files set_files trace manifests].
      rewrite lookup_insert_eq, lookup_insert_ne, lookup_delete_eq by done. done. }
  destruct Hrename as (w1 & Hrun & Ha & Hp & Ht & Hm).
  rewrite run_bind, Hrun.
  rewrite run_bind, exists_run, path_exists_file by apply audio_not_dir.
  fold audio. rewrite bool_decide_eq_true_2 by (rewrite Ha; eauto).
  rewrite run_bind, run_bind, (st_size_run audio w1 final) by (done || apply audio_not_dir).
  rewrite run_ret.
  assert (Hs : (String.length final <? MIN_FILE_SIZE)%nat = false) by (apply Nat.ltb_ge; lia).
  rewrite Hs. rewrite run_bind, update_episode_state_run.
  eexists. split; [reflexivity|].
  unfold updated, set_manifests. cbn [files trace].
  split; [done|]. split; [done|]. split; [done|].
  unfold persisted_status, persisted_record. cbn [manifests].
  rewrite lookup_insert_eq. cbn [mbind option_bind episodes].
  rewrite lookup_insert_eq. cbn [mbind option_bind].
  apply lookup_union_Some_l.
  rewrite lookup_insert_ne by done. rewrite lookup_insert_ne by done.
  apply lookup_insert_eq.
Qed.

(** X5.  A download that raises leaves every ledger, index and persona
    as it was.  For an invalid URL nothing at all has happened; otherwise
    the partial file has been removed. *)
Theorem download_episode_failure podcast guid title audio_url w e w' :
  download_episode env podcast guid title audio_url w = (inl e, w') ->
  stores w' = stores w /\
  ((valid_url audio_url = false /\ e = ValueError /\ w' = w) \/
   (valid_url audio_url = true /\
    files w' !! Paths.audio_part (episode_paths podcast guid title) = None)).
Proof.
  unfold download_episode. rewrite run_bind, episode_done_at_least_run.
  rewrite download_gate_run.
  destruct (audio_intact env w podcast guid title); [discriminate|].
  destruct (valid_url audio_url); cbn [negb].
  2:{ intros [= <- <-]. split; [done|]. by left. }
  intros H. apply run_try_cases in H as [(x & _ & [=])|(e0 & w1 & Hb & Hh)].
  assert (Hs1 : stores w1 = stores w).
  { revert Hb.
    assert (Hpure : forall A (m : M A) wa r wb, respects eq m -> m wa = (r, wb) -> wb = wa).
    { intros A m wa r wb Hm Hr. symmetry. by eapply Hm. }
    intros Hb.
    apply run_bind_cases in Hb as [(e1 & He & _)|(ex & wa & Hex & Hb)].
    { by rewrite (Hpure _ _ _ _ _ (exists_pure _) He). }
    apply (Hpure _ _ _ _ _ (exists_pure _)) in Hex. subst wa.
    apply run_bind_cases in Hb as [(e1 & He & _)|(rf & wa & Hrf & Hb)].
    { destruct ex; [by rewrite (Hpure _ _ _ _ _ (st_size_pure _) He)|discriminate]. }
    assert (wa = w).
    { destruct ex; [by apply (Hpure _ _ _ _ _ (st_size_pure _) Hrf)|by injection Hrf]. }
    subst wa.
    apply run_bind_cases in Hb as [(e1 & He & _)|([] & wa & Hr & Hb)].
    { by apply download_rounds_stores in He. }
    apply download_rounds_stores in Hr.
    apply run_bind_cases in Hb as [(e1 & He & _)|([] & wb & Hn & Hb)].
    { apply (safe_file_rename_kept stores (fun _ _ => eq_refl)) in He.
      unfold kept in *. congruence. }
    apply (safe_file_rename_kept stores (fun _ _ => eq_refl)) in Hn.
    apply run_bind_cases in Hb as [(e1 & He & _)|(ex2 & wc & Hex & Hb)].
    { apply (Hpure _ _ _ _ _ (exists_pure _)) in He. unfold kept in *. congruence. }
    apply (Hpure _ _ _ _ _ (exists_pure _)) in Hex. subst wc.
    apply run_bind_cases in Hb as [(e1 & He & _)|(small & wc & Hsm & Hb)].
    { destruct ex2; [|discriminate].
      apply run_bind_cases in He as [(e2 & He & _)|(sz & wd & Hsz & He)].
      - apply (Hpure _ _ _ _ _ (st_size_pure _)) in He. unfold kept in *. congruence.
      - discriminate. }
    assert (wc = wb).
    { destruct ex2; [|by injection Hsm].
      apply run_bind_cases in Hsm as [(e2 & He & [=])|(sz & wd & Hsz & Hsm)].
      apply (Hpure _ _ _ _ _ (st_size_pure _)) in Hsz. subst wd. by injection Hsm. }
    subst wc. destruct small.
    - injection Hb as _ <-. unfold kept in *. congruence.
    - rewrite run_bind, update_episode_state_run in Hb. discriminate. }
  rewrite run_bind in Hh.
  destruct (cleanup_failed_download_run
              (Paths.audio_part (episode_paths podcast guid title))
              (Paths.audio (episode_paths podcast guid title)) w1 (part_not_dir _ _ _ _))
    as (w2 & Hc & Hgone & Hs2 & _).
  rewrite Hc in Hh. injection Hh as _ <-.
  split; [congruence|]. right. done.
Qed.

Lemma respects_try_gen {A} (R1 R2 R3 : world -> world -> Prop)
    (body : M A) (h : exn -> M A) :
  (forall a b, R1 a b -> R3 a b) ->
  (forall a b c, R1 a b -> R2 b c -> R3 a c) ->
  respects R1 body -> (forall e, respects R2 (h e)) -> respects R3 (try_except body h).
Proof.
  intros H13 H123 Hm Hh w r w' Hrun.
  apply run_try_cases in Hrun as [(x & Hx & _)|(e & w1 & He & Hrun)].
  - apply H13. by eapply Hm.
  - eapply H123; [by eapply Hm|by eapply Hh].
Qed.

(** X6.  Whatever the server does and however the call ends, one call
    of [download_episode] sends at most [MAX_RETRIES] requests, all of
    them GETs of the audio URL; a call that finds the episode intact or
    the URL invalid sends none. *)
Theorem download_episode_requests podcast guid title audio_url w r w' :
  download_episode env podcast guid title audio_url w = (r, w') ->
  fetched audio_url MAX_RETRIES w w' /\
  (audio_intact env w podcast guid title = true \/ valid_url audio_url = false ->
   trace w' = trace w).
Proof.
  unfold download_episode. rewrite run_bind, episode_done_at_least_run.
  rewrite download_gate_run.
  destruct (audio_intact env w podcast guid title).
  { intros [= _ <-]. split; [apply fetched_refl|done]. }
  destruct (valid_url audio_url); cbn [negb].
  2:{ intros [= _ <-]. split; [apply fetched_refl|done]. }
  intros H. split; [|intros [?|?]; discriminate]. revert H.
  match goal with |- ?m w = _ -> _ => assert (Hm : respects (fetched audio_url MAX_RETRIES) m) end.
  2:{ apply Hm. }
  apply (respects_try_gen (fetched audio_url MAX_RETRIES) (kept trace));
    [done|apply fetched_kept_r| |].
  2:{ intros e0. respects_files. }
  apply (respects_bind_gen eq (fetched audio_url MAX_RETRIES));
    [intros a b ->; apply fetched_refl|by intros a b c ->|apply exists_pure|].
  intros ex.
  apply (respects_bind_gen eq (fetched audio_url MAX_RETRIES));
    [intros a b ->; apply fetched_refl|by intros a b c ->| |].
  { destruct ex; [apply st_size_pure|apply respects_ret; typeclasses eauto]. }
  intros rf.
  apply (respects_bind_gen (fetched audio_url MAX_RETRIES) (kept trace));
    [done|apply fetched_kept_r|apply download_rounds_trace|].
  intros _. repeat first [apply update_episode_state_trace | respects_files_step].
Qed.

(** X7.  A download that returns has returned the audio path; the
    ledger then holds a status for the episode that is downloaded or
    later, and the audio file is on disk with at least [MIN_FILE_SIZE]
    bytes. *)
Theorem download_episode_postcondition podcast guid title audio_url w r w' :
  download_episode env podcast guid title audio_url w = (inr r, w') ->
  r = Paths.audio (episode_paths podcast guid title) /\
  persisted_status env w' podcast guid <> None /\
  reached env w' podcast guid "downloaded" = true /\
  (exists s, files w' !! Paths.audio (episode_paths podcast guid title) = Some s /\
             (MIN_FILE_SIZE <= String.length s)%nat).
Proof.
  intros H.
  apply download_episode_returns in H as (-> & Hr & Hs).
  split; [done|]. split; [|split; [done|done]].
  intros Hn. unfold reached in Hr. unfold persisted_status in Hn.
  rewrite persisted_record_manifest in Hn.
  destruct (episodes _ !! guid) as [epi|]; [|discriminate].
  destruct (decide (epi = ∅)); [discriminate|]. cbn in Hn. rewrite Hn in Hr.
  cbn [default from_option id] in Hr.
  rewrite (rank_of_other (VStr "")) in Hr by (by intros []). discriminate.
Qed.

(** X8.  When the first request is answered in full, the artifact holds
    exactly the bytes the code means to keep.  With a partial file of
    [n > 0] bytes the request carries [Range: bytes=n-]; on 206 the body
    is appended to the partial file, on 200 the partial file is dropped
    and the body stands alone.  Without a partial file, or with an empty
    one, no range is asked for and the body stands alone.  If the result
    has at least [MIN_FILE_SIZE] bytes it becomes the audio file, the
    partial file is gone, one request was sent and the ledger says
    downloaded. *)
Theorem download_first_round podcast guid title audio_url w old code body :
  let audio := Paths.audio (episode_paths podcast guid title) in
  let part := Paths.audio_part (episode_paths podcast guid title) in
  let resume_from := String.length (default "" old) in
  let range := if (0 <? resume_from)%nat then Some resume_from else None in
  let final := if (0 <? resume_from)%nat && bool_decide (code = 206%nat)
               then default "" old +:+ body else body in
  audio_intact env w podcast guid title = false ->
  valid_url audio_url = true ->
  files w !! part = old ->
  http_get env (trace w) audio_url range = HttpReply code body true ->
  (code < 400 \/ 600 <= code)%nat ->
  ((0 < resume_from)%nat -> code = 206%nat \/ code = 200%nat) ->
  (MIN_FILE_SIZE <= String.length final)%nat ->
  exists w',
    download_episode env podcast guid title audio_url w = (inr audio, w') /\
    files w' !! audio = Some final /\
    files w' !! part = None /\
    trace w' = trace w ++ [EvHttpGet audio_url range] /\
    persisted_status env w' podcast guid = Some (VStr "downloaded").
Proof.
  intros audio part resume_from range final Hi Hv Hold Hreply Hcode Hresume Hsize.
  pose proof (part_not_dir env podcast guid title) as Hpd. fold part in Hpd.
  (* the loop breaks in its first round, with the bytes in the partial file *)
  assert (Hround : exists w1,
            download_rounds env MAX_RETRIES 0 audio_url part resume_from range w
              = (inr tt, w1) /\
            files w1 !! part = Some final /\
            trace w1 = trace w ++ [EvHttpGet audio_url range] /\
            manifests w1 = manifests w).
  { unfold MAX_RETRIES. unfold download_rounds; fold download_rounds.
    rewrite run_bind. unfold download_round.
    rewrite run_bind. unfold get_world at 1.
    rewrite run_bind. unfold modify at 1. rewrite Hreply.
    assert (Hc : ((400 <=? code) && (code <? 600))%nat = false).
    { apply andb_false_iff. destruct Hcode; [left; apply Nat.leb_gt|right; apply Nat.ltb_ge]; lia. }
    rewrite Hc.
    assert (Hok : (0 <? resume_from)%nat &&
                  negb (bool_decide (code = 206%nat \/ code = 200%nat)) = false).
    { destruct (0 <? resume_from)%nat eqn:E; [|done]. apply Nat.ltb_lt in E.
      cbn [andb]. apply negb_false_iff, bool_decide_eq_true. auto. }
    rewrite Hok.
    rewrite run_bind, exists_run, path_exists_file by done.
    cbn [files log_event]. rewrite Hold.
    destruct old as [s|]; cbn [default from_option id] in *.
    - rewrite (bool_decide_eq_true_2 (is_Some (Some s))) by eauto.
      destruct ((0 <? resume_from)%nat && bool_decide (code = 206%nat)) eqn:Happ.
      + cbn [negb andb]. rewrite run_bind, run_ret.
        unfold write_chunks. rewrite run_bind, run_bind. unfold get_world at 1.
        cbn [files log_event]. rewrite Hold. cbn [default from_option id].
        unfold modify at 1. cbn [negb].
        rewrite run_bind, (st_size_run part _ final);
          [|done|cbn [files set_files log_event]; apply lookup_insert_eq].
        assert (Hs : (String.length final <? MIN_FILE_SIZE)%nat = false)
          by (apply Nat.ltb_ge; lia).
        rewrite Hs, run_ret. eexists. split; [reflexivity|].
        cbn [files set_files log_event trace manifests].
        by rewrite lookup_insert_eq.
      + cbn [negb andb].
        rewrite run_bind, (unlink_run part _ s) by (cbn [files log_event]; done).
        unfold write_chunks. rewrite run_bind, run_bind. unfold get_world at 1.
        unfold modify at 1. cbn [negb].
        rewrite run_bind, (st_size_run part _ final);
          [|done|cbn [files set_files log_event]; apply lookup_insert_eq].
        assert (Hs : (String.length final <? MIN_FILE_SIZE)%nat = false)
          by (apply Nat.ltb_ge; lia).
        rewrite Hs, run_ret. eexists. split; [reflexivity|].
        cbn [files set_files log_event trace manifests].
        by rewrite lookup_insert_eq.
    - rewrite (bool_decide_eq_false_2 (is_Some None)) by (intros [? ?]; discriminate).
      change (0 <? resume_from)%nat with false. cbn [andb negb].
      rewrite run_bind, run_ret.
      unfold write_chunks. rewrite run_bind, run_bind. unfold get_world at 1.
      unfold modify at 1.
      rewrite run_bind, (st_size_run part _ final);
        [|done|cbn [files set_files log_event]; apply lookup_insert_eq].
      assert (Hs : (String.length final <? MIN_FILE_SIZE)%nat = false)
        by (apply Nat.ltb_ge; lia).
      rewrite Hs, run_ret. eexists. split; [reflexivity|].
      cbn [files set_files log_event trace manifests].
      by rewrite lookup_insert_eq. }
  destruct Hround as (w1 & Hrounds & Hp1 & Ht1 & Hm1).
  destruct (download_commit_run podcast guid title audio_url final w1 Hp1 Hsize)
    as (w' & Hcommit & Ha & Hp & Ht & Hst).
  exists w'. split; [|by rewrite Ht, Ht1].
  unfold download_episode. rewrite run_bind, episode_done_at_least_run.
  rewrite download_gate_run, Hi, Hv. cbn [negb]. unfold try_except.
  rewrite run_bind, exists_run, path_exists_file by done. fold part. rewrite Hold.
  assert (Hrf : forall (k : nat -> M string),
            ((if bool_decide (is_Some old) then st_size part else mret 0%nat) ≫= k) w
            = k resume_from w).
  { intros k. destruct old as [s|].
    - rewrite bool_decide_eq_true_2 by eauto.
      by rewrite run_bind, (st_size_run part w s).
    - by rewrite bool_decide_eq_false_2 by (intros [? ?]; discriminate). }
  rewrite Hrf. fold range. rewrite run_bind, Hrounds.
  cbv beta zeta in Hcommit |- *. fold audio part in Hcommit |- *. by rewrite Hcommit.
Qed.

End DownloadTheorems.

(** X5 at work: the server is out of reach, the call raises after its
    three rounds and the ledger of the podcast is as it was. *)
Lemma download_episode_failure_witness :
  exists w',
    download_episode quiet_env "Pod" "e1" "Pilot" "https://x/a.mp3" interrupted_world
      = (inl RuntimeError, w') /\
    stores w' = stores interrupted_world /\
    files w' !! Paths.audio_part (Paths.episode_paths "data" "Pod" "e1" "Pilot") = None.
Proof.
  eexists. split; [vm_compute; reflexivity|].
  edestruct (download_episode_failure quiet_env "Pod" "e1" "Pilot" "https://x/a.mp3"
               interrupted_world) as [Hs [(Hv & _)|(_ & Hp)]].
  { vm_compute; reflexivity. }
  - discriminate Hv.
  - split; [exact Hs|exact Hp].
Defined.

(** X6 at work: the server is out of reach and the call gives up after
    at most three requests. *)
Lemma download_episode_requests_witness :
  exists r w',
    download_episode quiet_env "Pod" "e1" "Pilot" "https://x/a.mp3" feed_world = (r, w') /\
    fetched "https://x/a.mp3" MAX_RETRIES feed_world w'.
Proof.
  eexists. eexists. split; [vm_compute; reflexivity|].
  eapply (download_episode_requests quiet_env "Pod" "e1" "Pilot" "https://x/a.mp3" feed_world).
  vm_compute; reflexivity.
Defined.

(** X7 at work: 2000 bytes arrive, and the ledger says downloaded. *)
Lemma download_episode_postcondition_witness :
  exists r w',
    download_episode (audio_env 2000) "Pod" "e1" "Pilot" "https://x/a.mp3" feed_world
      = (inr r, w') /\
    reached (audio_env 2000) w' "Pod" "e1" "downloaded" = true.
Proof.
  eexists. eexists. split; [vm_compute; reflexivity|].
  edestruct (download_episode_postcondition (audio_env 2000) "Pod" "e1" "Pilot"
               "https://x/a.mp3" feed_world) as (_ & _ & Hr & _).
  { vm_compute; reflexivity. }
  exact Hr.
Defined.

(** X8 at work: 500 bytes are on disk, the server sends the 600 that
    were missing, and the audio file holds the 1100 bytes. *)
Lemma download_first_round_witness :
  exists w',
    download_episode resuming_env "Pod" "e1" "Pilot" "https://x/a.mp3" interrupted_world
      = (inr (Paths.audio (Paths.episode_paths "data" "Pod" "e1" "Pilot")), w') /\
    files w' !! Paths.audio (Paths.episode_paths "data" "Pod" "e1" "Pilot")
      = Some (bytes 500 +:+ bytes 600) /\
    files w' !! Paths.audio_part (Paths.episode_paths "data" "Pod" "e1" "Pilot") = None /\
    trace w' = [EvHttpGet "https://x/a.mp3" (Some 500%nat)] /\
    persisted_status resuming_env w' "Pod" "e1" = Some (VStr "downloaded").
Proof.
  apply (download_first_round resuming_env "Pod" "e1" "Pilot" "https://x/a.mp3"
           interrupted_world (Some (bytes 500)) 206 (bytes 600)).
  - vm_compute; reflexivity.
  - vm_compute; reflexivity.
  - vm_compute; reflexivity.
  - vm_compute; reflexivity.
  - left. apply Nat.ltb_lt. vm_compute; reflexivity.
  - intros _. left. reflexivity.
  - apply Nat.leb_le. vm_compute; reflexivity.
Defined.

(* ================================================================== *)
(** * Further facts on the transcription stage                        *)
(* ================================================================== *)

Lemma polled_refl tid n w : polled tid n w w.
Proof. exists []. split; [by rewrite app_nil_r|]. split; [cbn; lia|constructor]. Qed.

Lemma polled_step tid n m w w1 w' :
  trace w1 = trace w ++ [EvSttPoll tid] -> (S n <= m)%nat ->
  polled tid n w1 w' -> polled tid m w w'.
Proof.
  intros H1 Hm (l & Hl & Hn & Hf). exists (EvSttPoll tid :: l).
  split; [by rewrite Hl, H1, <- app_assoc|].
  split; [cbn; lia|by constructor].
Qed.

Lemma polled_one tid m w w' :
  trace w' = trace w ++ [EvSttPoll tid] -> (1 <= m)%nat -> polled tid m w w'.
Proof.
  intros H Hm. exists [EvSttPoll tid]. split; [done|]. split; [cbn; lia|].
  by repeat constructor.
Qed.

Section TranscribeMore.
Context (env : Env).

Local Abbreviation episode_paths := (Paths.episode_paths (BASE_DATA_DIR env)).

(** What the polling of a job comes to, entered with a count of at most
    360: it sends polls of that job only, no more than the count leaves
    room for, and either writes the transcript and records it or raises
    [RuntimeError] with the files and the ledgers as they were. *)
Lemma poll_loop_outcome left poll_count podcast guid title tid w r w' :
  (poll_count <= 360)%nat ->
  poll_loop env (raise RuntimeError) left poll_count podcast guid tid
    (Paths.raw (episode_paths podcast guid title)) w = (r, w') ->
  polled tid (361 - poll_count) w w' /\
  ((r = inr (Paths.raw (episode_paths podcast guid title)) /\
    reached env w' podcast guid "transcribed" = true /\
    exists text, text <> "" /\
      files w' !! Paths.raw (episode_paths podcast guid title) = Some text) \/
   (r = inl RuntimeError /\ files w' = files w /\ manifests w' = manifests w)).
Proof.
  revert poll_count w. induction left as [|left IH]; intros poll_count w Hc.
  { intros [= <- <-]. split; [apply polled_refl|by right]. }
  cbn [poll_loop]. rewrite run_bind. unfold get_world at 1.
  rewrite run_bind. unfold modify at 1.
  set (w1 := log_event (EvSttPoll tid) w).
  assert (Ht1 : trace w1 = trace w ++ [EvSttPoll tid]) by done.
  destruct (stt_poll env (trace w) tid) as [|status text].
  - destruct (10 <? poll_count)%nat eqn:E.
    { intros [= <- <-]. split; [apply polled_one; [done|lia]|by right]. }
    apply Nat.ltb_ge in E. intros H. apply IH in H as [Hp Hr]; [|lia].
    split; [eapply polled_step; [exact Ht1| |exact Hp]; lia|exact Hr].
  - destruct (bool_decide (status = "completed")).
    + destruct (bool_decide (text = "")) eqn:Etext.
      { intros [= <- <-]. split; [apply polled_one; [done|lia]|by right]. }
      apply bool_decide_eq_false in Etext.
      rewrite run_bind, write_text_run by apply raw_not_dir.
      rewrite run_bind, update_episode_state_run. intros [= <- <-].
      split; [apply polled_one; [done|lia]|]. left. split; [done|].
      split; [by rewrite (reached_updated env _ _ _ _ Transcribed Transcribed)|].
      exists text. split; [done|].
      unfold updated, set_manifests. cbn [files set_files]. apply lookup_insert_eq.
    + destruct (bool_decide (status = "error")).
      { intros [= <- <-]. split; [apply polled_one; [done|lia]|by right]. }
      destruct (360 <? S poll_count)%nat eqn:E.
      { intros [= <- <-]. split; [apply polled_one; [done|lia]|by right]. }
      apply Nat.ltb_ge in E. intros H. apply IH in H as [Hp Hr]; [|lia].
      split; [eapply polled_step; [exact Ht1| |exact Hp]; lia|exact Hr].
Qed.

(** X9.  A transcript found on disk is adopted.  When the ledger does
    not say transcribed but the raw transcript is there with at least
    one byte, [transcribe_episode] returns its path and records the
    status transcribed; it sends no request and touches no file, and it
    does so whether or not the audio file exists. *)
Theorem transcribe_episode_adopts_transcript podcast guid title w :
  reached env w podcast guid "transcribed" = false ->
  raw_written env w podcast guid title = true ->
  exists w',
    transcribe_episode env podcast guid title w
      = (inr (Paths.raw (episode_paths podcast guid title)), w') /\
    trace w' = trace w /\ files w' = files w /\
    persisted_status env w' podcast guid = Some (VStr "transcribed").
Proof.
  intros Hr Hraw. unfold transcribe_episode.
  rewrite run_bind, episode_done_at_least_run, Hr.
  rewrite raw_gate_run, Hraw.
  rewrite run_bind, update_episode_state_run.
  eexists. split; [reflexivity|]. split; [done|]. split; [done|].
  unfold persisted_status, persisted_record, updated, set_manifests. cbn [manifests].
  rewrite lookup_insert_eq. cbn [mbind option_bind episodes].
  rewrite lookup_insert_eq. cbn [mbind option_bind].
  apply lookup_union_Some_l. apply lookup_insert_eq.
Qed.

(** X10.  A recorded job is awaited, not started again.  When the ledger
    holds a transcription job for an episode that is not yet transcribed
    and has no transcript on disk, [transcribe_episode] uploads nothing
    and submits nothing: all it sends is polls of that job, at most 361
    of them.  It either returns the raw path with the transcript written
    and recorded, or raises [RuntimeError] with the files and the
    ledgers as they were. *)
Theorem transcribe_episode_resumes_job podcast guid title tid w r w' :
  reached env w podcast guid "transcribed" = false ->
  raw_written env w podcast guid title = false ->
  recorded_job env w podcast guid = Some (VStr tid) -> tid <> "" ->
  transcribe_episode env podcast guid title w = (r, w') ->
  polled tid 361 w w' /\
  ((r = inr (Paths.raw (episode_paths podcast guid title)) /\
    reached env w' podcast guid "transcribed" = true /\
    exists text, text <> "" /\
      files w' !! Paths.raw (episode_paths podcast guid title) = Some text) \/
   (r = inl RuntimeError /\ files w' = files w /\ manifests w' = manifests w)).
Proof.
  intros Hr Hraw Hjob Htid. unfold transcribe_episode.
  rewrite run_bind, episode_done_at_least_run, Hr.
  rewrite raw_gate_run, Hraw.
  rewrite run_bind, load_manifest_run.
  unfold recorded_job in Hjob. rewrite Hjob.
  cbn [truthy]. rewrite bool_decide_eq_false_2 by done. cbn [negb].
  rewrite run_bind, run_ret. cbn [default from_option id value_text].
  intros H. apply poll_loop_outcome in H; [|lia]. exact H.
Qed.

(** X11.  The requests of one call of [transcribe_episode], however it
    ends: at most one upload, which is of the audio file of the episode,
    then at most one job submission, then polls of one job, at most 361
    of them. *)
Theorem transcribe_episode_requests podcast guid title w r w' :
  transcribe_episode env podcast guid title w = (r, w') ->
  exists pre polls tid,
    trace w' = trace w ++ pre ++ polls /\
    (pre = [] \/
     pre = [EvSttUpload (Paths.audio (episode_paths podcast guid title))] \/
     exists upload_url,
       pre = [EvSttUpload (Paths.audio (episode_paths podcast guid title));
              EvSttSubmit upload_url]) /\
    Forall (fun e => e = EvSttPoll tid) polls /\ (length polls <= 361)%nat.
Proof.
  assert (Hnone : forall pre,
            trace w' = trace w ++ pre ->
            (pre = [] \/
             pre = [EvSttUpload (Paths.audio (episode_paths podcast guid title))] \/
             exists upload_url,
               pre = [EvSttUpload (Paths.audio (episode_paths podcast guid title));
                      EvSttSubmit upload_url]) ->
            exists pre polls tid,
              trace w' = trace w ++ pre ++ polls /\
              (pre = [] \/
               pre = [EvSttUpload (Paths.audio (episode_paths podcast guid title))] \/
               exists upload_url,
                 pre = [EvSttUpload (Paths.audio (episode_paths podcast guid title));
                        EvSttSubmit upload_url]) /\
              Forall (fun e => e = EvSttPoll tid) polls /\ (length polls <= 361)%nat).
  { intros pre Ht Hpre. exists pre, [], "". rewrite app_nil_r.
    split; [done|]. split; [done|]. split; [constructor|cbn; lia]. }
  unfold transcribe_episode.
  rewrite run_bind, episode_done_at_least_run.
  destruct (reached env w podcast guid "transcribed").
  { intros [= _ <-]. apply (Hnone []); [by rewrite app_nil_r|by left]. }
  rewrite raw_gate_run.
  destruct (raw_written env w podcast guid title).
  { rewrite run_bind, update_episode_state_run. intros [= _ <-].
    apply (Hnone []); [by rewrite app_nil_r|by left]. }
  rewrite run_bind, load_manifest_run. rewrite run_bind.
  destruct (truthy _).
  { cbn [negb]. rewrite run_ret. intros H.
    apply poll_loop_outcome in H as [(l & Hl & Hn & Hf) _]; [|lia].
    exists [], l, (value_text (default (VStr "")
                     (default ∅ (episodes (the_manifest env w podcast) !! guid)
                        !! "transcript_id"))).
    split; [done|]. split; [by left|]. split; [done|lia]. }
  cbn [negb]. rewrite run_bind, exists_run.
  destruct (path_exists w _).
  2:{ intros [= _ <-]. apply (Hnone []); [by rewrite app_nil_r|by left]. }
  cbn [negb]. unfold upload_file. rewrite !run_bind. unfold get_world at 1.
  rewrite run_bind. unfold modify at 1.
  destruct (stt_upload env (trace w) _) as [upload_url|].
  2:{ intros [= _ <-]. eapply (Hnone [_]); [done|]. right. by left. }
  rewrite run_ret. unfold submit_job. rewrite !run_bind. unfold get_world at 1.
  rewrite run_bind. unfold modify at 1.
  destruct (stt_submit env _ upload_url) as [tid|].
  2:{ intros [= _ <-]. eapply (Hnone [_; _]); [by cbn; rewrite <- app_assoc|].
      right. right. by eexists. }
  rewrite run_ret. rewrite run_bind, update_episode_state_run. rewrite run_ret.
  intros H. apply poll_loop_outcome in H as [(l & Hl & Hn & Hf) _]; [|lia].
  exists [EvSttUpload (Paths.audio (episode_paths podcast guid title));
          EvSttSubmit upload_url], l, tid.
  split; [|split; [right; right; by eexists|split; [done|lia]]].
  rewrite Hl. unfold updated, set_manifests. cbn [trace log_event].
  by rewrite <- !app_assoc.
Qed.

End TranscribeMore.

(** X9 at work: the transcript is on disk, the ledger has the episode
    as the feed entered it, and nothing of the speech-to-text service is
    in reach. *)
Lemma transcribe_episode_adopts_transcript_witness :
  exists w',
    transcribe_episode quiet_env "Pod" "e1" "Pilot" transcript_world
      = (inr (Paths.raw (Paths.episode_paths "data" "Pod" "e1" "Pilot")), w') /\
    trace w' = [] /\ files w' = files transcript_world /\
    persisted_status quiet_env w' "Pod" "e1" = Some (VStr "transcribed").
Proof.
  apply (transcribe_episode_adopts_transcript quiet_env "Pod" "e1" "Pilot" transcript_world).
  - vm_compute; reflexivity.
  - vm_compute; reflexivity.
Defined.

(** X10 at work: the job [job1] is recorded and the audio file is gone;
    the transcript arrives at the third poll. *)
Lemma transcribe_episode_resumes_job_witness :
  exists r w',
    transcribe_episode stt_env "Pod" "e1" "Pilot" job_world = (r, w') /\
    polled "job1" 361 job_world w'.
Proof.
  eexists. eexists. split; [vm_compute; reflexivity|].
  eapply (transcribe_episode_resumes_job stt_env "Pod" "e1" "Pilot" "job1" job_world).
  - vm_compute; reflexivity.
  - vm_compute; reflexivity.
  - vm_compute; reflexivity.
  - discriminate.
  - vm_compute; reflexivity.
Defined.

(** X11 at work: a downloaded episode is uploaded, submitted and
    polled. *)
Lemma transcribe_episode_requests_witness :
  exists r w',
    transcribe_episode stt_env "Pod" "e1" "Pilot" audio_world = (r, w') /\
    exists pre polls tid,
      trace w' = trace audio_world ++ pre ++ polls /\
      Forall (fun e => e = EvSttPoll tid) polls /\ (length polls <= 361)%nat.
Proof.
  eexists. eexists. split; [vm_compute; reflexivity|].
  edestruct (transcribe_episode_requests stt_env "Pod" "e1" "Pilot" audio_world)
    as (pre & polls & tid & Ht & _ & Hf & Hn).
  { vm_compute; reflexivity. }
  exists pre, polls, tid. split; [exact Ht|]. split; [exact Hf|exact Hn].
Defined.

(* ================================================================== *)
(** * Further facts on the index, the PDF and the endpoint            *)
(* ================================================================== *)

Lemma path_of_empty_is_dir : is_dir (Paths.Path "") = true.
Proof. reflexivity. Qed.

Lemma path_exists_dir w p : is_dir p = true -> path_exists w p = true.
Proof. intros H. unfold path_exists. by rewrite H. Qed.

Lemma read_text_dir p w : is_dir p = true -> read_text p w = (inl IsADirectoryError, w).
Proof. intros H. unfold read_text. rewrite run_bind. unfold get_world at 1. by rewrite H. Qed.

Lemma read_text_exists p w :
  path_exists w p = true ->
  read_text p w = (inl IsADirectoryError, w) \/ exists s, read_text p w = (inr s, w).
Proof.
  unfold path_exists. destruct (is_dir p) eqn:Hd.
  { intros _. left. by apply read_text_dir. }
  cbn [orb]. intros [s Hs]%bool_decide_eq_true. right. exists s. by apply read_text_run.
Qed.

Lemma files_get_run (r : gmap string value) (key : string) w :
  files_is_dict r ->
  files_get r key w =
  (inr match r !! "files" with
       | Some (VDict d) => default "" (d !! key)
       | _ => ""
       end, w).
Proof.
  intros Hd. unfold files_get. destruct (r !! "files") as [[s|d]|] eqn:E; [|done|done].
  by destruct (Hd s).
Qed.


Lemma run_try {A} (body : M A) (h : exn -> M A) w :
  try_except body h w = match body w with
                        | (inr x, w') => (inr x, w')
                        | (inl e, w') => h e w'
                        end.
Proof. reflexivity. Qed.


Section IndexMore.
Context (env : Env).

Local Abbreviation podcast_artifacts := (Paths.podcast_artifacts (BASE_DATA_DIR env)).

Lemma for_list_reached podcast stage guids w :
  for_list guids (fun guid => episode_done_at_least env podcast guid stage) w =
  (inr (map (fun guid => reached env w podcast guid stage) guids), w).
Proof.
  induction guids as [|g guids IH]; [done|]. cbn [for_list map].
  by rewrite run_bind, episode_done_at_least_run, run_bind, IH.
Qed.

(** The test at the head of [build_embeddings]. *)
Lemma every_episode_embedded podcast w :
  forallb id (map (fun guid => reached env w podcast guid "embedded")
                (map fst (map_to_list (episodes (the_manifest env w podcast))))) = true <->
  (forall g, is_Some (persisted_record env w podcast g) ->
             reached env w podcast g "embedded" = true).
Proof.
  rewrite forallb_forall. split.
  - intros H g Hg. rewrite persisted_record_manifest in Hg.
    apply guid_listed, list_elem_of_In in Hg.
    apply (H (reached env w podcast g "embedded")), in_map_iff. eauto.
  - intros H b (g & <- & Hin)%in_map_iff. apply H.
    rewrite persisted_record_manifest. by apply guid_listed, list_elem_of_In.
Qed.

Lemma collect_clean_pure eps texts metas : respects eq (collect_clean eps texts metas).
Proof.
  revert texts metas. induction eps as [|[g r] eps IH]; intros texts metas.
  { apply respects_ret. typeclasses eauto. }
  cbn [collect_clean].
  apply respects_bind; try typeclasses eauto.
  { unfold files_get. destruct (r !! "files") as [[s|d]|];
      (apply respects_ret || apply respects_raise); typeclasses eauto. }
  intros recorded. apply respects_bind; try typeclasses eauto; [apply exists_pure|].
  intros [|]; [|apply IH].
  apply respects_bind; try typeclasses eauto; [apply read_text_pure|].
  intros txt. apply IH.
Qed.

Lemma pdf_story_pure eps story : respects eq (pdf_story eps story).
Proof.
  revert story. induction eps as [|[g r] eps IH]; intros story.
  { apply respects_ret. typeclasses eauto. }
  cbn [pdf_story].
  apply respects_bind; try typeclasses eauto.
  { unfold files_get. destruct (r !! "files") as [[s|d]|];
      (apply respects_ret || apply respects_raise); typeclasses eauto. }
  intros recorded. apply respects_bind; try typeclasses eauto; [apply exists_pure|].
  intros ex. apply respects_bind; try typeclasses eauto.
  { destruct ex; [apply read_text_pure|apply respects_ret; typeclasses eauto]. }
  intros text. apply IH.
Qed.

(** A record without the path of a cleaned transcript stops the loop
    over the cleaned files: the empty path is the current directory,
    which exists and cannot be read as a file. *)
Lemma collect_clean_raises eps texts metas w :
  (forall g r, (g, r) ∈ eps -> files_is_dict r) ->
  (exists g r, (g, r) ∈ eps /\ recorded_clean r = "") ->
  collect_clean eps texts metas w = (inl IsADirectoryError, w).
Proof.
  revert texts metas. induction eps as [|[g r] eps IH]; intros texts metas Hd Hm.
  { destruct Hm as (g & r & Hin & _). by apply elem_of_nil in Hin. }
  cbn [collect_clean].
  rewrite run_bind, files_get_run by (apply (Hd g); left).
  fold (recorded_clean r).
  assert (Htail : recorded_clean r <> "" -> exists g r, (g, r) ∈ eps /\ recorded_clean r = "").
  { intros Hne. destruct Hm as (g' & r' & Hin & Hr').
    apply elem_of_cons in Hin as [[= -> ->]|Hin]; [done|eauto]. }
  assert (Hd' : forall g r, (g, r) ∈ eps -> files_is_dict r).
  { intros g' r' Hin. apply (Hd g'). by right. }
  rewrite run_bind, exists_run.
  destruct (decide (recorded_clean r = "")) as [E|E].
  { rewrite E, path_exists_dir by done. by rewrite run_bind, read_text_dir. }
  destruct (path_exists w (Paths.Path (recorded_clean r))) eqn:Ex; [|by apply IH; auto].
  rewrite run_bind.
  destruct (read_text_exists _ _ Ex) as [Hr|[s Hr]]; rewrite Hr; [done|].
  apply IH; auto.
Qed.


Lemma listed_record podcast w g r :
  (g, r) ∈ map_to_list (episodes (the_manifest env w podcast)) <->
  persisted_record env w podcast g = Some r.
Proof. by rewrite persisted_record_manifest, elem_of_map_to_list. Qed.

(** X12.  When every episode of the ledger is at embedded or beyond,
    which includes the ledger without episodes, [build_embeddings]
    returns the path of the index and does nothing else.  It does not
    look whether the index is there. *)
Theorem build_embeddings_all_embedded podcast w :
  (forall g, is_Some (persisted_record env w podcast g) ->
             reached env w podcast g "embedded" = true) ->
  build_embeddings env podcast w
    = (inr (Some (Paths.faiss (podcast_artifacts podcast))), w).
Proof.
  intros H. apply every_episode_embedded in H.
  unfold build_embeddings.
  by rewrite run_bind, load_manifest_run, run_bind, for_list_reached, H.
Qed.

(** X13.  An episode whose record names no cleaned transcript makes the
    rebuild of the index fail.  When some episode is below embedded and
    some record, with [files] a dictionary wherever it is there, holds
    no path under [files.clean], [build_embeddings] raises
    [IsADirectoryError] and leaves the world as it was: the missing path
    is read as the path of the current directory. *)
Theorem build_embeddings_missing_clean_path podcast w g0 g r :
  is_Some (persisted_record env w podcast g0) ->
  reached env w podcast g0 "embedded" = false ->
  (forall g r, persisted_record env w podcast g = Some r -> files_is_dict r) ->
  persisted_record env w podcast g = Some r -> recorded_clean r = "" ->
  build_embeddings env podcast w = (inl IsADirectoryError, w).
Proof.
  intros Hg0 Hr0 Hd Hg Hr.
  unfold build_embeddings.
  rewrite run_bind, load_manifest_run, run_bind, for_list_reached.
  destruct (forallb id _) eqn:E.
  { pose proof (proj1 (every_episode_embedded podcast w) E g0 Hg0) as E0. congruence. }
  rewrite run_bind, load_manifest_run, run_bind.
  rewrite collect_clean_raises; [done| |].
  - intros g' r' Hin. apply (Hd g'). by apply listed_record.
  - exists g, r. split; [by apply listed_record|done].
Qed.


(** The texts and the entries that the loop collects go in pairs, and
    every entry carries the guid of a record of the list. *)
Lemma collect_clean_returns eps texts metas w texts' metas' w' :
  collect_clean eps texts metas w = (inr (texts', metas'), w') ->
  length texts = length metas ->
  length texts' = length metas' /\
  (length texts <= length texts')%nat /\
  forall m, m ∈ metas' -> m ∈ metas \/ meta_guid m ∈ map fst eps.
Proof.
  revert texts metas w. induction eps as [|[g r] eps IH]; intros texts metas w.
  { intros [= <- <- _] Hl. split; [done|]. split; [done|]. auto. }
  cbn [collect_clean]. intros H Hl.
  apply run_bind_inv in H as (recorded & w1 & _ & H).
  apply run_bind_inv in H as (ex & w2 & _ & H).
  destruct ex.
  - apply run_bind_inv in H as (txt & w3 & _ & H).
    apply IH in H as (Hl' & Hle & Hm); [|by rewrite !List.length_app; cbn; lia].
    split; [done|]. split; [rewrite List.length_app in Hle; lia|].
    intros m Hin. destruct (Hm m Hin) as [Hold|Hnew].
    + apply elem_of_app in Hold as [Hold|Hone]; [by left|].
      apply list_elem_of_singleton in Hone as ->. right. cbn. by left.
    + right. cbn. by right.
  - apply IH in H as (Hl' & Hle & Hm); [|done].
    split; [done|]. split; [done|].
    intros m Hin. destruct (Hm m Hin) as [Hold|Hnew]; [by left|]. right. cbn. by right.
Qed.

(** X15.  What a call of [build_embeddings] that returns has done.  It
    sends no request and touches no file.  When it returns no path, the
    world is as it was.  When it returns a path, it is the path of the
    index, and either every episode was embedded already and the world
    is as it was, or the index and its metadata were written together:
    as many entries as texts, at least one, every entry with the guid of
    an episode of the ledger, and every episode of the ledger now at
    embedded. *)
Theorem build_embeddings_outcome podcast w res w' :
  build_embeddings env podcast w = (inr res, w') ->
  trace w' = trace w /\ files w' = files w /\
  match res with
  | None => w' = w
  | Some p =>
      p = Paths.faiss (podcast_artifacts podcast) /\
      (w' = w \/
       exists texts metas,
         faiss_files w' !! Paths.faiss (podcast_artifacts podcast) = Some texts /\
         meta_files w' !! Paths.faiss_meta (podcast_artifacts podcast) = Some metas /\
         texts <> [] /\ length texts = length metas /\
         (forall m, m ∈ metas ->
                    is_Some (persisted_record env w podcast (meta_guid m))) /\
         (forall g, is_Some (persisted_record env w podcast g) ->
                    persisted_status env w' podcast g = Some (VStr "embedded")))
  end.
Proof.
  unfold build_embeddings.
  rewrite run_bind, load_manifest_run, run_bind, for_list_reached.
  destruct (forallb id _) eqn:E.
  { intros [= <- <-]. split; [done|]. split; [done|]. split; [done|by left]. }
  rewrite run_bind, load_manifest_run, run_bind.
  destruct (collect_clean _ [] [] w) as [[e|[texts metas]] w1] eqn:Ec; [discriminate|].
  pose proof (collect_clean_pure _ _ _ _ _ _ Ec) as <-.
  apply collect_clean_returns in Ec as (Hl & _ & Hm); [|done].
  destruct (bool_decide (texts = [])) eqn:Et.
  { intros [= <- <-]. done. }
  apply bool_decide_eq_false in Et.
  rewrite run_bind. unfold modify at 1.
  set (w1 := set_index _ _ texts metas w).
  rewrite run_bind.
  destruct (for_each_mark env podcast (VStr "embedded")
              (map fst (map_to_list (episodes (the_manifest env w podcast)))) w1)
    as (w2 & Hrun & Hst).
  rewrite Hrun. intros [= <- <-].
  assert (Hk : kept artifacts w1 w2).
  { eapply (respects_for_each (kept artifacts)); [|exact Hrun].
    intros guid. apply update_episode_state_files. }
  assert (Ht : kept trace w1 w2).
  { eapply (respects_for_each (kept trace)); [|exact Hrun].
    intros guid. apply update_episode_state_trace. }
  unfold kept, artifacts in Hk. injection Hk as Hf Hfa Hme _.
  split; [by rewrite Ht|]. split; [by rewrite Hf|]. split; [done|]. right.
  exists texts, metas.
  split; [rewrite Hfa; apply lookup_insert_eq|].
  split; [rewrite Hme; apply lookup_insert_eq|].
  split; [done|]. split; [done|]. split.
  - intros m Hin. destruct (Hm m Hin) as [Hnil|Hg]; [by apply elem_of_nil in Hnil|].
    rewrite persisted_record_manifest. by apply guid_listed.
  - intros g Hg. rewrite Hst. rewrite decide_True; [done|].
    apply guid_listed. by rewrite <- persisted_record_manifest.
Qed.



Lemma mark_pdf_files podcast : respects (kept artifacts) (mark_pdf env podcast).
Proof.
  intros w r w'. unfold mark_pdf. rewrite run_bind, load_manifest_run.
  apply (respects_for_each (kept artifacts)).
  intros guid. apply update_episode_state_files.
Qed.

(** X17.  When [process_podcast] answers with success, the path it
    names is the path of the PDF of the podcast, the PDF is on disk, and
    the ledger holds no status other than pdf. *)
Theorem process_podcast_success podcast w p w' :
  process_podcast env podcast w = (inr (Success p), w') ->
  p = Paths.pdf (podcast_artifacts podcast) /\
  is_Some (files w' !! p) /\
  forall g v, persisted_status env w' podcast g = Some v -> v = VStr "pdf".
Proof.
  unfold process_podcast. intros H.
  apply run_try_cases in H as [(x & H & [= <-])|(e & w1 & _ & [=])].
  apply run_bind_inv in H as (mf & w1 & _ & H).
  apply run_bind_inv in H as ([] & w2 & _ & H).
  apply run_bind_inv in H as (idx & w3 & _ & H).
  apply run_bind_inv in H as (pdf_path & w4 & Hpdf & H).
  apply run_bind_inv in H as ([] & w5 & Hmark & H).
  injection H as -> ->.
  assert (Hp : p = Paths.pdf (podcast_artifacts podcast) /\
               is_Some (files w4 !! p)).
  { revert Hpdf. unfold generate_podcast_pdf.
    intros H. apply run_bind_inv in H as (mf' & w6 & _ & H).
    apply run_bind_inv in H as (story & w7 & _ & H).
    destruct (render_pdf env story) as [bytes|]; [|discriminate].
    apply run_bind_inv in H as ([] & w8 & Hw & H). injection H as <- <-.
    split; [done|]. revert Hw. unfold write_text.
    destruct (is_dir _); [discriminate|]. intros [= <-].
    cbn [files set_files]. rewrite lookup_insert_eq. eauto. }
  destruct Hp as [-> Hfile]. split; [done|].
  pose proof (mark_pdf_files podcast _ _ _ Hmark) as Hk.
  unfold kept, artifacts in Hk. injection Hk as Hf _ _ _.
  split; [by rewrite Hf|].
  destruct (mark_pdf_marks env podcast w4) as (w5' & Hrun & Hst).
  rewrite Hrun in Hmark. injection Hmark as <-.
  intros g v. rewrite Hst. destruct (decide _); [|discriminate]. by intros [= <-].
Qed.

End IndexMore.

(** X12 at work: nothing was ever entered for the podcast and no index
    exists, and the path of the index is returned all the same. *)
Lemma build_embeddings_all_embedded_witness :
  build_embeddings quiet_env "Pod" empty_world
    = (inr (Some (Paths.faiss (Paths.podcast_artifacts "data" "Pod"))), empty_world) /\
  faiss_files empty_world !! Paths.faiss (Paths.podcast_artifacts "data" "Pod") = None.
Proof.
  split; [|reflexivity].
  apply (build_embeddings_all_embedded quiet_env "Pod" empty_world).
  intros g [r Hr]. vm_compute in Hr. discriminate Hr.
Defined.

(** X13 at work: the episode is in the ledger as the feed entered it. *)
Lemma build_embeddings_missing_clean_path_witness :
  build_embeddings quiet_env "Pod" feed_world = (inl IsADirectoryError, feed_world).
Proof.
  apply (build_embeddings_missing_clean_path quiet_env "Pod" feed_world "e1" "e1" feed_record).
  - exists feed_record. vm_compute; reflexivity.
  - vm_compute; reflexivity.
  - intros g r Hr s.
    assert (Hg : r = feed_record).
    { unfold persisted_record in Hr. destruct (decide (g = "e1")) as [->|Hne].
      - vm_compute in Hr. by injection Hr as <-.
      - exfalso. revert Hr. unfold feed_world, ledger_world, set_manifests.
        cbn [manifests empty_world]. rewrite lookup_insert_eq. cbn [mbind option_bind episodes].
        cbn [list_to_map foldr uncurry]. rewrite lookup_insert_ne by done.
        by rewrite lookup_empty. }
    subst r. vm_compute. discriminate.
  - vm_compute; reflexivity.
  - vm_compute; reflexivity.
Defined.


(** X15 at work: the index of [grown_world] is rebuilt. *)
Lemma build_embeddings_outcome_witness :
  exists res w',
    build_embeddings quiet_env "Pod" grown_world = (inr res, w') /\
    trace w' = trace grown_world /\ files w' = files grown_world.
Proof.
  eexists. eexists. split; [vm_compute; reflexivity|].
  edestruct (build_embeddings_outcome quiet_env "Pod" grown_world) as (Ht & Hf & _).
  { vm_compute; reflexivity. }
  split; [exact Ht|exact Hf].
Defined.


(** X17 at work: the episode entered from the feed is taken through
    every stage. *)
Lemma process_podcast_success_witness :
  exists p w',
    process_podcast full_env "Pod" feed_world = (inr (Success p), w') /\
    p = Paths.pdf (Paths.podcast_artifacts "data" "Pod") /\
    is_Some (files w' !! p).
Proof.
  eexists. eexists. split; [vm_compute; reflexivity|].
  edestruct (process_podcast_success full_env "Pod" feed_world) as (Hp & Hf & _).
  { vm_compute; reflexivity. }
  split; [exact Hp|exact Hf].
Defined.

(* ================================================================== *)
(** * Further facts on retrieval                                      *)
(* ================================================================== *)

Lemma insert_desc_perm (x : episode) (l : list episode) : insert_desc x l ≡ₚ x :: l.
Proof.
  induction l as [|y l IH]; [done|]. cbn [insert_desc].
  destruct (Qltb _ _); [|done]. rewrite IH. apply Permutation_swap.
Qed.

Lemma sort_desc_perm (l : list episode) : sort_desc l ≡ₚ l.
Proof.
  induction l as [|x l IH]; [done|].
  cbn [sort_desc fold_right]. fold (sort_desc l). by rewrite insert_desc_perm, IH.
Qed.




Lemma context_of_titles (episodes : list episode) :
  Forall (fun ep => ep_text ep = "") episodes ->
  context_of episodes = titles_only episodes.
Proof.
  intros H. unfold context_of, titles_only.
  assert (H3 : Forall (fun ep => ep_text ep = "") (firstn 3 episodes)).
  { apply Forall_forall. intros ep Hin. rewrite Forall_forall in H. apply H.
    by apply (subseteq_take 3 episodes). }
  revert H3. generalize (firstn 3 episodes). intros l H3.
  match goal with
  | |- fold_left ?F _ _ = fold_left ?G _ _ =>
      assert (Hacc : forall acc, fold_left F l acc = fold_left G l acc)
  end; [|apply Hacc].
  induction H3 as [|ep l Hep Hl IH]; intros acc; [done|].
  cbn [fold_left]. rewrite Hep, bool_decide_eq_true_2 by done. apply IH.
Qed.

Section QueryMore.
Context (env : Env).

Local Abbreviation podcast_artifacts := (Paths.podcast_artifacts (BASE_DATA_DIR env)).

Lemma py_getitem_pure {A} (l : list A) idx : respects eq (py_getitem l idx).
Proof.
  unfold py_getitem. cbv zeta.
  destruct (_ || _); [apply respects_raise; typeclasses eauto|].
  destruct (l !! _); [apply respects_ret|apply respects_raise]; typeclasses eauto.
Qed.

Lemma search_results_pure metas found results :
  respects eq (search_results metas found results).
Proof.
  revert results. induction found as [|[idx dist] found IH]; intros results.
  { apply respects_ret. typeclasses eauto. }
  cbn [search_results]. destruct (_ <? _); [|apply IH].
  apply respects_bind; try typeclasses eauto; [apply py_getitem_pure|].
  intros m. apply IH.
Qed.

(** X18.  What a search may touch.  [search] writes no file, no ledger
    and no index; it sends at most one request, to the index of the
    podcast.  Without an index it returns no hit and sends nothing; with
    an index whose metadata is missing it raises [FileNotFoundError]. *)
Theorem search_footprint podcast query top_k w r w' :
  search env podcast query top_k w = (r, w') ->
  files w' = files w /\ stores w' = stores w /\
  (faiss_files w !! Paths.faiss (podcast_artifacts podcast) = None ->
   r = inr [] /\ w' = w) /\
  (is_Some (faiss_files w !! Paths.faiss (podcast_artifacts podcast)) ->
   trace w' = trace w ++ [EvSearch (Paths.faiss (podcast_artifacts podcast)) query top_k] /\
   (meta_files w !! Paths.faiss_meta (podcast_artifacts podcast) = None ->
    r = inl FileNotFoundError)).
Proof.
  unfold search. cbv zeta. rewrite run_bind. unfold get_world at 1.
  destruct (faiss_files w !! _) as [indexed|] eqn:Ei.
  2:{ intros [= <- <-]. repeat split; try done. }
  rewrite run_bind. unfold modify at 1.
  destruct (meta_files w !! _) as [metas|] eqn:Em.
  2:{ intros [= <- <-]. repeat split; try done. }
  intros H. apply search_results_pure in H. subst w'.
  repeat split; try done.
Qed.

(** X19.  The label -1, with which the index marks a neighbour it could
    not find, is below the length of the metadata and is used as an
    index from the end: the hit names the last entry of the metadata,
    with the distance that came with the label.  With empty metadata the
    search raises [IndexError]. *)
Theorem search_results_negative_label metas dist found results w :
  search_results metas ((-1, dist) :: found) results w =
  match last metas with
  | Some m => search_results metas found (results ++ [hit_of m dist]) w
  | None => (inl IndexError, w)
  end.
Proof.
  cbn [search_results].
  assert (Hlt : (-1 <? Z.of_nat (length metas)) = true) by (apply Z.ltb_lt; lia).
  rewrite Hlt, run_bind. unfold py_getitem. cbv zeta.
  change (-1 <? 0) with true. cbv iota.
  destruct metas as [|m0 metas] using rev_ind.
  { done. }
  rewrite last_snoc, List.length_app. cbn [length].
  assert (Hi : (-1 + Z.of_nat (length metas + 1) <? 0)
               || (Z.of_nat (length metas + 1) <=? -1 + Z.of_nat (length metas + 1)) = false).
  { apply orb_false_iff. split; [apply Z.ltb_ge|apply Z.leb_gt]; lia. }
  rewrite Hi.
  replace (Z.to_nat (-1 + Z.of_nat (length metas + 1))) with (length metas + 0)%nat by lia.
  rewrite lookup_app_r by lia.
  replace (length metas + 0 - length metas)%nat with 0%nat by lia. done.
Qed.

Lemma gather_episodes_texts podcasts query limit acc w pooled w' :
  gather_episodes env podcasts query limit acc w = (inr pooled, w') ->
  Forall (fun ep => ep_text ep = "" /\ ep_podcast ep ∈ podcasts) (drop (length acc) pooled) /\
  take (length acc) pooled = acc.
Proof.
  revert acc w. induction podcasts as [|p podcasts IH]; intros acc w.
  { intros [= <- _]. rewrite drop_all, firstn_all. by split. }
  cbn [gather_episodes]. intros H.
  apply run_bind_inv in H as (hits & w1 & _ & H).
  apply IH in H as [Hd Ht]. rewrite List.length_app, length_map in Hd, Ht.
  assert (Hp : pooled = take (length acc + length hits) pooled
                        ++ drop (length acc + length hits) pooled)
    by (by rewrite take_drop).
  rewrite Ht in Hp. split.
  - rewrite Hp, <- app_assoc, drop_app_length. apply Forall_app. split.
    + apply Forall_forall. intros ep (h & -> & _)%list_elem_of_fmap.
      split; [done|]. cbn. by left.
    + eapply Forall_impl; [exact Hd|]. intros ep [? ?]. split; [done|by right].
  - by rewrite Hp, <- app_assoc, take_app_length.
Qed.


(** X21.  The passages that retrieval hands on carry no text: a hit of
    [search] has a title, a guid and a score, and the text of a passage
    is read from the hit.  So the context of the prompt in content mode
    holds the titles of at most three episodes and nothing of their
    transcripts. *)
Theorem retrieved_context_is_titles podcasts query limit w eps w' :
  get_relevant_episodes env podcasts query limit w = (inr eps, w') ->
  Forall (fun ep => ep_text ep = "") eps /\
  context_of eps = titles_only eps.
Proof.
  unfold get_relevant_episodes. intros H.
  apply run_bind_inv in H as (pooled & w1 & Hg & H).
  rewrite run_ret in H. injection H as <- <-.
  apply gather_episodes_texts in Hg as [Hd _]. cbn [length drop] in Hd.
  assert (Ht : Forall (fun ep => ep_text ep = "") (firstn limit (sort_desc pooled))).
  { apply Forall_forall. intros ep Hin.
    assert (Hin' : ep ∈ pooled).
    { rewrite <- sort_desc_perm. by apply (subseteq_take limit (sort_desc pooled)). }
    rewrite Forall_forall in Hd. by apply Hd. }
  split; [exact Ht|]. by apply context_of_titles.
Qed.

End QueryMore.

(** X22.  A passage with a score of 1 or more gives full confidence,
    whatever the query and the other passages.  The scores are the
    distances that [search] hands over, so a passage far from the query
    is enough. *)
Theorem calculate_confidence_saturates (episodes : list episode) (query : string) ep :
  In ep episodes -> (1 <= ep_score ep)%Q ->
  (calculate_confidence episodes query == 1)%Q.
Proof.
  intros Hin Hs.
  destruct episodes as [|e0 episodes]; [done|].
  pose proof (py_max_highest (ep_score e0) (map ep_score episodes)) as Hh.
  rewrite (calculate_confidence_eq (e0 :: episodes) query _ Hh).
  destruct Hh as [_ Hmax].
  assert (H1 : (1 <= py_max (ep_score e0) (map ep_score episodes))%Q).
  { eapply Qle_trans; [exact Hs|]. apply Hmax.
    change (ep_score e0 :: map ep_score episodes) with (map ep_score (e0 :: episodes)).
    by apply in_map. }
  unfold confidence_formula. rewrite (Q.min_r _ 1 H1).
  apply Q.min_r.
  pose proof (relevance_boost_range (e0 :: episodes)) as Hr.
  pose proof (keyword_boost_range query) as Hk.
  apply Qle_trans with (1 + 0 + 0)%Q; [done|].
  apply Qplus_le_compat; [apply Qplus_le_compat|]; (done || apply Qle_refl).
Qed.

(** X18 at work: the index of [Pod] is searched. *)
Lemma search_footprint_witness :
  exists r w',
    search two_hit_env "Pod" "menu design" 5 indexed_world = (r, w') /\
    files w' = files indexed_world /\ stores w' = stores indexed_world.
Proof.
  eexists. eexists. split; [vm_compute; reflexivity|].
  edestruct (search_footprint two_hit_env "Pod" "menu design" 5 indexed_world)
    as (Hf & Hs & _).
  { vm_compute; reflexivity. }
  split; [exact Hf|exact Hs].
Defined.


(** X21 at work: the context names the two episodes of [Pod]. *)
Lemma retrieved_context_is_titles_witness :
  exists eps w',
    get_relevant_episodes two_hit_env ["Pod"] "menu design" 3 indexed_world = (inr eps, w') /\
    context_of eps = titles_only eps.
Proof.
  eexists. eexists. split; [vm_compute; reflexivity|].
  edestruct (retrieved_context_is_titles two_hit_env ["Pod"] "menu design" 3 indexed_world)
    as (_ & Hc).
  { vm_compute; reflexivity. }
  exact Hc.
Defined.

(** X22 at work: the one transcript of the index is at distance 0.3,
    and the two labels -1 that pad the answer of the index bring the
    last entry in twice, at a distance beyond 1. *)
Lemma calculate_confidence_saturates_witness :
  exists eps w',
    get_relevant_episodes padding_env ["Pod"] "menu design" 3 one_passage_world
      = (inr eps, w') /\
    length eps = 3%nat /\
    (calculate_confidence eps "menu design" == 1)%Q.
Proof.
  eexists. eexists. split; [vm_compute; reflexivity|]. split; [reflexivity|].
  apply (calculate_confidence_saturates _ _
           {| ep_podcast := "Pod"; ep_title := "Pilot"; ep_guid := "e1"; ep_text := "";
              ep_score := 1000000 # 1 |}).
  - left. reflexivity.
  - done.
Defined.

(* ================================================================== *)
(** * Further facts on the answers                                    *)
(* ================================================================== *)

Lemma lower_app (a b : string) : Str.lower (a +:+ b) = Str.lower a +:+ Str.lower b.
Proof.
  induction a as [|c a IH]; [done|].
  change (String c a +:+ b) with (String c (a +:+ b)).
  cbn [Str.lower]. by rewrite IH.
Qed.

Lemma prefix_app (p a b : string) :
  String.prefix p a = true -> String.prefix p (a +:+ b) = true.
Proof.
  revert a. induction p as [|c p IH]; intros a; [by destruct (a +:+ b)|].
  destruct a as [|d a]; [done|].
  change (String d a +:+ b) with (String d (a +:+ b)). cbn [String.prefix].
  destruct (ascii_dec c d); [apply IH|done].
Qed.

Lemma contains_app_l (p a b : string) :
  Str.contains p a = true -> Str.contains p (a +:+ b) = true.
Proof.
  induction a as [|d a IH].
  - cbn [Str.contains]. rewrite orb_false_r. destruct p; [|done].
    intros _. by destruct b.
  - change (String d a +:+ b) with (String d (a +:+ b)). cbn [Str.contains].
    intros [H|H]%orb_true_iff; apply orb_true_iff.
    + left. by apply (prefix_app p (String d a) b).
    + right. by apply IH.
Qed.

Lemma contains_app_r (p a b : string) :
  Str.contains p b = true -> Str.contains p (a +:+ b) = true.
Proof.
  intros H. induction a as [|d a IH]; [done|].
  change (String d a +:+ b) with (String d (a +:+ b)). cbn [Str.contains].
  apply orb_true_iff. by right.
Qed.

(** The two replies that stand for a failure are read as error replies
    by the gate, whatever the names in them. *)
Lemma technical_trouble_is_error (persona : Persona) :
  Str.contains "trouble accessing" (Str.lower (technical_trouble persona)) = true.
Proof.
  unfold technical_trouble. rewrite !lower_app.
  apply contains_app_r, contains_app_r. vm_compute. reflexivity.
Qed.

Lemma having_trouble_is_error (podcast : string) :
  Str.contains "trouble accessing"
    (Str.lower ("Having trouble accessing " +:+ podcast +:+ " insights right now.")) = true.
Proof.
  rewrite !lower_app. apply contains_app_l. vm_compute. reflexivity.
Qed.



Section DebateMore.
Context (env : Env).

(** What [single_persona_answer_with_confidence] comes to: it raises
    when retrieval raises, and otherwise returns, sending one request to
    the text generator; the reply is an error reply exactly when the
    generator failed. *)
Lemma single_persona_answer_run podcast query w :
  match get_relevant_episodes env [podcast] query 3 w with
  | (inl e, w1) =>
      single_persona_answer_with_confidence env podcast query w = (inl e, w1)
  | (inr episodes, w1) =>
      exists r p temperature max_tokens persona,
        single_persona_answer_with_confidence env podcast query w =
          (inr r, log_event (EvChat p temperature max_tokens) w1) /\
        match chat env (trace w1) p temperature max_tokens with
        | Some content =>
            error r = None /\ (source r = "creative" \/ source r = "database") /\
            confidence r = calculate_confidence episodes query
        | None =>
            error r = Some APIError /\ source r = "error" /\
            answer r = technical_trouble persona /\ confidence r = 0%Q
        end
  end.
Proof.
  unfold single_persona_answer_with_confidence. rewrite run_bind.
  destruct (get_relevant_episodes env [podcast] query 3 w) as [[e|episodes] w1]; [done|].
  destruct (load_persona_run env podcast w1) as [persona Hp].
  rewrite run_bind, Hp.
  destruct (Qltb (calculate_confidence episodes query) (7 # 10)).
  - rewrite run_try, run_bind, chat_completion_run.
    destruct (chat env (trace w1) (CreativePrompt persona query (detect_scenario_type query))
                (9 # 10) 700) eqn:Ec.
    all: eexists _, (CreativePrompt persona query (detect_scenario_type query)), (9 # 10)%Q,
           700%nat, persona.
    all: split; [reflexivity|]; rewrite Ec; cbn; auto.
  - rewrite run_try, run_bind, chat_completion_run.
    destruct (chat env (trace w1)
                (DatabasePrompt persona query (context_of episodes)
                   (detect_scenario_type query)) (8 # 10) 800) eqn:Ec.
    all: eexists _, (DatabasePrompt persona query (context_of episodes)
                       (detect_scenario_type query)), (8 # 10)%Q, 800%nat, persona.
    all: split; [reflexivity|]; rewrite Ec; cbn; auto.
Qed.

(** X23.  The loop that asks every podcast never raises and answers
    with one reply for each podcast, in their order.  A reply whose
    source is error has confidence 0 and is read as an error reply by
    the synthesis gate, whatever the names of the podcast and of its
    persona. *)
Theorem ask_each_replies podcasts query acc w :
  exists rs w',
    ask_each env podcasts query acc w = (inr (acc ++ rs), w') /\
    map ir_podcast rs = podcasts /\
    Forall (fun r => ir_source r = "error" ->
                     is_error_reply r = true /\ ir_confidence r = 0%Q) rs.
Proof.
  revert acc w. induction podcasts as [|p podcasts IH]; intros acc w.
  { exists [], w. by rewrite app_nil_r. }
  cbn [ask_each]. rewrite run_bind, run_try, run_bind.
  pose proof (single_persona_answer_run p query w) as Hs.
  destruct (get_relevant_episodes env [p] query 3 w) as [[e|episodes] w1].
  - rewrite Hs. rewrite run_ret.
    destruct (IH (acc ++ [{| ir_podcast := p;
                              ir_response := "Having trouble accessing " +:+ p +:+
                                             " insights right now.";
                              ir_confidence := 0; ir_source := "error" |}]) w1)
      as (rs & w' & -> & Hm & Hf).
    eexists (_ :: rs), w'. rewrite <- app_assoc. split; [reflexivity|].
    split; [by cbn; rewrite Hm|]. constructor; [|done].
    intros _. split; [apply having_trouble_is_error|done].
  - destruct Hs as (r & pr & t & m & persona & -> & Hr). rewrite run_ret.
    destruct (IH (acc ++ [{| ir_podcast := p; ir_response := answer r;
                              ir_confidence := confidence r;
                              ir_source := source r |}])
                (log_event (EvChat pr t m) w1))
      as (rs & w' & -> & Hm & Hf).
    eexists (_ :: rs), w'. rewrite <- app_assoc. split; [reflexivity|].
    split; [by cbn; rewrite Hm|]. constructor; [|done].
    cbn [ir_source ir_confidence]. unfold is_error_reply. cbn [ir_response].
    destruct (chat env _ _ _ _).
    + destruct Hr as (_ & [Hsrc|Hsrc] & _); rewrite Hsrc; discriminate.
    + destruct Hr as (_ & _ & -> & ->). intros _.
      split; [apply technical_trouble_is_error|done].
Qed.



(** X25.  The boundary reply does not reach the caller of the API.  It
    is the one reply of [multi_persona_debate_with_confidence] without
    the entry [episodes_referenced]; [multi_persona_debate], through
    which [query_multi] runs, reads that entry from every reply.  So for
    a query that the boundary guard stops, [multi_persona_debate] raises
    [KeyError] and [query_multi] answers with that error, the world
    untouched. *)
Theorem historical_query_breaks_the_wrapper podcasts query w :
  Str.contains_any historical_terms (Str.lower query) = true ->
  multi_persona_debate env podcasts query w = (inl KeyError, w) /\
  query_multi env podcasts query w = (inr (QueryError KeyError), w).
Proof.
  intros Hg.
  assert (Hd : multi_persona_debate env podcasts query w = (inl KeyError, w)).
  { unfold multi_persona_debate, multi_persona_debate_with_confidence.
    by rewrite run_bind, Hg. }
  split; [exact Hd|].
  unfold query_multi. by rewrite run_try, run_bind, Hd.
Qed.


End DebateMore.


(** X25 at work. *)
Lemma historical_query_breaks_the_wrapper_witness :
  query_multi (talking_env uncovered_words []) ["Pod"] "What changed in hotels in 2022?"
    one_passage_world = (inr (QueryError KeyError), one_passage_world).
Proof.
  apply (historical_query_breaks_the_wrapper (talking_env uncovered_words []) ["Pod"]
           "What changed in hotels in 2022?" one_passage_world).
  vm_compute; reflexivity.
Defined.

(* ================================================================== *)
(** * Further facts on the paths                                      *)
(* ================================================================== *)






(** X28.  The five artifacts of an episode have five different paths,
    for every base directory, podcast, guid and title: no stage writes
    over the artifact of another stage of the same episode. *)
Theorem episode_artifacts_distinct (base podcast guid title : string) :
  let paths := Paths.episode_paths base podcast guid title in
  NoDup [Paths.audio paths; Paths.audio_part paths; Paths.raw paths;
         Paths.clean paths; Paths.meta paths].
Proof.
  cbv zeta. cbn [Paths.audio Paths.audio_part Paths.raw Paths.clean Paths.meta
                 Paths.episode_paths].
  repeat (apply NoDup_cons; split;
          [rewrite ?not_elem_of_cons; repeat split; try apply not_elem_of_nil;
           intros E; (apply join_child_inj in E; [discriminate|cbn; lia|cbn; lia])|]).
  apply NoDup_nil_2.
Qed.
